(** * Ticket session manager and message router of the modmail bot

    A shallow embedding of [support.py]: the global stores
    ([active_tickets], [blacklisted_users], [ticket_logs],
    [user_welcome_timestamps]), the ticket lifecycle handlers
    ([create_ticket], the ticket control buttons, [actually_close_ticket],
    [auto_close_tickets]), the transcript renderer, the welcome throttle and
    the message router ([on_message], [forward_to_channel]).

    Conventions of the embedding.
    - A handler is a function on the stores: the run of its coroutine
      when nothing else runs before it ends, and [exec] runs handlers one
      after the other.  [create_ticket] and [send_welcome_message] are also
      given cut at their [await] points, as [task]s whose blocks
      [interleave] runs in any order.
    - Every call into discord.py is answered by a [transport] oracle that
      either returns or raises; the calls that returned are recorded, in
      order, as the handler's [effect]s.
    - [discord.utils.utcnow()] is the clock reading [now] of the step, an
      integer number of microseconds since the Unix epoch.  The two
      comparisons of the code on durations, made there on floating-point
      seconds and hours, are made here on microseconds; the rounding of
      the floating-point values is not modelled.
    - What a message sent by the bot looks like (embeds, views, files) is
      reduced to a [payload]; reading an attachment back for re-upload,
      the first answer to an interaction and [save_data] are taken not to
      fail.
    - Python dictionaries that the code iterates over are insertion-ordered
      association lists ([odict]); the blacklist set and the two dictionaries
      that are only looked up are [gset] and [gmap]. *)

From Stdlib Require Import ZArith Lia.
From stdpp Require Import gmap strings list fin_maps pretty.

Open Scope Z_scope.

(** ** Exceptions *)

Inductive result (A : Type) : Type :=
| Ok (a : A)
| Raise (e : string).
Arguments Ok {A} a.
Arguments Raise {A} e.

(** ** Insertion-ordered dictionaries

    [d[k] = v] overwrites in place when [k] is present and appends
    otherwise; [del d[k]] removes the entry; iteration follows the list. *)

Module OD.
Section odict.
Context {K : Type} `{EqDecision K} {V : Type}.

Definition odict : Type := list (K * V).

Fixpoint get (k : K) (d : odict) : option V :=
  match d with
  | [] => None
  | (k', v) :: d' => if decide (k = k') then Some v else get k d'
  end.

Definition mem (k : K) (d : odict) : bool :=
  match get k d with Some _ => true | None => false end.

Fixpoint set (k : K) (v : V) (d : odict) : odict :=
  match d with
  | [] => [(k, v)]
  | (k', v') :: d' =>
      if decide (k = k') then (k, v) :: d' else (k', v') :: set k v d'
  end.

Fixpoint del (k : K) (d : odict) : odict :=
  match d with
  | [] => []
  | (k', v') :: d' => if decide (k = k') then d' else (k', v') :: del k d'
  end.

Definition keys (d : odict) : list K := d.*1.

Definition len (d : odict) : Z := Z.of_nat (length d).
End odict.
Arguments odict K V : clear implicits.
End OD.

Abbreviation odict := OD.odict.

(** ** Clock readings and [strftime]

    A clock reading is the number of microseconds since the Unix epoch.
    The calendar date is recovered with the usual days-to-civil
    conversion (proleptic Gregorian calendar, as [datetime] has it). *)

Definition time : Type := Z.

Definition usec_per_sec : Z := 1000000.

Definition epoch_seconds (t : time) : Z := t / usec_per_sec.

(** Year, month and day of the day number [days] counted from 1970-01-01. *)
Definition civil_from_days (days : Z) : Z * Z * Z :=
  let z := days + 719468 in
  let era := z / 146097 in
  let doe := z - era * 146097 in
  let yoe := (doe - doe / 1460 + doe / 36524 - doe / 146096) / 365 in
  let y := yoe + era * 400 in
  let doy := doe - (365 * yoe + yoe / 4 - yoe / 100) in
  let mp := (5 * doy + 2) / 153 in
  let d := doy - (153 * mp + 2) / 5 + 1 in
  let m := if mp <? 10 then mp + 3 else mp - 9 in
  (if m <=? 2 then y + 1 else y, m, d).

Definition digit (n : Z) : string :=
  String (Ascii.ascii_of_nat (48 + Z.to_nat (n mod 10))) "".

Definition pad2 (n : Z) : string := digit (n / 10) +:+ digit n.

Definition pad4 (n : Z) : string := pad2 (n / 100) +:+ pad2 n.

(** [t.strftime('%Y-%m-%d')] *)
Definition strftime_date (t : time) : string :=
  let '(y, m, d) := civil_from_days (epoch_seconds t / 86400) in
  pad4 y +:+ "-" +:+ pad2 m +:+ "-" +:+ pad2 d.

(** [t.strftime('%Y-%m-%d %H:%M:%S')] *)
Definition strftime (t : time) : string :=
  let sod := epoch_seconds t mod 86400 in
  strftime_date t +:+ " " +:+ pad2 (sod / 3600) +:+ ":"
    +:+ pad2 (sod / 60 mod 60) +:+ ":" +:+ pad2 (sod mod 60).

(** [t.strftime('%Y%m%d-%H%M')] *)
Definition strftime_compact (t : time) : string :=
  let '(y, m, d) := civil_from_days (epoch_seconds t / 86400) in
  let sod := epoch_seconds t mod 86400 in
  pad4 y +:+ pad2 m +:+ pad2 d +:+ "-" +:+ pad2 (sod / 3600)
    +:+ pad2 (sod / 60 mod 60).


(** ** Data model *)

(** [CONFIG] *)
Record config : Type := {
  STAFF_ROLES : list string;
  TICKET_CATEGORY : string;
  LOG_CHANNEL : string;
  TICKET_CLOSE_CONFIRMATION : bool;
  ANONYMOUS_REPLIES : bool;
  AUTO_CLOSE_TIME : Z;               (* hours *)
  TICKET_LIMIT_PER_USER : Z;
  WELCOME_MESSAGE_COOLDOWN : Z       (* seconds *)
}.

Definition CONFIG : config := {|
  STAFF_ROLES := ["Admin"; "Moderator"; "On-Duty Support"];
  TICKET_CATEGORY := "MODMAIL";
  LOG_CHANNEL := "modmail-logs";
  TICKET_CLOSE_CONFIRMATION := true;
  ANONYMOUS_REPLIES := false;
  AUTO_CLOSE_TIME := 48;
  TICKET_LIMIT_PER_USER := 1;
  WELCOME_MESSAGE_COOLDOWN := 300
|}.

(** A text channel of the guild. *)
Record channel : Type := { ch_id : Z; ch_name : string }.

(** A [discord.User] or [discord.Member]; only a member has [roles]. *)
Record member : Type := {
  m_id : Z;
  m_name : string;
  m_bot : bool;
  m_roles : option (list string)
}.

Record embed : Type := {
  em_description : string;                (* empty when absent *)
  em_fields : list (string * string)
}.

Record attachment : Type := { at_filename : string; at_url : string }.

(** A [discord.Message], as the handlers and [channel.history] see it. *)
Record message : Type := {
  msg_id : Z;
  msg_author : member;
  msg_content : string;
  msg_embeds : list embed;
  msg_attachments : list attachment;
  msg_pinned : bool;
  msg_created_at : time;
  msg_channel : Z;                        (* id of the channel it was sent in *)
  msg_is_dm : bool;                       (* isinstance(channel, DMChannel) *)
  msg_reference : option Z
}.

(** An entry of [ticket_data["messages"]]. *)
Record log_entry : Type := {
  le_author_id : Z;
  le_content : string;
  le_timestamp : time;
  le_attachments : list string;
  le_channel_msg_id : option Z;
  le_user_msg_id : option Z
}.

(** A value of [active_tickets[user_id][channel_id]]. *)
Record ticket : Type := {
  tk_channel : channel;
  tk_category : string;
  tk_created_at : time;
  tk_last_activity : time;
  tk_messages : list log_entry;
  tk_closed : bool;
  tk_staff_typing : bool;
  tk_user_typing : bool
}.

(** An entry of [ticket_logs[str(user_id)]]. *)
Record closed_record : Type := {
  cr_channel_name : string;
  cr_category : string;
  cr_created_at : time;
  cr_closed_at : time;
  cr_closed_by : string;
  cr_message_count : Z
}.

(** The module-level stores. *)
Record store : Type := {
  active_tickets : odict Z (odict Z ticket);
  blacklisted_users : gset Z;
  ticket_logs : gmap string (list closed_record);
  user_welcome_timestamps : gmap Z time;
  ticket_attachments : gmap Z (Z * Z * list string)
}.

Definition empty_store : store := {|
  active_tickets := [];
  blacklisted_users := ∅;
  ticket_logs := ∅;
  user_welcome_timestamps := ∅;
  ticket_attachments := ∅
|}.

Definition set_active (f : odict Z (odict Z ticket) -> odict Z (odict Z ticket))
    (s : store) : store :=
  {| active_tickets := f (active_tickets s);
     blacklisted_users := blacklisted_users s;
     ticket_logs := ticket_logs s;
     user_welcome_timestamps := user_welcome_timestamps s;
     ticket_attachments := ticket_attachments s |}.

Definition set_blacklist (f : gset Z -> gset Z) (s : store) : store :=
  {| active_tickets := active_tickets s;
     blacklisted_users := f (blacklisted_users s);
     ticket_logs := ticket_logs s;
     user_welcome_timestamps := user_welcome_timestamps s;
     ticket_attachments := ticket_attachments s |}.

Definition set_logs
    (f : gmap string (list closed_record) -> gmap string (list closed_record))
    (s : store) : store :=
  {| active_tickets := active_tickets s;
     blacklisted_users := blacklisted_users s;
     ticket_logs := f (ticket_logs s);
     user_welcome_timestamps := user_welcome_timestamps s;
     ticket_attachments := ticket_attachments s |}.

Definition set_welcome (f : gmap Z time -> gmap Z time) (s : store) : store :=
  {| active_tickets := active_tickets s;
     blacklisted_users := blacklisted_users s;
     ticket_logs := ticket_logs s;
     user_welcome_timestamps := f (user_welcome_timestamps s);
     ticket_attachments := ticket_attachments s |}.

Definition set_attachments
    (f : gmap Z (Z * Z * list string) -> gmap Z (Z * Z * list string))
    (s : store) : store :=
  {| active_tickets := active_tickets s;
     blacklisted_users := blacklisted_users s;
     ticket_logs := ticket_logs s;
     user_welcome_timestamps := user_welcome_timestamps s;
     ticket_attachments := f (ticket_attachments s) |}.

(** *** Ticket-level accessors over [active_tickets] *)

(** [active_tickets[uid][cid]], when both keys are present. *)
Definition lookup_ticket (uid cid : Z) (a : odict Z (odict Z ticket))
    : option ticket :=
  match OD.get uid a with
  | Some d => OD.get cid d
  | None => None
  end.

(** [len(active_tickets.get(uid, {}))] *)
Definition ticket_count (uid : Z) (a : odict Z (odict Z ticket)) : Z :=
  match OD.get uid a with
  | Some d => OD.len d
  | None => 0
  end.

(** [if uid not in active_tickets: active_tickets[uid] = {}] followed by
    [active_tickets[uid][cid] = t]. *)
Definition insert_ticket (uid cid : Z) (t : ticket)
    (a : odict Z (odict Z ticket)) : odict Z (odict Z ticket) :=
  match OD.get uid a with
  | Some d => OD.set uid (OD.set cid t d) a
  | None => OD.set uid (OD.set cid t []) a
  end.

(** An in-place write to a field of the ticket object
    [active_tickets[uid][cid]]; nothing happens when it is not there (the
    callers test for presence or catch the [KeyError]). *)
Definition update_ticket (uid cid : Z) (f : ticket -> ticket)
    (a : odict Z (odict Z ticket)) : odict Z (odict Z ticket) :=
  match OD.get uid a with
  | Some d =>
      match OD.get cid d with
      | Some t => OD.set uid (OD.set cid (f t) d) a
      | None => a
      end
  | None => a
  end.

(** [del active_tickets[uid][cid]] followed by the pruning of an owner left
    without tickets.  The callers have found the ticket before they delete
    it, so that the [KeyError] of [del] on a missing key is not modelled. *)
Definition remove_ticket (uid cid : Z) (a : odict Z (odict Z ticket))
    : odict Z (odict Z ticket) :=
  match OD.get uid a with
  | Some d =>
      match OD.del cid d with
      | [] => OD.del uid a
      | d' => OD.set uid d' a
      end
  | None => a
  end.

(** [if key not in ticket_logs: ticket_logs[key] = []] followed by
    [ticket_logs[key].append(r)]. *)
Definition append_log (key : string) (r : closed_record)
    (logs : gmap string (list closed_record)) : gmap string (list closed_record) :=
  <[key := default [] (logs !! key) ++ [r]]> logs.

Definition set_closed (b : bool) (t : ticket) : ticket :=
  {| tk_channel := tk_channel t; tk_category := tk_category t;
     tk_created_at := tk_created_at t; tk_last_activity := tk_last_activity t;
     tk_messages := tk_messages t; tk_closed := b;
     tk_staff_typing := tk_staff_typing t; tk_user_typing := tk_user_typing t |}.

Definition set_category (c : string) (t : ticket) : ticket :=
  {| tk_channel := tk_channel t; tk_category := c;
     tk_created_at := tk_created_at t; tk_last_activity := tk_last_activity t;
     tk_messages := tk_messages t; tk_closed := tk_closed t;
     tk_staff_typing := tk_staff_typing t; tk_user_typing := tk_user_typing t |}.

Definition set_last_activity (n : time) (t : ticket) : ticket :=
  {| tk_channel := tk_channel t; tk_category := tk_category t;
     tk_created_at := tk_created_at t; tk_last_activity := n;
     tk_messages := tk_messages t; tk_closed := tk_closed t;
     tk_staff_typing := tk_staff_typing t; tk_user_typing := tk_user_typing t |}.

Definition append_message (e : log_entry) (t : ticket) : ticket :=
  {| tk_channel := tk_channel t; tk_category := tk_category t;
     tk_created_at := tk_created_at t; tk_last_activity := tk_last_activity t;
     tk_messages := tk_messages t ++ [e]; tk_closed := tk_closed t;
     tk_staff_typing := tk_staff_typing t; tk_user_typing := tk_user_typing t |}.

Definition set_staff_typing (b : bool) (t : ticket) : ticket :=
  {| tk_channel := tk_channel t; tk_category := tk_category t;
     tk_created_at := tk_created_at t; tk_last_activity := tk_last_activity t;
     tk_messages := tk_messages t; tk_closed := tk_closed t;
     tk_staff_typing := b; tk_user_typing := tk_user_typing t |}.

Definition set_user_typing (b : bool) (t : ticket) : ticket :=
  {| tk_channel := tk_channel t; tk_category := tk_category t;
     tk_created_at := tk_created_at t; tk_last_activity := tk_last_activity t;
     tk_messages := tk_messages t; tk_closed := tk_closed t;
     tk_staff_typing := tk_staff_typing t; tk_user_typing := b |}.

(** ** Transport: calls, their answers and what was sent *)

Inductive emoji : Type := CheckMark | ReplyArrow | Memo.

(** What a message sent by the bot carries (the embed layout is left out). *)
Inductive payload : Type :=
| PControl (category_name : string) (owner : Z) (message_content : string)
| PTicketCreated (category_name : string)
| PClosing (closed_by : Z)
| PClosedDM (transcript_name transcript : string)
| PAutoClose
| PAutoClosedDM (transcript_name transcript : string)
| PWelcome
| PAccessDenied
| PSelectPrompt (options : list (string * time * Z))
| PForward (author : Z) (content : string) (attachments : list string)
| PRelay (author_name content : string) (attachments : list string)
| PTransferred (category_name : string)
| PStaffReply (author_name content : string)
| PText (text : string).

(** The transport calls of a handler that returned. *)
Inductive effect : Type :=
| CreateChannel (c : channel)
| ChannelSend (cid : Z) (p : payload)
| Pin (mid : Z)
| UserSend (uid : Z) (p : payload)
| Respond (text : string)
| AddReaction (mid : Z) (e : emoji)
| ChannelEdit (cid : Z)
| ChannelDelete (cid : Z)
| LogAction (action category details : string)
| LoggerError (text : string)
| ProcessCommands (mid : Z).

(** The answers of discord.py during one handler.  A send returns the id of
    the message it created. *)
Record transport : Type := {
  tr_get_category : result unit;          (* find or create the category *)
  tr_create_text_channel : string -> result Z;
  tr_channel_send : Z -> result Z;
  tr_pin : Z -> result unit;
  tr_user_send : Z -> result Z;
  tr_fetch_user : Z -> result member;
  tr_history : Z -> result (list message);
  tr_add_reaction : Z -> emoji -> result unit;
  tr_channel_edit : Z -> result unit;
  tr_channel_delete : Z -> result unit;
  tr_typing : Z -> result unit;
  tr_log_action : result unit
}.

(** ** The handler monad: stores, emitted effects, exceptions

    A handler reads and writes the stores, emits effects and may raise.  An
    exception leaves the stores as they are when it is raised. *)

Definition M (A : Type) : Type := store -> result A * store * list effect.

Definition ret {A} (a : A) : M A := fun s => (Ok a, s, []).

Definition bind {A B} (m : M A) (k : A -> M B) : M B :=
  fun s =>
    match m s with
    | (Ok a, s', out) =>
        let '(r, s'', out') := k a s' in (r, s'', out ++ out')
    | (Raise e, s', out) => (Raise e, s', out)
    end.

#[global] Instance M_ret : MRet M := @ret.
#[global] Instance M_bind : MBind M := fun A B k m => bind m k.

(** [try: body except Exception as e: handler(e)]: what [body] wrote to the
    stores before raising stays written. *)
Definition try_except {A} (body : M A) (handler : string -> M A) : M A :=
  fun s =>
    match body s with
    | (Ok a, s', out) => (Ok a, s', out)
    | (Raise e, s', out) =>
        let '(r, s'', out') := handler e s' in (r, s'', out ++ out')
    end.

(** The same, for an [except] clause that answers the interaction: the
    handler is given the effects of [body], among which an answer that
    [body] has made shows. *)
Definition try_except_after {A} (body : M A)
    (handler : list effect -> string -> M A) : M A :=
  fun s =>
    match body s with
    | (Ok a, s', out) => (Ok a, s', out)
    | (Raise e, s', out) =>
        let '(r, s'', out') := handler out e s' in (r, s'', out ++ out')
    end.

Definition call {A} (r : result A) : M A := fun s => (r, s, []).

Definition emit (e : effect) : M unit := fun s => (Ok tt, s, [e]).

Definition get_store : M store := fun s => (Ok s, s, []).

Definition modify_store (f : store -> store) : M unit :=
  fun s => (Ok tt, f s, []).

Fixpoint for_each {A} (f : A -> M unit) (l : list A) : M unit :=
  match l with
  | [] => ret tt
  | x :: l' => f x;; for_each f l'
  end.

(** [interaction.response.send_message] after the effects [sent] of the
    handler: an interaction is answered once, and a second answer raises
    [InteractionResponded]. *)
Definition is_response (e : effect) : bool :=
  match e with
  | Respond _ => true
  | _ => false
  end.

Definition response_send_message (sent : list effect) (text : string) : M unit :=
  if existsb is_response sent
  then call (Raise "This interaction has already been responded to before")
  else emit (Respond text).

(** The three components of a handler run on a store. *)
Definition outcome_of {A} (m : M A) (s : store) : result A := (m s).1.1.
Definition store_after {A} (m : M A) (s : store) : store := (m s).1.2.
Definition effects_of {A} (m : M A) (s : store) : list effect := (m s).2.

(** ** String helpers *)

Definition nl : string := String (Ascii.ascii_of_nat 10) "".

Fixpoint repeat_string (n : nat) (s : string) : string :=
  match n with
  | O => ""
  | S n' => s +:+ repeat_string n' s
  end.

Definition is_ascii_alnum (c : Ascii.ascii) : bool :=
  let n := Ascii.nat_of_ascii c in
  ((48 <=? n) && (n <=? 57) || (65 <=? n) && (n <=? 90)
   || (97 <=? n) && (n <=? 122))%nat.

Fixpoint filter_string (p : Ascii.ascii -> bool) (s : string) : string :=
  match s with
  | EmptyString => EmptyString
  | String c s' =>
      if p c then String c (filter_string p s') else filter_string p s'
  end.

Fixpoint take_string (n : nat) (s : string) : string :=
  match n, s with
  | S n', String c s' => String c (take_string n' s')
  | _, _ => EmptyString
  end.

Definition lower_ascii (c : Ascii.ascii) : Ascii.ascii :=
  let n := Ascii.nat_of_ascii c in
  if ((65 <=? n) && (n <=? 90))%nat then Ascii.ascii_of_nat (n + 32) else c.

Fixpoint lower (s : string) : string :=
  match s with
  | EmptyString => EmptyString
  | String c s' => String (lower_ascii c) (lower s')
  end.

Fixpoint startswith (s p : string) : bool :=
  match p, s with
  | EmptyString, _ => true
  | String c p', String d s' => if decide (c = d) then startswith s' p' else false
  | String _ _, EmptyString => false
  end.

(** [re.sub(r'[^a-zA-Z0-9]', '', name)[:10]] *)
Definition clean_username (name : string) : string :=
  take_string 10 (filter_string is_ascii_alnum name).


(** ** The handlers *)

Section handlers.
Context (cfg : config) (tr : transport) (now : time).

(** [any(role.name in CONFIG["STAFF_ROLES"] for role in roles)] *)
Definition is_staff (roles : list string) : bool :=
  existsb (fun r => bool_decide (r ∈ STAFF_ROLES cfg)) roles.

(** Reading [who.roles]: an [AttributeError] on a plain [discord.User]. *)
Definition roles_of (who : member) : M (list string) :=
  match m_roles who with
  | Some roles => mret roles
  | None => call (Raise "'User' object has no attribute 'roles'")
  end.

Definition channel_send (cid : Z) (p : payload) : M Z :=
  mid ← call (tr_channel_send tr cid); emit (ChannelSend cid p);; mret mid.

Definition user_send (uid : Z) (p : payload) : M Z :=
  mid ← call (tr_user_send tr uid); emit (UserSend uid p);; mret mid.

Definition add_reaction (mid : Z) (e : emoji) : M unit :=
  call (tr_add_reaction tr mid e);; emit (AddReaction mid e).

Definition log_action (action category details : string) : M unit :=
  call (tr_log_action tr);; emit (LogAction action category details).

(** *** [create_transcript] *)

Definition transcript_header (channel : channel) (user : member) : string :=
  let transcript := "Transcript for ticket: " +:+ ch_name channel +:+ nl in
  let transcript :=
    transcript +:+ ("User: " +:+ m_name user +:+ " (ID: "
                      +:+ pretty (m_id user) +:+ ")" +:+ nl) in
  let transcript :=
    transcript +:+ ("Created at: " +:+ strftime now +:+ nl) in
  transcript +:+ (repeat_string 50 "-" +:+ nl +:+ nl).

Definition transcript_embed (transcript : string) (e : embed) : string :=
  let transcript :=
    if decide (em_description e = "") then transcript
    else transcript +:+ (em_description e +:+ nl) in
  fold_left (fun acc '(name, value) => acc +:+ (name +:+ ": " +:+ value +:+ nl))
            (em_fields e) transcript.

(** The lines of one message: header line, content, embeds, attachments
    and the closing blank line. *)
Definition transcript_entry (roles : list string) (transcript : string)
    (message : message) : string :=
  let timestamp := strftime (msg_created_at message) in
  let author :=
    if is_staff roles then m_name (msg_author message) +:+ " (Staff)"
    else m_name (msg_author message) in
  let transcript :=
    transcript +:+ ("[" +:+ timestamp +:+ "] " +:+ author +:+ ":" +:+ nl) in
  let transcript :=
    if decide (msg_content message = "") then transcript
    else transcript +:+ (msg_content message +:+ nl) in
  let transcript :=
    fold_left transcript_embed (msg_embeds message) transcript in
  let transcript :=
    match msg_attachments message with
    | [] => transcript
    | atts =>
        fold_left
          (fun acc a => acc +:+ ("- " +:+ at_filename a +:+ " ("
                                   +:+ at_url a +:+ ")" +:+ nl))
          atts (transcript +:+ ("Attachments:" +:+ nl))
    end in
  transcript +:+ nl.

(** One turn of the loop over the channel history: the pinned control
    message is skipped, and reading the roles of an author who is no longer
    a member raises. *)
Definition transcript_message (transcript : string) (message : message)
    : result string :=
  if m_bot (msg_author message)
     && bool_decide (0 < length (msg_embeds message))%nat
     && msg_pinned message
  then Ok transcript
  else
    match m_roles (msg_author message) with
    | None => Raise "'User' object has no attribute 'roles'"
    | Some roles => Ok (transcript_entry roles transcript message)
    end.

Fixpoint transcript_loop (messages : list message) (transcript : string)
    : result string :=
  match messages with
  | [] => Ok transcript
  | message :: rest =>
      match transcript_message transcript message with
      | Ok transcript' => transcript_loop rest transcript'
      | Raise e => Raise e
      end
  end.

Definition create_transcript (channel : channel) (user : member) : M string :=
  let transcript := transcript_header channel user in
  messages ← call (tr_history tr (ch_id channel));
  call (transcript_loop messages transcript).

(** What [create_transcript] returns or raises; it neither reads nor writes
    the stores. *)
Definition transcript_result (channel : channel) (user : member) : result string :=
  match tr_history tr (ch_id channel) with
  | Ok messages => transcript_loop messages (transcript_header channel user)
  | Raise e => Raise e
  end.

(** *** [create_ticket] *)

Definition limit_message : string :=
  "You've reached the maximum number of open tickets. Please close existing tickets before creating a new one.".

Definition blacklist_message : string :=
  "You are currently blacklisted from creating tickets. Please contact an administrator if you believe this is an error.".

Definition created_message (category_name : string) : string :=
  "Your " +:+ category_name
    +:+ " ticket has been created. Our staff team will respond shortly.".

Definition create_error_message : string :=
  "An error occurred while creating your ticket. Please try again later.".

(** [user.id in active_tickets and
     len(active_tickets[user.id]) >= CONFIG["TICKET_LIMIT_PER_USER"]] *)
Definition limit_reached (uid : Z) (s : store) : bool :=
  match OD.get uid (active_tickets s) with
  | Some d => TICKET_LIMIT_PER_USER cfg <=? OD.len d
  | None => false
  end.

Definition new_ticket (channel : channel) (category_name : string) : ticket :=
  {| tk_channel := channel; tk_category := category_name;
     tk_created_at := now; tk_last_activity := now; tk_messages := [];
     tk_closed := false; tk_staff_typing := false; tk_user_typing := false |}.

(** The name of the ticket channel: user name, category and minute. *)
Definition ticket_channel_name (user : member) (category_name : string) : string :=
  clean_username (m_name user) +:+ "-" +:+ lower category_name
    +:+ "-" +:+ strftime_compact now.

Definition create_ticket (user : member) (category_name message_content : string)
    : M string :=
  s ← get_store;
  if limit_reached (m_id user) s then mret limit_message
  else if decide (m_id user ∈ blacklisted_users s) then mret blacklist_message
  else
    try_except
      (call (tr_get_category tr);;
       let channel_name := ticket_channel_name user category_name in
       cid ← call (tr_create_text_channel tr channel_name);
       let channel := {| ch_id := cid; ch_name := channel_name |} in
       emit (CreateChannel channel);;
       modify_store
         (set_active (insert_ticket (m_id user) cid
                        (new_ticket channel category_name)));;
       control_message ←
         channel_send cid (PControl category_name (m_id user) message_content);
       call (tr_pin tr control_message);;
       emit (Pin control_message);;
       user_send (m_id user) (PTicketCreated category_name);;
       log_action
         ("Ticket created by " +:+ m_name user +:+ " ("
            +:+ pretty (m_id user) +:+ ")")
         category_name message_content;;
       mret (created_message category_name))
      (fun e =>
         emit (LoggerError ("Error creating ticket: " +:+ e));;
         mret create_error_message).

(** *** The ticket controls pinned in the ticket channel *)

(** [TicketControls.blacklist_button] *)
Definition blacklist_button (clicker user : member) : M unit :=
  roles ← roles_of clicker;
  if negb (is_staff roles)
  then emit (Respond "You don't have permission to blacklist users.")
  else
    modify_store (set_blacklist (fun b => {[m_id user]} ∪ b));;
    emit (Respond ("User <@" +:+ pretty (m_id user)
                     +:+ "> has been blacklisted from creating tickets.")).

(** [active_tickets[uid][cid][field] = value]: a [KeyError] when the ticket
    is gone. *)
Definition write_ticket (uid cid : Z) (f : ticket -> ticket) : M unit :=
  s ← get_store;
  match OD.get uid (active_tickets s) with
  | None => call (Raise (pretty uid))
  | Some d =>
      match OD.get cid d with
      | None => call (Raise (pretty cid))
      | Some _ => modify_store (set_active (update_ticket uid cid f))
      end
  end.

(** [TicketControls.archive_button] *)
Definition archive_button (channel : channel) (user : member) : M unit :=
  emit (Respond "Archiving ticket...");;
  try_except
    (call (tr_channel_edit tr (ch_id channel));;
     emit (ChannelEdit (ch_id channel));;
     write_ticket (m_id user) (ch_id channel) (set_closed true))
    (fun e => emit (Respond ("Error archiving channel: " +:+ e))).

(** [DepartmentSelect.callback] of the transfer button. *)
Definition transfer_callback (channel : channel) (user : member)
    (new_category : string) : M unit :=
  try_except
    (call (tr_channel_edit tr (ch_id channel));;
     emit (ChannelEdit (ch_id channel));;
     write_ticket (m_id user) (ch_id channel) (set_category new_category);;
     channel_send (ch_id channel) (PTransferred new_category);;
     user_send (m_id user) (PTransferred new_category);;
     emit (Respond ("Ticket transferred to " +:+ new_category +:+ " department.")))
    (fun e => emit (Respond ("Error transferring ticket: " +:+ e))).

(** *** [actually_close_ticket] *)

Definition closed_summary (channel : channel) (ticket_data : ticket)
    (closed_at : time) (closed_by : string) : closed_record :=
  {| cr_channel_name := ch_name channel;
     cr_category := tk_category ticket_data;
     cr_created_at := tk_created_at ticket_data;
     cr_closed_at := closed_at;
     cr_closed_by := closed_by;
     cr_message_count := Z.of_nat (length (tk_messages ticket_data)) |}.

(** Append the summary to [ticket_logs[str(uid)]] and remove the ticket. *)
Definition archive_and_remove (uid cid : Z) (channel : channel)
    (ticket_data : ticket) (closed_by : string) (s : store) : store :=
  set_active (remove_ticket uid cid)
    (set_logs
       (append_log (pretty uid)
          (closed_summary channel ticket_data now closed_by)) s).

Definition close_success_message : string :=
  "Ticket closed successfully. This channel will be deleted in 5 seconds.".

Definition actually_close_ticket (closer : member) (channel : channel)
    (user : member) : M unit :=
  try_except_after
    (transcript ← create_transcript channel user;
     channel_send (ch_id channel) (PClosing (m_id closer));;
     try_except
       (user_send (m_id user)
          (PClosedDM ("transcript-" +:+ ch_name channel +:+ ".txt") transcript);;
        mret tt)
       (fun e =>
          emit (LoggerError
                  ("Could not send closing notification to user: " +:+ e)));;
     s ← get_store;
     match lookup_ticket (m_id user) (ch_id channel) (active_tickets s) with
     | Some ticket_data =>
         modify_store
           (archive_and_remove (m_id user) (ch_id channel) channel
              ticket_data (pretty (m_id closer)))
     | None => mret tt
     end;;
     log_action
       ("Ticket closed by " +:+ m_name closer +:+ " ("
          +:+ pretty (m_id closer) +:+ ")")
       "Ticket Closure" "";;
     emit (Respond close_success_message);;
     call (tr_channel_delete tr (ch_id channel));;
     emit (ChannelDelete (ch_id channel)))
    (fun sent e =>
       response_send_message sent ("Error closing ticket: " +:+ e);;
       emit (LoggerError ("Error closing ticket: " +:+ e))).

(** [close_ticket]: the close button, with or without confirmation. *)
Definition close_ticket (closer : member) (channel : channel) (user : member)
    : M unit :=
  if TICKET_CLOSE_CONFIRMATION cfg
  then emit (Respond "Are you sure you want to close this ticket?")
  else actually_close_ticket closer channel user.

(** *** [send_welcome_message] *)

(** [current_time - last_welcome < CONFIG["WELCOME_MESSAGE_COOLDOWN"]],
    with the timestamps in microseconds and the cooldown in seconds (the
    source subtracts floating-point seconds; their rounding is left out). *)
Definition within_cooldown (last_welcome : time) : bool :=
  now - last_welcome <? WELCOME_MESSAGE_COOLDOWN cfg * usec_per_sec.

Definition greet (user : member) : M unit :=
  user_send (m_id user) PWelcome;;
  modify_store (set_welcome (fun t => <[m_id user := now]> t)).

Definition send_welcome_message (user : member) : M unit :=
  s ← get_store;
  match user_welcome_timestamps s !! m_id user with
  | Some last_welcome =>
      if within_cooldown last_welcome then mret tt else greet user
  | None => greet user
  end.

(** *** [auto_close_tickets]: one sweep of the reaper loop *)

(** [(current_time - last_activity).total_seconds() / 3600
      >= CONFIG["AUTO_CLOSE_TIME"]] *)
Definition inactive (ticket_data : ticket) : bool :=
  AUTO_CLOSE_TIME cfg * 3600 * usec_per_sec
    <=? now - tk_last_activity ticket_data.

Definition due (ticket_data : ticket) : bool :=
  negb (tk_closed ticket_data) && inactive ticket_data.

(** The list [to_close], in iteration order. *)
Definition find_inactive (a : odict Z (odict Z ticket)) : list (Z * Z) :=
  flat_map
    (fun '(user_id, user_tickets) =>
       flat_map
         (fun '(channel_id, ticket_data) =>
            if due ticket_data then [(user_id, channel_id)] else [])
         user_tickets)
    a.

(** [active_tickets[uid][cid]] as an expression: a [KeyError] when absent. *)
Definition read_ticket (uid cid : Z) : M ticket :=
  s ← get_store;
  match OD.get uid (active_tickets s) with
  | None => call (Raise (pretty uid))
  | Some d =>
      match OD.get cid d with
      | None => call (Raise (pretty cid))
      | Some t => mret t
      end
  end.

(** The body of the closing loop for one entry of [to_close]. *)
Definition auto_close_one (target : Z * Z) : M unit :=
  let '(user_id, channel_id) := target in
  try_except
    (ticket ← read_ticket user_id channel_id;
     let channel := tk_channel ticket in
     user ← call (tr_fetch_user tr user_id);
     channel_send (ch_id channel) PAutoClose;;
     transcript ← create_transcript channel user;
     try_except
       (user_send (m_id user)
          (PAutoClosedDM ("transcript-" +:+ ch_name channel +:+ ".txt")
             transcript);;
        mret tt)
       (fun _ =>
          emit (LoggerError
                  ("Could not send auto-close notification to user "
                     +:+ pretty user_id)));;
     ticket_data ← read_ticket user_id channel_id;
     modify_store
       (archive_and_remove user_id channel_id channel ticket_data
          "auto-close");;
     call (tr_channel_delete tr (ch_id channel));;
     emit (ChannelDelete (ch_id channel)))
    (fun e => emit (LoggerError ("Error auto-closing ticket: " +:+ e))).

Definition auto_close_tickets : M unit :=
  s ← get_store;
  for_each auto_close_one (find_inactive (active_tickets s)).

(** *** [forward_to_channel] *)

(** The owner under whom the scan over [active_tickets] first meets the
    key [cid]. *)
Fixpoint find_channel (cid : Z) (a : odict Z (odict Z ticket)) : option Z :=
  match a with
  | [] => None
  | (user_id, user_tickets) :: a' =>
      if OD.mem cid user_tickets then Some user_id else find_channel cid a'
  end.

Definition attachment_urls (message : message) : list string :=
  at_url <$> msg_attachments message.

(** The log entry of a user message delivered as [ticket_msg]. *)
Definition user_entry (message : message) (ticket_msg : Z) : log_entry :=
  {| le_author_id := m_id (msg_author message);
     le_content := msg_content message;
     le_timestamp := now;
     le_attachments := attachment_urls message;
     le_channel_msg_id := Some ticket_msg;
     le_user_msg_id := Some (msg_id message) |}.

(** The log entry of a staff message. *)
Definition staff_entry (message : message) : log_entry :=
  {| le_author_id := m_id (msg_author message);
     le_content := msg_content message;
     le_timestamp := now;
     le_attachments := attachment_urls message;
     le_channel_msg_id := None;
     le_user_msg_id := None |}.

Definition forward_to_channel (message : message) (channel : channel)
    : M unit :=
  try_except
    (s ← get_store;
     match find_channel (ch_id channel) (active_tickets s) with
     | Some owner =>
         modify_store
           (set_active
              (update_ticket owner (ch_id channel) (set_last_activity now)));;
         ticket_msg ←
           channel_send (ch_id channel)
             (PForward (m_id (msg_author message)) (msg_content message)
                (attachment_urls message));
         modify_store
           (set_active
              (update_ticket owner (ch_id channel)
                 (append_message (user_entry message ticket_msg))));;
         add_reaction ticket_msg CheckMark;;
         add_reaction ticket_msg ReplyArrow;;
         add_reaction ticket_msg Memo;;
         add_reaction (msg_id message) CheckMark;;
         match msg_attachments message with
         | [] => mret tt
         | _ =>
             modify_store
               (set_attachments
                  (fun t =>
                     <[ticket_msg := (m_id (msg_author message),
                                      ch_id channel,
                                      attachment_urls message)]> t))
         end
     | None =>
         channel_send (msg_channel message)
           (PText "I couldn't find an active ticket to forward your message to. Please create a new ticket.");;
         send_welcome_message (msg_author message)
     end)
    (fun e =>
       emit (LoggerError ("Error forwarding message to channel: " +:+ e));;
       channel_send (msg_channel message)
         (PText ("Error sending your message: " +:+ e
                   +:+ ". Please try again later."));;
       mret tt).

(** *** [on_message] *)

(** The first ticket of the owner, in iteration order, that is not flagged
    closed. *)
Definition first_open (user_tickets : odict Z ticket) : option (Z * ticket) :=
  List.find (fun '(_, ticket_data) => negb (tk_closed ticket_data)) user_tickets.

(** The options of the ticket-selection prompt. *)
Definition select_options (user_tickets : odict Z ticket)
    : list (string * time * Z) :=
  flat_map
    (fun '(channel_id, ticket_data) =>
       if tk_closed ticket_data then []
       else [(tk_category ticket_data, tk_created_at ticket_data, channel_id)])
    user_tickets.

Definition forward_to_first_open (message : message)
    (user_tickets : odict Z ticket) : M unit :=
  match first_open user_tickets with
  | Some (_, ticket_data) => forward_to_channel message (tk_channel ticket_data)
  | None => mret tt
  end.

(** The branch for a direct message of a user. *)
Definition on_direct_message (message : message) : M unit :=
  s ← get_store;
  if decide (m_id (msg_author message) ∈ blacklisted_users s)
  then channel_send (msg_channel message) PAccessDenied;; mret tt
  else
    match OD.get (m_id (msg_author message)) (active_tickets s) with
    | None => send_welcome_message (msg_author message)
    | Some active_user_tickets =>
        if (1 <? OD.len active_user_tickets)
           && negb (bool_decide (is_Some (msg_reference message)))
        then
          match select_options active_user_tickets with
          | [] => forward_to_first_open message active_user_tickets
          | options =>
              channel_send (msg_channel message) (PSelectPrompt options);;
              mret tt
          end
        else forward_to_first_open message active_user_tickets
    end.

(** The scan of the staff branch: the owner and ticket of the channel, with
    Python's truth test on the owner id deciding when the scan stops. *)
Definition scan_open (cid : Z) (user_tickets : odict Z ticket) : option ticket :=
  snd <$> List.find
            (fun '(channel_id, ticket_info) =>
               bool_decide (channel_id = cid) && negb (tk_closed ticket_info))
            user_tickets.

Definition truthy_owner (found : option (Z * ticket)) : bool :=
  match found with
  | Some (ticket_owner_id, _) => negb (ticket_owner_id =? 0)
  | None => false
  end.

Fixpoint find_open_ticket (cid : Z) (a : odict Z (odict Z ticket))
    (found : option (Z * ticket)) : option (Z * ticket) :=
  match a with
  | [] => found
  | (user_id, user_tickets) :: a' =>
      let found' :=
        match scan_open cid user_tickets with
        | Some ticket_info => Some (user_id, ticket_info)
        | None => found
        end in
      if truthy_owner found' then found' else find_open_ticket cid a' found'
  end.

(** The branch for a message in a guild channel. *)
Definition on_channel_message (message : message) : M unit :=
  s ← get_store;
  let found := find_open_ticket (msg_channel message) (active_tickets s) None in
  if truthy_owner found then
    match found with
    | Some (ticket_owner_id, _) =>
        modify_store
          (set_active
             (update_ticket ticket_owner_id (msg_channel message)
                (fun t =>
                   append_message (staff_entry message)
                     (set_last_activity now t))));;
        try_except
          (user ← call (tr_fetch_user tr ticket_owner_id);
           let author_name :=
             if ANONYMOUS_REPLIES cfg then "Staff"
             else m_name (msg_author message) in
           user_send (m_id user)
             (PRelay author_name (msg_content message)
                (attachment_urls message));;
           add_reaction (msg_id message) CheckMark)
          (fun e =>
             emit (LoggerError ("Error forwarding message to user: " +:+ e));;
             channel_send (msg_channel message)
               (PText ("Error sending message to user: " +:+ e));;
             mret tt)
    | None => mret tt
    end
  else mret tt.

Definition command_prefix : string := "!".

Definition on_message (bot_id : Z) (message : message) : M unit :=
  if m_bot (msg_author message)
     && negb (bool_decide (m_id (msg_author message) = bot_id))
  then mret tt
  else if negb (m_bot (msg_author message))
          && startswith (msg_content message) command_prefix
  then emit (ProcessCommands (msg_id message))
  else if msg_is_dm message && negb (m_bot (msg_author message))
  then on_direct_message message
  else if negb (msg_is_dm message) && negb (m_bot (msg_author message))
  then on_channel_message message
  else mret tt.

(** [TicketSelect.callback]: the answer to the selection prompt.  The
    dictionary the callback holds is the owner's entry of the active index
    for as long as the owner keeps a ticket in it. *)
Definition ticket_select_callback (message : message)
    (selected_channel_id : Z) : M unit :=
  s ← get_store;
  match lookup_ticket (m_id (msg_author message)) selected_channel_id
          (active_tickets s) with
  | Some ticket_data =>
      forward_to_channel message (tk_channel ticket_data);;
      emit (Respond ("Your message has been sent to your "
                       +:+ tk_category ticket_data +:+ " ticket."))
  | None => mret tt
  end.

(** *** The remaining writers of the stores *)

(** A button of [SupportTicketView]. *)
Definition ticket_button (user : member) (category_name request : string)
    : M unit :=
  response ← create_ticket user category_name request;
  emit (Respond response).

(** The relay of one typing event into a ticket channel or to the owner. *)
Definition relay_user_typing (uid : Z) (entry : Z * ticket) : M unit :=
  let '(channel_id, ticket_data) := entry in
  if negb (tk_closed ticket_data) && negb (tk_user_typing ticket_data) then
    modify_store
      (set_active (update_ticket uid channel_id (set_user_typing true)));;
    call (tr_typing tr (ch_id (tk_channel ticket_data)));;
    modify_store
      (set_active (update_ticket uid channel_id (set_user_typing false)))
  else mret tt.

Definition relay_staff_typing (user_id cid : Z) (ticket_data : ticket)
    : M unit :=
  if negb (tk_staff_typing ticket_data) then
    modify_store
      (set_active (update_ticket user_id cid (set_staff_typing true)));;
    ticket_owner ← call (tr_fetch_user tr user_id);
    try_except
      (call (tr_typing tr (m_id ticket_owner));;
       modify_store
         (set_active (update_ticket user_id cid (set_staff_typing false))))
      (fun _ =>
         modify_store
           (set_active (update_ticket user_id cid (set_staff_typing false))))
  else mret tt.

Fixpoint staff_typing_scan (cid : Z) (a : odict Z (odict Z ticket)) : M unit :=
  match a with
  | [] => mret tt
  | (user_id, user_tickets) :: a' =>
      match scan_open cid user_tickets with
      | Some ticket_data =>
          relay_staff_typing user_id cid ticket_data;;
          if user_id =? 0 then staff_typing_scan cid a' else mret tt
      | None => staff_typing_scan cid a'
      end
  end.

Definition on_typing (is_dm : bool) (channel_id : Z) (user : member) : M unit :=
  if m_bot user then mret tt
  else
    s ← get_store;
    match (if is_dm then OD.get (m_id user) (active_tickets s) else None) with
    | Some user_tickets => for_each (relay_user_typing (m_id user)) user_tickets
    | None => staff_typing_scan channel_id (active_tickets s)
    end.

(** [ReplyModal.on_submit] of the quick-reply reaction, for the reply of
    [staff] in the modal of a reaction in the channel [channel_id]:
    [ticket_owner_id] and the ticket object are those that the reaction
    found. *)
Definition reply_modal_submit (staff : member) (ticket_owner_id channel_id : Z)
    (reply_content : string) : M unit :=
  ticket_user ← call (tr_fetch_user tr ticket_owner_id);
  try_except_after
    (let author_name :=
       if ANONYMOUS_REPLIES cfg then "Staff" else m_name staff in
     user_send (m_id ticket_user) (PRelay author_name reply_content []);;
     emit (Respond "Reply sent successfully!");;
     modify_store
       (set_active
          (update_ticket ticket_owner_id channel_id
             (fun t =>
                set_last_activity now
                  (append_message
                     {| le_author_id := m_id staff;
                        le_content := reply_content;
                        le_timestamp := now;
                        le_attachments := [];
                        le_channel_msg_id := None;
                        le_user_msg_id := None |} t))));;
     channel_send channel_id (PStaffReply (m_name staff) reply_content);;
     mret tt)
    (fun sent e => response_send_message sent ("Error sending reply: " +:+ e)).

(** [!ticket blacklist @user] and [!ticket unblacklist @user]; the other
    actions of the command only read the stores. *)
Definition ticket_command (in_guild : bool) (ctx_channel : Z) (author : member)
    (action : string) (mentions : list member) : M unit :=
  if negb in_guild then
    channel_send ctx_channel
      (PText "This command can only be used in a server.");;
    mret tt
  else
    roles ← roles_of author;
    if negb (is_staff roles) then
      channel_send ctx_channel
        (PText "You don't have permission to use this command.");;
      mret tt
    else if decide (action = "blacklist") then
      match mentions with
      | [] =>
          channel_send ctx_channel (PText "Please mention a user to blacklist.");;
          mret tt
      | user :: _ =>
          modify_store (set_blacklist (fun b => {[m_id user]} ∪ b));;
          channel_send ctx_channel
            (PText ("<@" +:+ pretty (m_id user)
                      +:+ "> has been blacklisted from creating tickets."));;
          log_action
            ("User blacklisted by " +:+ m_name author +:+ " ("
               +:+ pretty (m_id author) +:+ ")")
            "Blacklist"
            ("User: " +:+ m_name user +:+ " (" +:+ pretty (m_id user) +:+ ")")
      end
    else if decide (action = "unblacklist") then
      match mentions with
      | [] =>
          channel_send ctx_channel
            (PText "Please mention a user to remove from the blacklist.");;
          mret tt
      | user :: _ =>
          s ← get_store;
          if decide (m_id user ∈ blacklisted_users s) then
            modify_store (set_blacklist (fun b => b ∖ {[m_id user]}));;
            channel_send ctx_channel
              (PText ("<@" +:+ pretty (m_id user)
                        +:+ "> has been removed from the blacklist."));;
            log_action
              ("User unblacklisted by " +:+ m_name author +:+ " ("
                 +:+ pretty (m_id author) +:+ ")")
              "Blacklist"
              ("User: " +:+ m_name user +:+ " (" +:+ pretty (m_id user) +:+ ")")
          else
            channel_send ctx_channel
              (PText ("<@" +:+ pretty (m_id user)
                        +:+ "> is not in the blacklist."));;
            mret tt
      end
    else mret tt.
End handlers.

(** [load_data], run by [on_ready]: the three persisted stores are replaced
    by the content of the data file, when there is one. *)
Record persisted : Type := {
  p_blacklisted_users : list Z;
  p_ticket_logs : gmap string (list closed_record);
  p_user_welcome_timestamps : gmap Z time
}.

Definition load_data (file : option persisted) : M unit :=
  match file with
  | Some data =>
      modify_store
        (fun s =>
           {| active_tickets := active_tickets s;
              blacklisted_users := list_to_set (p_blacklisted_users data);
              ticket_logs := p_ticket_logs data;
              user_welcome_timestamps := p_user_welcome_timestamps data;
              ticket_attachments := ticket_attachments s |})
  | None => mret tt
  end.

(** ** Events and runs of the bot *)

Inductive event : Type :=
| EvTicketButton (user : member) (category_name request : string)
| EvCloseButton (closer : member) (channel : channel) (user : member)
| EvConfirmClose (closer : member) (channel : channel) (user : member)
| EvBlacklistButton (clicker user : member)
| EvArchiveButton (channel : channel) (user : member)
| EvTransfer (channel : channel) (user : member) (new_category : string)
| EvMessage (bot_id : Z) (message : message)
| EvTicketSelect (message : message) (selected_channel_id : Z)
| EvTyping (is_dm : bool) (channel_id : Z) (user : member)
| EvReplyModal (staff : member) (ticket_owner_id channel_id : Z)
    (reply_content : string)
| EvTicketCommand (in_guild : bool) (ctx_channel : Z) (author : member)
    (action : string) (mentions : list member)
| EvSweep
| EvReady (file : option persisted).

(** One step of a run: an event, the clock reading at which its handler
    runs and the answers of the transport during it. *)
Record step : Type := { st_event : event; st_now : time; st_transport : transport }.

Definition handle (cfg : config) (st : step) : M unit :=
  let tr := st_transport st in
  let now := st_now st in
  match st_event st with
  | EvTicketButton user category_name request =>
      ticket_button cfg tr now user category_name request
  | EvCloseButton closer channel user => close_ticket cfg tr now closer channel user
  | EvConfirmClose closer channel user =>
      actually_close_ticket cfg tr now closer channel user
  | EvBlacklistButton clicker user => blacklist_button cfg clicker user
  | EvArchiveButton channel user => archive_button tr channel user
  | EvTransfer channel user new_category =>
      transfer_callback tr channel user new_category
  | EvMessage bot_id message => on_message cfg tr now bot_id message
  | EvTicketSelect message selected_channel_id =>
      ticket_select_callback cfg tr now message selected_channel_id
  | EvTyping is_dm channel_id user => on_typing tr is_dm channel_id user
  | EvReplyModal staff ticket_owner_id channel_id reply_content =>
      reply_modal_submit cfg tr now staff ticket_owner_id channel_id
        reply_content
  | EvTicketCommand in_guild ctx_channel author action mentions =>
      ticket_command cfg tr in_guild ctx_channel author action mentions
  | EvSweep => auto_close_tickets cfg tr now
  | EvReady file => load_data file
  end.

(** The store after a run, each handler running to completion in turn. *)
Definition exec (cfg : config) (steps : list step) (s : store) : store :=
  fold_left (fun s st => store_after (handle cfg st) s) steps s.

(** ** Coroutines and their interleaving

    A handler is a coroutine.  It runs without interruption up to an
    [await] of the transport; while it waits for the answer, the other
    coroutines of the bot run, and the stores it reads when it is resumed
    are those that they have left.  A [task] is a handler cut at its
    awaits: [Await block k] runs [block], which ends with the awaited call,
    and goes on as [k] with the answer; [Return last] runs to the end of the
    handler. *)

Inductive task (A : Type) : Type :=
| Return (last : M A)
| Await {B : Type} (block : M B) (k : result B → task A).

Arguments Return {A} last.
Arguments Await {A B} block k.

(** The coroutine when nothing else runs before it ends. *)
Fixpoint run_task {A} (t : task A) : M A :=
  match t with
  | Return last => last
  | Await block k =>
      fun s =>
        let '(r, s', out) := block s in
        let '(r', s'', out') := run_task (k r) s' in (r', s'', out ++ out')
  end.

(** A coroutine of the pool: suspended before its next block, or ended. *)
Inductive thread (A : Type) : Type :=
| Suspended (t : task A)
| Finished (r : result A).

Arguments Suspended {A} t.
Arguments Finished {A} r.

(** The next block of a coroutine. *)
Definition resume {A} (th : thread A) (s : store)
    : thread A * store * list effect :=
  match th with
  | Finished r => (Finished r, s, [])
  | Suspended (Return last) =>
      let '(r, s', out) := last s in (Finished r, s', out)
  | Suspended (Await block k) =>
      let '(r, s', out) := block s in (Suspended (k r), s', out)
  end.

(** The pool after the blocks that [schedule] names, by the position of
    their coroutine in the pool, have run in that order. *)
Fixpoint interleave {A} (schedule : list nat) (pool : list (thread A))
    (s : store) : list (thread A) * store * list effect :=
  match schedule with
  | [] => (pool, s, [])
  | i :: rest =>
      match pool !! i with
      | None => interleave rest pool s
      | Some th =>
          let '(th', s', out) := resume th s in
          let '(pool', s'', out') := interleave rest (<[i := th']> pool) s' in
          (pool', s'', out ++ out')
      end
  end.

Section coroutines.
Context (cfg : config) (tr : transport) (now : time).

(** [create_ticket], cut at its awaits. *)

(** The [except] clause. *)
Definition create_ticket_except (e : string) : task string :=
  Return (emit (LoggerError ("Error creating ticket: " +:+ e));;
          mret create_error_message).

(** From the answer of [create_text_channel] on: the insertion of the
    ticket and the four calls that follow it. *)
Definition create_ticket_insert (user : member)
    (category_name message_content : string) (cid : Z) : task string :=
  let channel :=
    {| ch_id := cid; ch_name := ticket_channel_name now user category_name |} in
  Await
    (emit (CreateChannel channel);;
     modify_store
       (set_active (insert_ticket (m_id user) cid
                      (new_ticket now channel category_name)));;
     call (tr_channel_send tr cid))
    (fun r =>
       match r with
       | Raise e => create_ticket_except e
       | Ok control_message =>
           Await
             (emit (ChannelSend cid
                      (PControl category_name (m_id user) message_content));;
              call (tr_pin tr control_message))
             (fun r =>
                match r with
                | Raise e => create_ticket_except e
                | Ok _ =>
                    Await
                      (emit (Pin control_message);;
                       call (tr_user_send tr (m_id user)))
                      (fun r =>
                         match r with
                         | Raise e => create_ticket_except e
                         | Ok _ =>
                             Await
                               (emit (UserSend (m_id user)
                                        (PTicketCreated category_name));;
                                call (tr_log_action tr))
                               (fun r =>
                                  match r with
                                  | Raise e => create_ticket_except e
                                  | Ok _ =>
                                      Return
                                        (emit
                                           (LogAction
                                              ("Ticket created by "
                                                 +:+ m_name user +:+ " ("
                                                 +:+ pretty (m_id user) +:+ ")")
                                              category_name message_content);;
                                         mret (created_message category_name))
                                  end)
                         end)
                end)
       end).

(** From the category on: the request for the channel. *)
Definition create_ticket_channel (user : member)
    (category_name message_content : string) : task string :=
  Await
    (call (tr_create_text_channel tr (ticket_channel_name now user category_name)))
    (fun r =>
       match r with
       | Raise e => create_ticket_except e
       | Ok cid => create_ticket_insert user category_name message_content cid
       end).

(** The two tests and the category: a refusal ends the coroutine. *)
Definition create_ticket_task (user : member)
    (category_name message_content : string) : task string :=
  Await
    (s ← get_store;
     if limit_reached cfg (m_id user) s then mret (Some limit_message)
     else if decide (m_id user ∈ blacklisted_users s)
          then mret (Some blacklist_message)
          else call (tr_get_category tr);; mret None)
    (fun r =>
       match r with
       | Raise e => create_ticket_except e
       | Ok (Some refusal) => Return (mret refusal)
       | Ok None => create_ticket_channel user category_name message_content
       end).

(** [send_welcome_message], cut at its await: the test of the cooldown and
    the send, then the writing of the timestamp. *)
Definition send_welcome_message_task (user : member) : task unit :=
  Await
    (s ← get_store;
     match user_welcome_timestamps s !! m_id user with
     | Some last_welcome =>
         if within_cooldown cfg now last_welcome then mret None
         else mid ← call (tr_user_send tr (m_id user)); mret (Some mid)
     | None => mid ← call (tr_user_send tr (m_id user)); mret (Some mid)
     end)
    (fun r =>
       match r with
       | Raise e => Return (call (Raise e))
       | Ok None => Return (mret tt)
       | Ok (Some _) =>
           Return
             (emit (UserSend (m_id user) PWelcome);;
              modify_store (set_welcome (fun t => <[m_id user := now]> t)))
       end).
End coroutines.

(** A press of a ticket button: who presses, for which category, at which
    clock reading, and the answers of the transport to its coroutine. *)
Record press : Type := {
  pr_user : member;
  pr_category : string;
  pr_request : string;
  pr_now : time;
  pr_transport : transport
}.

(** The coroutines of [create_ticket] that the presses start. *)
Definition creations (cfg : config) (presses : list press)
    : list (thread string) :=
  (fun p =>
     Suspended
       (create_ticket_task cfg (pr_transport p) (pr_now p) (pr_user p)
          (pr_category p) (pr_request p)))
  <$> presses.

(** The sends of the welcome message among the effects. *)
Definition welcomes (out : list effect) : nat :=
  length (List.filter
            (fun e => match e with UserSend _ PWelcome => true | _ => false end)
            out).

(** The presses of the user [uid] among [presses]. *)
Definition pressed (uid : Z) (presses : list press) : Z :=
  Z.of_nat (length (filter (fun p => m_id (pr_user p) = uid) presses)).

(** A coroutine none of whose blocks changes the number of tickets of
    [uid]. *)
Fixpoint keeps_count {A} (uid : Z) (t : task A) : Prop :=
  match t with
  | Return last =>
      ∀ s, ticket_count uid (active_tickets (store_after last s))
           = ticket_count uid (active_tickets s)
  | Await block k =>
      (∀ s, ticket_count uid (active_tickets (store_after block s))
            = ticket_count uid (active_tickets s))
      ∧ ∀ r, keeps_count uid (k r)
  end.

(** Where a coroutine of the pool stands with respect to the tickets of
    [uid]: whether it is a creation for [uid] that has not made its tests
    yet (the second number is one), or one that has passed them and has not
    inserted its ticket yet (the first number is one). *)
Inductive phase (cfg : config) (uid : Z) : thread string → Z → Z → Prop :=
| phase_ended r : phase cfg uid (Finished r) 0 0
| phase_keeps t : keeps_count uid t → phase cfg uid (Suspended t) 0 0
| phase_untested tr now user category_name message_content :
    m_id user = uid →
    phase cfg uid
      (Suspended
         (create_ticket_task cfg tr now user category_name message_content))
      0 1
| phase_channel tr now user category_name message_content :
    m_id user = uid →
    phase cfg uid
      (Suspended (create_ticket_channel tr now user category_name message_content))
      1 0
| phase_insert tr now user category_name message_content cid :
    m_id user = uid →
    phase cfg uid
      (Suspended
         (create_ticket_insert tr now user category_name message_content cid))
      1 0.

(** The two numbers, summed over the pool. *)
Inductive weighs (cfg : config) (uid : Z)
    : list (thread string) → Z → Z → Prop :=
| weighs_nil : weighs cfg uid [] 0 0
| weighs_cons th pool p0 a0 p a :
    phase cfg uid th p0 a0 → weighs cfg uid pool p a →
    weighs cfg uid (th :: pool) (p0 + p) (a0 + a).

(** What one block does to the number of tickets of [uid] and to the two
    numbers: nothing is tested and a ticket is inserted at most by a
    coroutine that had passed the tests; or a creation for [uid] makes its
    tests and ends; or it makes them and passes, the user being below the
    limit. *)
Definition moves (cfg : config) (uid : Z) (s s' : store) (p a p' a' : Z)
    : Prop :=
  let count (s : store) := ticket_count uid (active_tickets s) in
  (a' = a ∧ p' ≤ p ∧ count s' + p' ≤ count s + p)
  ∨ (a' = a - 1 ∧ p' = p ∧ count s' = count s)
  ∨ (a' = a - 1 ∧ p' = p + 1 ∧ count s' = count s
     ∧ count s < TICKET_LIMIT_PER_USER cfg).

(** ** Invariants of the stores and of the runs *)

(** [preserves I m]: running [m] from a store satisfying [I] leaves a store
    satisfying [I], whether [m] returns or raises. *)
Definition preserves (I : store → Prop) {A} (m : M A) : Prop :=
  ∀ s, I s → I (store_after m s).

(** Every owner entry of the active index holds at most the configured
    number of tickets. *)
Definition bounded (cfg : config) (a : odict Z (odict Z ticket)) : Prop :=
  Forall (fun entry => OD.len entry.2 ≤ TICKET_LIMIT_PER_USER cfg) a.

Definition within_limit (cfg : config) (s : store) : Prop :=
  bounded cfg (active_tickets s).

(** The channel ids of the active index, in iteration order. *)
Definition all_channels (a : odict Z (odict Z ticket)) : list Z :=
  flat_map (fun entry => OD.keys entry.2) a.

(** A channel id is the key of at most one ticket of the active index. *)
Definition unique_channels (a : odict Z (odict Z ticket)) : Prop :=
  NoDup (all_channels a).

(** The active index as Python dictionaries have it: an owner is the key of
    one entry, and a channel id is the key of one ticket. *)
Definition well_formed (a : odict Z (odict Z ticket)) : Prop :=
  NoDup (OD.keys a) ∧ unique_channels a.

(** A write to a ticket that leaves its closed flag as it is. *)
Definition keeps_flag (f : ticket → ticket) : Prop :=
  ∀ t, tk_closed (f t) = tk_closed t.

(** No ticket of the active index has its closed flag set. *)
Definition all_open (a : odict Z (odict Z ticket)) : Prop :=
  Forall (fun entry => Forall (fun kt => tk_closed kt.2 = false) entry.2) a.

(** A condition on every step of a run, stated on the store the step
    starts from. *)
Fixpoint guarded (cfg : config) (G : step → store → Prop) (steps : list step)
    (s : store) : Prop :=
  match steps with
  | [] => True
  | st :: rest => G st s ∧ guarded cfg G rest (store_after (handle cfg st) s)
  end.

(** The step is not a press of the Archive button. *)
Definition not_archive (st : step) (s : store) : Prop :=
  ∀ channel user, st_event st ≠ EvArchiveButton channel user.

(** The channel that the transport creates for a ticket is a new one: its
    id is not in the active index. *)
Definition fresh_channel (st : step) (s : store) : Prop :=
  ∀ user category_name request cid,
    st_event st = EvTicketButton user category_name request →
    tr_create_text_channel (st_transport st)
      (ticket_channel_name (st_now st) user category_name) = Ok cid →
    cid ∉ all_channels (active_tickets s).

(** A step of the rendering that only appends to what it is given. *)
Definition appends (F : string → string) : Prop := ∀ acc, F acc = acc +:+ F "".

(** The part of a transcript that follows the header: the rendering of the
    channel history alone. *)
Definition transcript_body (cfg : config) (messages : list message)
    : result string :=
  transcript_loop cfg messages "".

(** ** Conditions on a step *)

(** One of the transport steps that [create_ticket] makes after it has
    inserted the ticket raises. *)
Definition fails_after_insert (tr : transport) (uid cid : Z) : Prop :=
  match tr_channel_send tr cid with
  | Raise _ => True
  | Ok control_message =>
      match tr_pin tr control_message with
      | Raise _ => True
      | Ok _ =>
          match tr_user_send tr uid with
          | Raise _ => True
          | Ok _ => match tr_log_action tr with Raise _ => True | Ok _ => False end
          end
      end
  end.

(** The premises under which [create_ticket] gets as far as the insertion
    of the ticket under the channel [cid]. *)
Definition reaches_insert (cfg : config) (tr : transport) (now : time)
    (user : member) (category_name : string) (s : store) (cid : Z) : Prop :=
  limit_reached cfg (m_id user) s = false
  ∧ (m_id user ∉ blacklisted_users s)
  ∧ tr_get_category tr = Ok tt
  ∧ tr_create_text_channel tr (ticket_channel_name now user category_name) = Ok cid.

(** A close gets as far as its store update: the transcript is built and
    the closing notice is posted in the channel. *)
Definition close_goes_through (cfg : config) (tr : transport) (now : time)
    (channel : channel) (user : member) : Prop :=
  (∃ transcript, transcript_result cfg tr now channel user = Ok transcript)
  ∧ (∃ notice, tr_channel_send tr (ch_id channel) = Ok notice).

(** The effects by which a close shows: the closing notice, the closing
    message to the owner, the audit entry, the success reply and the
    deletion of the channel. *)
Definition close_side_effect (e : effect) : bool :=
  match e with
  | ChannelSend _ (PClosing _) => true
  | UserSend _ (PClosedDM _ _) => true
  | LogAction _ _ _ => true
  | ChannelDelete _ => true
  | Respond text => bool_decide (text = close_success_message)
  | _ => false
  end.

(** The three transport steps on which the closing of one idle ticket
    depends: the owner is fetched, the notice is posted and the transcript
    is built. *)
Definition reap_goes_through (cfg : config) (tr : transport) (now : time)
    (uid : Z) (t : ticket) : Prop :=
  ∃ user notice transcript,
    tr_fetch_user tr uid = Ok user
    ∧ tr_channel_send tr (ch_id (tk_channel t)) = Ok notice
    ∧ transcript_result cfg tr now (tk_channel t) user = Ok transcript.

(** The exception, if any, that the relay of a staff message to the owner
    meets: fetching the owner, sending, acknowledging. *)
Definition relay_error (tr : transport) (owner : Z) (message : message)
    : option string :=
  match tr_fetch_user tr owner with
  | Raise e => Some e
  | Ok user =>
      match tr_user_send tr (m_id user) with
      | Raise e => Some e
      | Ok _ =>
          match tr_add_reaction tr (msg_id message) CheckMark with
          | Raise e => Some e
          | Ok _ => None
          end
      end
  end.

(** The premises under which [on_message] takes a direct message to the
    routing over the author's tickets: a user, not a command, in a direct
    channel, not blacklisted. *)
Definition routed_direct_message (message : message) (s : store) : Prop :=
  m_bot (msg_author message) = false
  ∧ startswith (msg_content message) command_prefix = false
  ∧ msg_is_dm message = true
  ∧ (m_id (msg_author message) ∉ blacklisted_users s).

(** The effect is the ticket-selection prompt. *)
Definition is_select_prompt (e : effect) : bool :=
  match e with
  | ChannelSend _ (PSelectPrompt _) => true
  | _ => false
  end.

(** The message with another [reference]. *)
Definition with_reference (reference : option Z) (m : message) : message :=
  {| msg_id := msg_id m; msg_author := msg_author m;
     msg_content := msg_content m; msg_embeds := msg_embeds m;
     msg_attachments := msg_attachments m; msg_pinned := msg_pinned m;
     msg_created_at := msg_created_at m; msg_channel := msg_channel m;
     msg_is_dm := msg_is_dm m; msg_reference := reference |}.

(** ** The statements of the specification that the code does not meet *)

(** C1 as stated: however the coroutines of the presses of the ticket
    buttons run, no user holds more tickets than the limit. *)
Definition limit_never_exceeded (cfg : config) : Prop :=
  ∀ presses schedule uid,
    ticket_count uid
      (active_tickets (interleave schedule (creations cfg presses) empty_store).1.2)
    ≤ TICKET_LIMIT_PER_USER cfg.

(** C2 as stated: a failure after the insertion leaves the active index as
    it was before the attempt. *)
Definition create_ticket_rolls_back (cfg : config) : Prop :=
  ∀ tr now user category_name message_content s cid,
    reaches_insert cfg tr now user category_name s cid →
    fails_after_insert tr (m_id user) cid →
    active_tickets
      (store_after (create_ticket cfg tr now user category_name message_content) s)
    = active_tickets s.

(** C3 as stated: after a close that went through, the ticket cannot be
    found by its channel id, and a second close changes no store and shows
    none of the effects of a close. *)
Definition second_close_is_noop (cfg : config) : Prop :=
  ∀ tr1 now1 tr2 now2 closer channel user s t,
    unique_channels (active_tickets s) →
    lookup_ticket (m_id user) (ch_id channel) (active_tickets s) = Some t →
    close_goes_through cfg tr1 now1 channel user →
    let s1 :=
      store_after (actually_close_ticket cfg tr1 now1 closer channel user) s in
    let second := actually_close_ticket cfg tr2 now2 closer channel user in
    find_channel (ch_id channel) (active_tickets s1) = None
    ∧ store_after second s1 = s1
    ∧ Forall (fun e => close_side_effect e = false) (effects_of second s1).

(** C4 as stated: along every run, a ticket whose closed flag is set is no
    longer in the active index. *)
Definition closed_flag_means_removed (cfg : config) : Prop :=
  ∀ steps uid cid t,
    lookup_ticket uid cid (active_tickets (exec cfg steps empty_store)) = Some t →
    tk_closed t = false.

(** C5 as stated: the transcript of a channel history does not depend on
    when it is made. *)
Definition transcript_independent_of_clock (cfg : config) : Prop :=
  ∀ tr now1 now2 channel user,
    transcript_result cfg tr now1 channel user
    = transcript_result cfg tr now2 channel user.

(** C6 as stated: the sweep closes every ticket that is due. *)
Definition reaper_closes_every_due_ticket (cfg : config) : Prop :=
  ∀ tr now s uid cid t,
    well_formed (active_tickets s) →
    lookup_ticket uid cid (active_tickets s) = Some t →
    due cfg now t = true →
    let s' := store_after (auto_close_tickets cfg tr now) s in
    lookup_ticket uid cid (active_tickets s') = None
    ∧ closed_summary (tk_channel t) t now "auto-close"
      ∈ default [] (ticket_logs s' !! pretty uid).

(** C7 as stated, in what it says of the number of sends: two attempts for
    a user less than the cooldown apart send the welcome message at most
    once between them. *)
Definition one_welcome_within_cooldown (cfg : config) : Prop :=
  ∀ tr1 tr2 t1 t2 user schedule s,
    t1 ≤ t2 < t1 + WELCOME_MESSAGE_COOLDOWN cfg * usec_per_sec →
    (welcomes
       (interleave schedule
          [ Suspended (send_welcome_message_task cfg tr1 t1 user);
            Suspended (send_welcome_message_task cfg tr2 t2 user) ] s).2
     ≤ 1)%nat.

(** C8 as stated, for the forwarding of a user's message: when the send
    into the ticket channel raises, the attempted message is in the
    ticket's log all the same. *)
Definition forward_logs_attempted_sends (cfg : config) : Prop :=
  ∀ tr now message channel s owner t e,
    find_channel (ch_id channel) (active_tickets s) = Some owner →
    lookup_ticket owner (ch_id channel) (active_tickets s) = Some t →
    tr_channel_send tr (ch_id channel) = Raise e →
    ∃ t' entry,
      lookup_ticket owner (ch_id channel)
        (active_tickets
           (store_after (forward_to_channel cfg tr now message channel) s))
      = Some t'
      ∧ tk_messages t' = tk_messages t ++ [entry]
      ∧ le_content entry = msg_content message.

(** ** The writes of the handlers to a ticket, and further invariants *)

(** The writes that the handlers make to the fields of a ticket object. *)
Inductive field_write : (ticket → ticket) → Prop :=
| fw_closed : field_write (set_closed true)
| fw_category c : field_write (set_category c)
| fw_last_activity n : field_write (set_last_activity n)
| fw_message e : field_write (append_message e)
| fw_staff_typing b : field_write (set_staff_typing b)
| fw_user_typing b : field_write (set_user_typing b)
| fw_compose f g :
    field_write f → field_write g → field_write (fun t => f (g t)).

(** The step is not a reload of the data file. *)
Definition not_reload (st : step) (s : store) : Prop :=
  ∀ file, st_event st ≠ EvReady file.

(** No owner of the active index is left with an empty dictionary. *)
Definition no_empty_owner (a : odict Z (odict Z ticket)) : Prop :=
  Forall (fun entry => entry.2 ≠ []) a.

(** Every ticket is stored under the id of its own channel. *)
Definition keyed_by_channel (a : odict Z (odict Z ticket)) : Prop :=
  Forall (fun entry => Forall (fun kt => ch_id (tk_channel kt.2) = kt.1) entry.2) a.

(** The closed-ticket log [logs'] extends [logs]: under every key, the
    records of [logs] come first and in the same order. *)
Definition extends_log (logs logs' : gmap string (list closed_record)) : Prop :=
  ∀ key, default [] (logs !! key) `prefix_of` default [] (logs' !! key).

(** ** The data file: [save_data] and [load_data] in full

    [json.load] gives the content of [modmail_data.json] as [load_data]
    reads it: an object whose three fields, when present, have the shape
    that [save_data] writes (the keys of a JSON object are strings).
    [int] is Python's conversion of such a key; of it, only its answers
    are used. *)

Module Persistence.

Record data_file : Type := {
  df_blacklisted_users : option (list Z);
  df_ticket_logs : option (gmap string (list closed_record));
  df_user_welcome_timestamps : option (list (string * time))
}.

(** The file as [load_data] finds it: absent, not readable as JSON (the
    exception of [open] or [json.load]), or holding an object. *)
Inductive disk : Type :=
| NoFile
| Unreadable (e : string)
| Json (data : data_file).

(** The object that [save_data] dumps. *)
Definition save_data (s : store) : data_file :=
  {| df_blacklisted_users := Some (elements (blacklisted_users s));
     df_ticket_logs := Some (ticket_logs s);
     df_user_welcome_timestamps :=
       Some ((fun '(user_id, timestamp) => (pretty user_id, timestamp))
               <$> map_to_list (user_welcome_timestamps s)) |}.

Section load.
Context (int : string → result Z).

(** [{int(user_id): timestamp for user_id, timestamp in items}] *)
Fixpoint int_keys (items : list (string * time)) (table : gmap Z time)
    : result (gmap Z time) :=
  match items with
  | [] => Ok table
  | (user_id, timestamp) :: rest =>
      match int user_id with
      | Ok uid => int_keys rest (<[uid := timestamp]> table)
      | Raise e => Raise e
      end
  end.

(** The three assignments are made one after the other inside one [try]. *)
Definition load_data (file : disk) : M unit :=
  try_except
    (match file with
     | NoFile => mret tt
     | Unreadable e => call (Raise e)
     | Json data =>
         modify_store
           (set_blacklist
              (fun _ => list_to_set (default [] (df_blacklisted_users data))));;
         modify_store (set_logs (fun _ => default ∅ (df_ticket_logs data)));;
         table ←
           call (int_keys (default [] (df_user_welcome_timestamps data)) ∅);
         modify_store (set_welcome (fun _ => table))
     end)
    (fun e => emit (LoggerError ("Error loading data: " +:+ e))).
End load.

End Persistence.

(** The stores after a restart of the process that finds the data file
    of [s]: the three persisted stores of [s], and nothing else. *)
Definition restarted (s : store) : store :=
  {| active_tickets := [];
     blacklisted_users := blacklisted_users s;
     ticket_logs := ticket_logs s;
     user_welcome_timestamps := user_welcome_timestamps s;
     ticket_attachments := ∅ |}.

(** ** The channel name that the transfer of a ticket asks for *)

(** [s.split(sep)[-1]]: what follows the last [sep] in [s], and [s] itself
    when there is none; [segment] is the part read since the last [sep]. *)
Fixpoint last_segment_from (sep : Ascii.ascii) (s segment : string) : string :=
  match s with
  | EmptyString => segment
  | String c s' =>
      if decide (c = sep) then last_segment_from sep s' ""
      else last_segment_from sep s' (segment +:+ String c "")
  end.

Definition last_segment (sep : Ascii.ascii) (s : string) : string :=
  last_segment_from sep s "".

(** [new_channel_name] of [DepartmentSelect.callback]. *)
Definition new_channel_name (channel : channel) (user : member)
    (new_category : string) : string :=
  let timestamp := last_segment (Ascii.ascii_of_nat 45) (ch_name channel) in
  clean_username (m_name user) +:+ "-" +:+ lower new_category
    +:+ "-" +:+ timestamp.

(** The hour and minute of a clock reading, as [strftime('%H%M')] prints
    them. *)
Definition strftime_hour_minute (t : time) : string :=
  let sod := epoch_seconds t mod 86400 in
  pad2 (sod / 3600) +:+ pad2 (sod / 60 mod 60).

(** The characters of a string. *)
Fixpoint chars (s : string) : list Ascii.ascii :=
  match s with
  | EmptyString => []
  | String c s' => c :: chars s'
  end.

(** ** Conditions on a message *)

(** The options of the selection prompt, one for each ticket that is not
    flagged closed, in iteration order. *)
Definition open_options (user_tickets : odict Z ticket)
    : list (string * time * Z) :=
  (fun kt => (tk_category kt.2, tk_created_at kt.2, kt.1))
    <$> filter (fun kt => tk_closed kt.2 = false)
          (user_tickets : list (Z * ticket)).

(** The relay of a staff message on a transport that answers. *)
Definition relayed (cfg : config) (message : message) (user : member)
    : list effect :=
  [ UserSend (m_id user)
      (PRelay (if ANONYMOUS_REPLIES cfg then "Staff"
               else m_name (msg_author message))
         (msg_content message) (attachment_urls message));
    AddReaction (msg_id message) CheckMark ].

(** ** The layout of a transcript *)

(** The test by which [create_transcript] skips the pinned control
    message. *)
Definition is_control_message (m : message) : bool :=
  m_bot (msg_author m) && bool_decide (0 < length (msg_embeds m))%nat
  && msg_pinned m.

(** The lines that a message of a guild member adds to a transcript. *)
Definition entry_of (cfg : config) (m : message) : string :=
  transcript_entry cfg (default [] (m_roles (msg_author m))) "" m.

Definition join (parts : list string) : string := foldr String.app "" parts.

(** The messages of a history that are written to the transcript. *)
Definition transcribed (messages : list message) : list message :=
  filter (fun m => is_control_message m = false) messages.

(** ** [!ticket stats]: the figures of the statistics embed *)

(** [sum(len(tickets) for tickets in active_tickets.values())] *)
Definition active_count (s : store) : Z :=
  foldr (fun entry total => OD.len entry.2 + total) 0
    (active_tickets s : list (Z * odict Z ticket)).

(** [len(active_tickets)] *)
Definition total_users (s : store) : Z := OD.len (active_tickets s).

(** [len(blacklisted_users)] *)
Definition blacklist_count (s : store) : Z :=
  Z.of_nat (size (blacklisted_users s)).

(** [len(active_tickets.get(user.id, {}))] *)
Definition user_active (user : member) (s : store) : Z :=
  OD.len (default [] (OD.get (m_id user) (active_tickets s))).

(** [len(ticket_logs.get(str(user.id), []))] *)
Definition user_total (user : member) (s : store) : Z :=
  Z.of_nat (length (default [] (ticket_logs s !! pretty (m_id user)))).

(** The fields of the embed, name and value. *)
Definition stats_fields (s : store) (mentions : list member)
    : list (string * string) :=
  [ ("Active Tickets", pretty (active_count s));
    ("Users with Tickets", pretty (total_users s));
    ("Blacklisted Users", pretty (blacklist_count s)) ]
  ++ match mentions with
     | [] => []
     | user :: _ =>
         [ (m_name user +:+ "'s Stats",
            "Active: " +:+ pretty (user_active user s) +:+ nl
              +:+ "Total: " +:+ pretty (user_total user s)) ]
     end.

(** ** Reactions: the quick reply and the internal note

    [on_reaction_add] looks the ticket of the channel up and, for the reply
    arrow and the memo, builds a modal and calls [user.send_modal] on the
    reacting user.  Neither [discord.User] nor [discord.Member] has such a
    method (a modal is sent as the response to an interaction), so the
    call is an [AttributeError]. *)

Module Reactions.

(** The class of the reacting user: a member of the guild, or a plain
    user. *)
Definition class_name (user : member) : string :=
  match m_roles user with
  | Some _ => "Member"
  | None => "User"
  end.

(** [user.send_modal(...)] *)
Definition send_modal (user : member) : M unit :=
  call (Raise ("'" +:+ class_name user
                 +:+ "' object has no attribute 'send_modal'")).

(** [reaction] is [None] for an emoji that is none of the three that the
    bot adds. *)
Definition on_reaction_add (is_dm : bool) (channel_id : Z)
    (reaction : option emoji) (user : member) : M unit :=
  if m_bot user then mret tt
  else if is_dm then mret tt
  else
    s ← get_store;
    let found := find_open_ticket channel_id (active_tickets s) None in
    if truthy_owner found then
      match reaction with
      | Some ReplyArrow => send_modal user
      | Some Memo => send_modal user
      | _ => mret tt
      end
    else mret tt.

End Reactions.

(** ** Sample data *)

Definition alice : member :=
  {| m_id := 1001; m_name := "alice"; m_bot := false; m_roles := None |}.

Definition bob : member :=
  {| m_id := 2002; m_name := "bob"; m_bot := false;
     m_roles := Some ["Moderator"] |}.

Definition sample_time : time := 1700000000000000.

Definition a_second_later : time := sample_time + usec_per_sec.

(** Two days and an hour after [sample_time]. *)
Definition two_days_later : time := sample_time + 49 * 3600 * usec_per_sec.

(** A transport on which every call returns. *)
Definition tr_ok : transport :=
  {| tr_get_category := Ok tt;
     tr_create_text_channel := fun _ => Ok 5000;
     tr_channel_send := fun _ => Ok 9000;
     tr_pin := fun _ => Ok tt;
     tr_user_send := fun _ => Ok 9001;
     tr_fetch_user := fun uid =>
       Ok {| m_id := uid; m_name := "alice"; m_bot := false; m_roles := None |};
     tr_history := fun _ => Ok [];
     tr_add_reaction := fun _ _ => Ok tt;
     tr_channel_edit := fun _ => Ok tt;
     tr_channel_delete := fun _ => Ok tt;
     tr_typing := fun _ => Ok tt;
     tr_log_action := Ok tt |}.

(** A transport on which the user cannot be sent direct messages. *)
Definition tr_dm_closed : transport :=
  {| tr_get_category := tr_get_category tr_ok;
     tr_create_text_channel := tr_create_text_channel tr_ok;
     tr_channel_send := tr_channel_send tr_ok;
     tr_pin := tr_pin tr_ok;
     tr_user_send := fun _ => Raise "Cannot send messages to this user";
     tr_fetch_user := tr_fetch_user tr_ok;
     tr_history := tr_history tr_ok;
     tr_add_reaction := tr_add_reaction tr_ok;
     tr_channel_edit := tr_channel_edit tr_ok;
     tr_channel_delete := tr_channel_delete tr_ok;
     tr_typing := tr_typing tr_ok;
     tr_log_action := tr_log_action tr_ok |}.

(** A transport on which the ticket channel is gone (it was deleted by
    hand): sending into it raises. *)
Definition tr_channel_gone : transport :=
  {| tr_get_category := tr_get_category tr_ok;
     tr_create_text_channel := tr_create_text_channel tr_ok;
     tr_channel_send := fun _ => Raise "404 Not Found (error code: 10003): Unknown Channel";
     tr_pin := tr_pin tr_ok;
     tr_user_send := tr_user_send tr_ok;
     tr_fetch_user := tr_fetch_user tr_ok;
     tr_history := tr_history tr_ok;
     tr_add_reaction := tr_add_reaction tr_ok;
     tr_channel_edit := tr_channel_edit tr_ok;
     tr_channel_delete := tr_channel_delete tr_ok;
     tr_typing := tr_typing tr_ok;
     tr_log_action := tr_log_action tr_ok |}.

(** A transport that creates the channel 5001. *)
Definition tr_second_channel : transport :=
  {| tr_get_category := tr_get_category tr_ok;
     tr_create_text_channel := fun _ => Ok 5001;
     tr_channel_send := tr_channel_send tr_ok;
     tr_pin := tr_pin tr_ok;
     tr_user_send := tr_user_send tr_ok;
     tr_fetch_user := tr_fetch_user tr_ok;
     tr_history := tr_history tr_ok;
     tr_add_reaction := tr_add_reaction tr_ok;
     tr_channel_edit := tr_channel_edit tr_ok;
     tr_channel_delete := tr_channel_delete tr_ok;
     tr_typing := tr_typing tr_ok;
     tr_log_action := tr_log_action tr_ok |}.

Definition sample_channel : channel :=
  {| ch_id := 5000; ch_name := ticket_channel_name sample_time alice "Support" |}.

(** Alice presses the Support button twice. *)
Definition two_presses : list step :=
  [ {| st_event := EvTicketButton alice "Support" "Support ticket requested";
       st_now := sample_time; st_transport := tr_ok |};
    {| st_event := EvTicketButton alice "Support" "Support ticket requested";
       st_now := sample_time + 1; st_transport := tr_ok |} ].

(** Alice has one open Support ticket. *)
Definition one_open_ticket : store :=
  exec CONFIG
    [ {| st_event := EvTicketButton alice "Support" "Support ticket requested";
         st_now := sample_time; st_transport := tr_ok |} ]
    empty_store.

(** Alice opens a ticket and is then blacklisted from its controls. *)
Definition opened_then_blacklisted : store :=
  exec CONFIG
    [ {| st_event := EvTicketButton alice "Support" "Support ticket requested";
         st_now := sample_time; st_transport := tr_ok |};
      {| st_event := EvBlacklistButton bob alice;
         st_now := sample_time + 1; st_transport := tr_ok |} ]
    empty_store.

(** Alice opens a ticket and staff archives it. *)
Definition opened_then_archived : list step :=
  [ {| st_event := EvTicketButton alice "Support" "Support ticket requested";
       st_now := sample_time; st_transport := tr_ok |};
    {| st_event := EvArchiveButton sample_channel alice;
       st_now := sample_time + 1; st_transport := tr_ok |} ].

(** The configuration with a limit of two tickets per user. *)
Definition CONFIG_two : config :=
  {| STAFF_ROLES := STAFF_ROLES CONFIG;
     TICKET_CATEGORY := TICKET_CATEGORY CONFIG;
     LOG_CHANNEL := LOG_CHANNEL CONFIG;
     TICKET_CLOSE_CONFIRMATION := TICKET_CLOSE_CONFIRMATION CONFIG;
     ANONYMOUS_REPLIES := ANONYMOUS_REPLIES CONFIG;
     AUTO_CLOSE_TIME := AUTO_CLOSE_TIME CONFIG;
     TICKET_LIMIT_PER_USER := 2;
     WELCOME_MESSAGE_COOLDOWN := WELCOME_MESSAGE_COOLDOWN CONFIG |}.

Definition billing_channel : channel :=
  {| ch_id := 5001;
     ch_name := ticket_channel_name (sample_time + 1) alice "Billing" |}.

(** Under that limit Alice opens a Support and a Billing ticket, and staff
    archives the first. *)
Definition two_tickets_first_archived : store :=
  exec CONFIG_two
    [ {| st_event := EvTicketButton alice "Support" "Support ticket requested";
         st_now := sample_time; st_transport := tr_ok |};
      {| st_event := EvTicketButton alice "Billing" "Billing ticket requested";
         st_now := sample_time + 1; st_transport := tr_second_channel |};
      {| st_event := EvArchiveButton sample_channel alice;
         st_now := sample_time + 2; st_transport := tr_ok |} ]
    empty_store.

(** A direct message of Alice, and a message of Bob in her ticket channel. *)
Definition alice_says_hello : message :=
  {| msg_id := 7001; msg_author := alice; msg_content := "hello";
     msg_embeds := []; msg_attachments := []; msg_pinned := false;
     msg_created_at := sample_time + 5; msg_channel := 6001;
     msg_is_dm := true; msg_reference := None |}.

Definition bob_replies : message :=
  {| msg_id := 7002; msg_author := bob; msg_content := "how can we help?";
     msg_embeds := []; msg_attachments := []; msg_pinned := false;
     msg_created_at := sample_time + 9; msg_channel := 5000;
     msg_is_dm := false; msg_reference := None |}.

Definition alice_replies : message :=
  with_reference (Some 9000) alice_says_hello.

(** A reader of decimal notation, as an instance of [int]. *)
Definition digit_value (c : Ascii.ascii) : option N :=
  let n := Ascii.nat_of_ascii c in
  if ((48 <=? n) && (n <=? 57))%nat then Some (N.of_nat (n - 48)) else None.

Fixpoint read_digits (s : string) (acc : N) : option N :=
  match s with
  | EmptyString => Some acc
  | String c s' =>
      match digit_value c with
      | Some d => read_digits s' (10 * acc + d)%N
      | None => None
      end
  end.

Definition invalid_literal (s : string) : string :=
  "invalid literal for int() with base 10: '" +:+ s +:+ "'".

Definition decimal (s : string) : result Z :=
  match s with
  | EmptyString => Raise (invalid_literal s)
  | String c s' =>
      if decide (c = Ascii.ascii_of_nat 45) then
        match s', read_digits s' 0 with
        | String _ _, Some n => Ok (- Z.of_N n)
        | _, _ => Raise (invalid_literal s)
        end
      else
        match read_digits s 0 with
        | Some n => Ok (Z.of_N n)
        | None => Raise (invalid_literal s)
        end
  end.

(** A data file in which a key of the welcome table is not a number. *)
Definition edited_file : Persistence.data_file :=
  {| Persistence.df_blacklisted_users := Some [1001];
     Persistence.df_ticket_logs := Some ∅;
     Persistence.df_user_welcome_timestamps :=
       Some [("2002", sample_time); ("alice", sample_time)] |}.

(** A day after [sample_time]. *)
Definition a_day_later : time := sample_time + 24 * 3600 * usec_per_sec.

(** A transport on which the history of the ticket channel holds a message
    of a staff member who has left the guild since: the author is a plain
    user, without roles. *)
Definition tr_author_left : transport :=
  {| tr_get_category := tr_get_category tr_ok;
     tr_create_text_channel := tr_create_text_channel tr_ok;
     tr_channel_send := tr_channel_send tr_ok;
     tr_pin := tr_pin tr_ok;
     tr_user_send := tr_user_send tr_ok;
     tr_fetch_user := tr_fetch_user tr_ok;
     tr_history := fun _ =>
       Ok [ {| msg_id := 7002;
               msg_author :=
                 {| m_id := 2002; m_name := "bob"; m_bot := false;
                    m_roles := None |};
               msg_content := "how can we help?";
               msg_embeds := []; msg_attachments := []; msg_pinned := false;
               msg_created_at := sample_time + 9; msg_channel := 5000;
               msg_is_dm := false; msg_reference := None |} ];
     tr_add_reaction := tr_add_reaction tr_ok;
     tr_channel_edit := tr_channel_edit tr_ok;
     tr_channel_delete := tr_channel_delete tr_ok;
     tr_typing := tr_typing tr_ok;
     tr_log_action := tr_log_action tr_ok |}.

(** Alice presses the Support button twice, 50 ms apart: the second press
    is handled while the first waits for its channel. *)
Definition overlapping_presses : list press :=
  [ {| pr_user := alice; pr_category := "Support";
       pr_request := "Support ticket requested"; pr_now := sample_time;
       pr_transport := tr_ok |};
    {| pr_user := alice; pr_category := "Support";
       pr_request := "Support ticket requested";
       pr_now := sample_time + 50000; pr_transport := tr_second_channel |} ].

(** Both coroutines run up to the request for their channel, then each
    runs to its end. *)
Definition both_tested_first : list nat :=
  [0; 0; 1; 1; 0; 0; 0; 0; 0; 1; 1; 1; 1; 1]%nat.

(** A transport on which the bot may not delete the ticket channel. *)
Definition tr_delete_forbidden : transport :=
  {| tr_get_category := tr_get_category tr_ok;
     tr_create_text_channel := tr_create_text_channel tr_ok;
     tr_channel_send := tr_channel_send tr_ok;
     tr_pin := tr_pin tr_ok;
     tr_user_send := tr_user_send tr_ok;
     tr_fetch_user := tr_fetch_user tr_ok;
     tr_history := tr_history tr_ok;
     tr_add_reaction := tr_add_reaction tr_ok;
     tr_channel_edit := tr_channel_edit tr_ok;
     tr_channel_delete := fun _ =>
       Raise "403 Forbidden (error code: 50013): Missing Permissions";
     tr_typing := tr_typing tr_ok;
     tr_log_action := tr_log_action tr_ok |}.

(** * Properties *)

(** ** Sample evaluations *)

Example strftime_sample :
  strftime 1700000000123456 = "2023-11-14 22:13:20"
  /\ strftime_compact 1700000000123456 = "20231114-2213"
  /\ strftime 951782400000000 = "2000-02-29 00:00:00".
Proof. repeat split; reflexivity. Qed.

Example clean_username_sample :
  clean_username "J. R. 'Bob' Dobbs-42!" = "JRBobDobbs"
  /\ lower "Support" = "support"
  /\ startswith "!ticket stats" "!" = true
  /\ startswith "hello" "!" = false.
Proof. repeat split; reflexivity. Qed.


(** ** Ordered dictionaries *)

Module ODFacts.
Section facts.
Context {K : Type} `{EqDecision K} {V : Type}.
Implicit Types (d : odict K V) (k : K) (v : V).

Lemma get_set_eq k v d : OD.get k (OD.set k v d) = Some v.
Proof.
  induction d as [|[k' v'] d IH]; simpl.
  - by rewrite decide_True.
  - destruct (decide (k = k')) as [->|Hne]; simpl.
    + by rewrite decide_True.
    + by rewrite decide_False.
Qed.

Lemma get_set_ne k k' v d : k ≠ k' → OD.get k' (OD.set k v d) = OD.get k' d.
Proof.
  intros Hne. induction d as [|[k0 v0] d IH]; simpl.
  - by rewrite decide_False.
  - destruct (decide (k = k0)) as [->|Hne0]; simpl.
    + by rewrite !decide_False.
    + destruct (decide (k' = k0)); [done | apply IH].
Qed.

Lemma get_del_ne k k' d : k ≠ k' → OD.get k' (OD.del k d) = OD.get k' d.
Proof.
  intros Hne. induction d as [|[k0 v0] d IH]; simpl; [done|].
  destruct (decide (k = k0)) as [->|Hne0]; simpl.
  - by rewrite decide_False.
  - destruct (decide (k' = k0)); [done | apply IH].
Qed.

Lemma get_None_keys k d : OD.get k d = None ↔ k ∉ OD.keys d.
Proof.
  unfold OD.keys. induction d as [|[k0 v0] d IH]; simpl.
  - split; [intros _; apply not_elem_of_nil | done].
  - rewrite not_elem_of_cons. destruct (decide (k = k0)) as [->|Hne].
    + split; [done | intros [? _]; done].
    + rewrite IH. tauto.
Qed.

Lemma get_Some_elem k v d : OD.get k d = Some v → (k, v) ∈ d.
Proof.
  induction d as [|[k0 v0] d IH]; simpl; [done|].
  destruct (decide (k = k0)) as [->|Hne].
  - intros [= ->]. apply list_elem_of_here.
  - intros Hget. apply list_elem_of_further, IH, Hget.
Qed.

Lemma elem_get k v d : NoDup (OD.keys d) → (k, v) ∈ d → OD.get k d = Some v.
Proof.
  unfold OD.keys. induction d as [|[k0 v0] d IH]; simpl.
  - intros _ Hin. by apply elem_of_nil in Hin.
  - rewrite NoDup_cons. intros [Hnotin Hnd] Hin.
    apply elem_of_cons in Hin as [[= -> ->]|Hin].
    + by rewrite decide_True.
    + rewrite decide_False; [by apply IH|].
      intros ->. apply Hnotin. apply list_elem_of_fmap. by exists (k0, v).
Qed.

Lemma keys_del_subseteq k d : OD.keys (OD.del k d) ⊆ OD.keys d.
Proof.
  unfold OD.keys. induction d as [|[k0 v0] d IH]; simpl; [done|].
  destruct (decide (k = k0)); simpl.
  - intros x Hx. by apply list_elem_of_further.
  - intros x. rewrite !elem_of_cons. intros [->|Hx]; [by left|right; by apply IH].
Qed.

Lemma NoDup_keys_del k d : NoDup (OD.keys d) → NoDup (OD.keys (OD.del k d)).
Proof.
  unfold OD.keys. induction d as [|[k0 v0] d IH]; simpl; [done|].
  rewrite NoDup_cons. intros [Hnotin Hnd].
  destruct (decide (k = k0)); simpl; [done|].
  apply NoDup_cons. split; [|by apply IH].
  intros Hin. apply Hnotin. by apply (keys_del_subseteq k d).
Qed.

Lemma get_del_eq k d : NoDup (OD.keys d) → OD.get k (OD.del k d) = None.
Proof.
  unfold OD.keys. induction d as [|[k0 v0] d IH]; simpl; [done|].
  rewrite NoDup_cons. intros [Hnotin Hnd].
  destruct (decide (k = k0)) as [->|Hne]; simpl.
  - by apply get_None_keys.
  - rewrite decide_False; [by apply IH | done].
Qed.

Lemma keys_set k v d :
  OD.keys (OD.set k v d)
  = if OD.mem k d then OD.keys d else OD.keys d ++ [k].
Proof.
  unfold OD.keys, OD.mem. induction d as [|[k0 v0] d IH]; csimpl; [done|].
  destruct (decide (k = k0)) as [->|Hne]; csimpl; [done|].
  rewrite IH. by destruct (OD.get k d).
Qed.

Lemma NoDup_keys_set k v d : NoDup (OD.keys d) → NoDup (OD.keys (OD.set k v d)).
Proof.
  intros Hnd. rewrite keys_set. unfold OD.mem.
  destruct (OD.get k d) eqn:Hget; [done|].
  apply NoDup_app. split_and!; [done| |apply NoDup_singleton].
  intros x Hx Hx'. apply list_elem_of_singleton in Hx' as ->.
  by apply get_None_keys in Hget.
Qed.

Lemma length_set_present k v v' d :
  OD.get k d = Some v' → length (OD.set k v d) = length d.
Proof.
  induction d as [|[k0 v0] d IH]; simpl; [done|].
  destruct (decide (k = k0)); simpl; [done|]. intros Hget. by rewrite IH.
Qed.

Lemma length_set_le k v d : (length (OD.set k v d) ≤ S (length d))%nat.
Proof.
  induction d as [|[k0 v0] d IH]; simpl; [lia|].
  destruct (decide (k = k0)); simpl; lia.
Qed.

Lemma length_del_le k d : (length (OD.del k d) ≤ length d)%nat.
Proof.
  induction d as [|[k0 v0] d IH]; simpl; [lia|].
  destruct (decide (k = k0)); simpl; lia.
Qed.

Lemma Forall_set (P : K * V → Prop) k v d :
  Forall P d → P (k, v) → Forall P (OD.set k v d).
Proof.
  intros Hd Hkv. induction Hd as [|[k0 v0] d Hx Hd IH]; simpl.
  - by constructor.
  - destruct (decide (k = k0)); by constructor.
Qed.

Lemma Forall_del (P : K * V → Prop) k d : Forall P d → Forall P (OD.del k d).
Proof.
  intros Hd. induction Hd as [|[k0 v0] d Hx Hd IH]; simpl; [done|].
  destruct (decide (k = k0)); [done | by constructor].
Qed.

Lemma Forall_get (P : K * V → Prop) k v d :
  Forall P d → OD.get k d = Some v → P (k, v).
Proof.
  intros Hd Hget. apply get_Some_elem in Hget.
  by apply (proj1 (Forall_forall P d) Hd).
Qed.
End facts.
End ODFacts.

(** ** Store invariants carried through handlers *)

Section preserves.
Context (I : store → Prop).

Lemma preserves_ret {A} (a : A) : preserves I (mret a).
Proof. intros s Hs. exact Hs. Qed.

Lemma preserves_call {A} (r : result A) : preserves I (call r).
Proof. intros s Hs. exact Hs. Qed.

Lemma preserves_emit e : preserves I (emit e).
Proof. intros s Hs. exact Hs. Qed.

Lemma preserves_get : preserves I get_store.
Proof. intros s Hs. exact Hs. Qed.

Lemma preserves_modify f : (∀ s, I s → I (f s)) → preserves I (modify_store f).
Proof. intros Hf s Hs. apply Hf, Hs. Qed.

Lemma preserves_bind {A B} (m : M A) (k : A → M B) :
  preserves I m → (∀ a, preserves I (k a)) → preserves I (m ≫= k).
Proof.
  intros Hm Hk s Hs. specialize (Hm s Hs).
  unfold store_after, mbind, M_bind, bind in *.
  destruct (m s) as [[[a|e] s'] out]; simpl in *; [|done].
  specialize (Hk a s' Hm). unfold store_after in Hk.
  by destruct (k a s') as [[r s''] out'].
Qed.

Lemma preserves_try {A} (body : M A) (handler : string → M A) :
  preserves I body → (∀ e, preserves I (handler e)) →
  preserves I (try_except body handler).
Proof.
  intros Hm Hk s Hs. specialize (Hm s Hs).
  unfold store_after, try_except in *.
  destruct (body s) as [[[a|e] s'] out]; simpl in *; [done|].
  specialize (Hk e s' Hm). unfold store_after in Hk.
  by destruct (handler e s') as [[r s''] out'].
Qed.

Lemma preserves_try_after {A} (body : M A) (handler : list effect → string → M A) :
  preserves I body → (∀ sent e, preserves I (handler sent e)) →
  preserves I (try_except_after body handler).
Proof.
  intros Hm Hk s Hs. specialize (Hm s Hs).
  unfold store_after, try_except_after in *.
  destruct (body s) as [[[a|e] s'] out]; simpl in *; [done|].
  specialize (Hk out e s' Hm). unfold store_after in Hk.
  by destruct (handler out e s') as [[r s''] out'].
Qed.

Lemma preserves_response sent text : preserves I (response_send_message sent text).
Proof. intros s Hs. unfold response_send_message. by destruct (existsb _ _). Qed.

Lemma preserves_for_each {A} (f : A → M unit) (l : list A) :
  (∀ x, preserves I (f x)) → preserves I (for_each f l).
Proof.
  intros Hf. induction l as [|x l IH]; simpl.
  - apply (preserves_ret tt).
  - apply preserves_bind; [apply Hf | intros _; apply IH].
Qed.
End preserves.

(** Structural decomposition of a handler into its store writes. *)
Ltac preserves_step :=
  lazymatch goal with
  | |- preserves _ (mret _) => apply preserves_ret
  | |- preserves _ (call _) => apply preserves_call
  | |- preserves _ (emit _) => apply preserves_emit
  | |- preserves _ get_store => apply preserves_get
  | |- preserves _ (modify_store _) => apply preserves_modify; intros ? ?
  | |- preserves _ (_ ≫= _) => apply preserves_bind; [|intros ?]
  | |- preserves _ (try_except _ _) => apply preserves_try; [|intros ?]
  | |- preserves _ (try_except_after _ _) =>
      apply preserves_try_after; [|intros ? ?]
  | |- preserves _ (response_send_message _ _) => apply preserves_response
  | |- preserves _ (for_each _ _) => apply preserves_for_each; intros ?
  | |- preserves _ (match ?x with _ => _ end) => destruct x
  | |- preserves _ (let _ := _ in _) => cbv zeta
  end.

(** ** The per-user ticket limit *)

Section limit.
Context (cfg : config).

Lemma bounded_count a uid :
  0 ≤ TICKET_LIMIT_PER_USER cfg → bounded cfg a →
  ticket_count uid a ≤ TICKET_LIMIT_PER_USER cfg.
Proof.
  intros Hpos Hb. unfold ticket_count.
  destruct (OD.get uid a) as [d|] eqn:Hget; [|done].
  apply (ODFacts.Forall_get _ _ _ _ Hb Hget).
Qed.

Lemma bounded_update_ticket uid cid f a :
  bounded cfg a → bounded cfg (update_ticket uid cid f a).
Proof.
  intros Hb. unfold update_ticket.
  destruct (OD.get uid a) as [d|] eqn:Hd; [|done].
  destruct (OD.get cid d) as [t|] eqn:Ht; [|done].
  apply ODFacts.Forall_set; [done|]. simpl. unfold OD.len.
  rewrite (ODFacts.length_set_present _ _ _ _ Ht).
  apply (ODFacts.Forall_get _ _ _ _ Hb Hd).
Qed.

Lemma bounded_remove_ticket uid cid a :
  bounded cfg a → bounded cfg (remove_ticket uid cid a).
Proof.
  intros Hb. unfold remove_ticket.
  destruct (OD.get uid a) as [d|] eqn:Hd; [|done].
  pose proof (ODFacts.Forall_get _ _ _ _ Hb Hd) as Hlen.
  pose proof (ODFacts.length_del_le cid d) as Hdel.
  destruct (OD.del cid d) as [|e d'] eqn:Hdd.
  - by apply ODFacts.Forall_del.
  - apply ODFacts.Forall_set; [done|]. simpl in *. unfold OD.len in *.
    simpl. lia.
Qed.

Lemma bounded_insert_ticket uid cid t a :
  1 ≤ TICKET_LIMIT_PER_USER cfg → bounded cfg a →
  ticket_count uid a < TICKET_LIMIT_PER_USER cfg →
  bounded cfg (insert_ticket uid cid t a).
Proof.
  intros Hpos Hb Hlt. unfold insert_ticket, ticket_count in *.
  destruct (OD.get uid a) as [d|] eqn:Hd.
  - apply ODFacts.Forall_set; [done|]. simpl. unfold OD.len in *.
    pose proof (ODFacts.length_set_le cid t d). lia.
  - apply ODFacts.Forall_set; [done|]. simpl. unfold OD.len. simpl. lia.
Qed.

(** The guard of [create_ticket] is the comparison of the owner's count
    with the limit, as soon as the limit is at least one. *)
Lemma limit_reached_spec uid s :
  1 ≤ TICKET_LIMIT_PER_USER cfg →
  limit_reached cfg uid s = true
  ↔ TICKET_LIMIT_PER_USER cfg ≤ ticket_count uid (active_tickets s).
Proof.
  intros Hpos. unfold limit_reached, ticket_count.
  destruct (OD.get uid (active_tickets s)) as [d|].
  - apply Z.leb_le.
  - split; [done | lia].
Qed.
End limit.

(** Symbolic execution of a handler: unfold the monad and split on the
    answers of the transport. *)
Ltac unfold_monad :=
  unfold store_after, outcome_of, effects_of, channel_send, user_send,
    add_reaction, log_action, roles_of, mbind, mret, M_bind, M_ret, bind, ret,
    try_except, try_except_after, response_send_message, call, emit,
    get_store, modify_store in *.

Ltac split_result :=
  match goal with
  | |- context [match ?r with Ok _ => _ | Raise _ => _ end] =>
      let E := fresh "Hcall" in destruct r eqn:E; simpl
  end.

Section limit_preserved.
Context (cfg : config) (Hpos : 1 ≤ TICKET_LIMIT_PER_USER cfg).

Lemma create_ticket_within_limit tr now user category_name message_content :
  preserves (within_limit cfg)
    (create_ticket cfg tr now user category_name message_content).
Proof.
  intros s Hs. unfold create_ticket. unfold_monad. simpl.
  destruct (limit_reached cfg (m_id user) s) eqn:Hlim; simpl; [done|].
  destruct (decide (m_id user ∈ blacklisted_users s)); simpl; [done|].
  assert (∀ cid t, within_limit cfg
            (set_active (insert_ticket (m_id user) cid t) s)) as Hins.
  { intros cid t. apply bounded_insert_ticket; [done..|].
    destruct (Z.le_gt_cases (TICKET_LIMIT_PER_USER cfg)
                (ticket_count (m_id user) (active_tickets s))) as [Hle|Hgt];
      [|lia].
    apply (limit_reached_spec cfg _ s Hpos) in Hle. congruence. }
  repeat split_result; solve [done | apply Hins].
Qed.
End limit_preserved.

(** An invariant that the primitive writes of the stores maintain is
    maintained by every handler.  The two handlers that need more than that,
    [create_ticket] with its guarded insertion and the Archive button with
    its write to the closed flag, are taken as premises at the step where
    they run. *)
Section stable.
Context (cfg : config) (I : store → Prop).
Context (I_update : ∀ uid cid f s,
            keeps_flag f → I s → I (set_active (update_ticket uid cid f) s)).
Context (I_remove : ∀ uid cid s, I s → I (set_active (remove_ticket uid cid) s)).
Context (I_logs : ∀ f s, I s → I (set_logs f s)).
Context (I_blacklist : ∀ f s, I s → I (set_blacklist f s)).
Context (I_welcome : ∀ f s, I s → I (set_welcome f s)).
Context (I_attachments : ∀ f s, I s → I (set_attachments f s)).

Local Ltac stable :=
  repeat preserves_step;
  repeat first [ done | apply I_update; [by intros ?|] | apply I_remove
               | apply I_logs | apply I_blacklist | apply I_welcome
               | apply I_attachments ].

Lemma stable_create_transcript tr now channel user :
  preserves I (create_transcript cfg tr now channel user).
Proof. unfold create_transcript. stable. Qed.

Lemma stable_send_welcome_message tr now user :
  preserves I (send_welcome_message cfg tr now user).
Proof. unfold send_welcome_message, greet, user_send. stable. Qed.

Lemma stable_write_ticket uid cid f :
  keeps_flag f → preserves I (write_ticket uid cid f).
Proof.
  intros Hf. unfold write_ticket. repeat preserves_step; try done.
  by apply I_update.
Qed.

Lemma stable_read_ticket uid cid : preserves I (read_ticket uid cid).
Proof. unfold read_ticket. stable. Qed.

Lemma stable_actually_close_ticket tr now closer channel user :
  preserves I (actually_close_ticket cfg tr now closer channel user).
Proof.
  unfold actually_close_ticket, archive_and_remove, channel_send, user_send,
    log_action.
  preserves_step; [|stable]. preserves_step; [apply stable_create_transcript|].
  stable.
Qed.

Lemma stable_auto_close_tickets tr now : preserves I (auto_close_tickets cfg tr now).
Proof.
  unfold auto_close_tickets. preserves_step; [stable|]. preserves_step.
  unfold auto_close_one. destruct x as [user_id channel_id].
  preserves_step; [|stable].
  preserves_step; [apply stable_read_ticket|]. cbv zeta.
  preserves_step; [stable|]. preserves_step; [unfold channel_send; stable|].
  preserves_step; [apply stable_create_transcript|].
  preserves_step; [unfold user_send; stable|].
  preserves_step; [apply stable_read_ticket|].
  unfold archive_and_remove. stable.
Qed.

Lemma stable_forward_to_channel tr now message channel :
  preserves I (forward_to_channel cfg tr now message channel).
Proof.
  unfold forward_to_channel, channel_send, add_reaction.
  preserves_step; [|stable]. preserves_step; [stable|].
  preserves_step; [|preserves_step; [stable|apply stable_send_welcome_message]].
  stable.
Qed.

Lemma stable_on_message tr now bot_id message :
  preserves I (on_message cfg tr now bot_id message).
Proof.
  unfold on_message.
  repeat (preserves_step; try apply preserves_ret).
  - unfold on_direct_message, forward_to_first_open, channel_send.
    repeat first [ apply stable_send_welcome_message
                 | apply stable_forward_to_channel
                 | preserves_step ]; done.
  - unfold on_channel_message, channel_send, user_send, add_reaction. stable.
Qed.

Lemma stable_on_typing tr is_dm channel_id user :
  preserves I (on_typing tr is_dm channel_id user).
Proof.
  unfold on_typing. preserves_step; [apply preserves_ret|].
  preserves_step; [stable|]. preserves_step.
  - unfold relay_user_typing. stable.
  - induction (active_tickets a) as [|[user_id user_tickets] rest IH]; simpl.
    + apply preserves_ret.
    + unfold relay_staff_typing in *. stable.
Qed.

(** One step of a run. *)
Local Ltac to_preserves :=
  lazymatch goal with
  | Hs : I ?s |- I (store_after ?m ?s) => refine ((_ : preserves I m) s Hs)
  end.

Lemma stable_handle st s :
  I s →
  (∀ user category_name request,
     st_event st = EvTicketButton user category_name request →
     I (store_after
          (create_ticket cfg (st_transport st) (st_now st) user category_name
             request) s)) →
  (∀ channel user,
     st_event st = EvArchiveButton channel user →
     I (store_after (archive_button (st_transport st) channel user) s)) →
  I (store_after (handle cfg st) s).
Proof.
  intros Hs Hcreate Harchive. unfold handle.
  destruct (st_event st) eqn:Hev.
  - specialize (Hcreate _ _ _ eq_refl). unfold ticket_button.
    unfold_monad.
    by destruct (create_ticket cfg (st_transport st) (st_now st) user
                   category_name request s) as [[[r|e] s'] out].
  - to_preserves. unfold close_ticket. preserves_step;
      [stable | apply stable_actually_close_ticket].
  - by apply stable_actually_close_ticket.
  - to_preserves. unfold blacklist_button, roles_of. stable.
  - by apply Harchive.
  - to_preserves. unfold transfer_callback, channel_send, user_send.
    repeat first [apply stable_write_ticket; by intros ? | preserves_step].
  - by apply stable_on_message.
  - to_preserves. unfold ticket_select_callback.
    repeat first [apply stable_forward_to_channel | preserves_step].
  - by apply stable_on_typing.
  - to_preserves. unfold reply_modal_submit, channel_send, user_send. stable.
  - to_preserves. unfold ticket_command, roles_of, channel_send, log_action.
    stable.
  - by apply stable_auto_close_tickets.
  - to_preserves. unfold load_data. destruct file; [|apply preserves_ret].
    apply preserves_modify. clear s Hs Hcreate Harchive. intros s Hs.
    apply (I_blacklist (fun _ => list_to_set (p_blacklisted_users p))
             (set_logs (fun _ => p_ticket_logs p)
                (set_welcome (fun _ => p_user_welcome_timestamps p) s))).
    apply I_logs, I_welcome, Hs.
Qed.

(** A run all of whose steps meet a condition under which the two premises
    hold. *)
Lemma stable_exec (G : step → store → Prop) steps s :
  (∀ st s user category_name request,
     G st s → I s →
     st_event st = EvTicketButton user category_name request →
     I (store_after
          (create_ticket cfg (st_transport st) (st_now st) user category_name
             request) s)) →
  (∀ st s channel user,
     G st s → I s →
     st_event st = EvArchiveButton channel user →
     I (store_after (archive_button (st_transport st) channel user) s)) →
  guarded cfg G steps s → I s → I (exec cfg steps s).
Proof.
  intros Hcreate Harchive. revert s.
  induction steps as [|st steps IH]; intros s Hguard Hs; simpl; [done|].
  destruct Hguard as [Hg Hguard]. apply IH; [done|].
  apply stable_handle; [done | |].
  - intros user category_name request. by apply Hcreate.
  - intros channel user. by apply Harchive.
Qed.
End stable.

Lemma guarded_always cfg steps s : guarded cfg (fun _ _ => True) steps s.
Proof. revert s. induction steps as [|st steps IH]; intros s; simpl; auto. Qed.

(** The limit holds along every run from the empty stores. *)
Lemma within_limit_exec cfg steps :
  1 ≤ TICKET_LIMIT_PER_USER cfg →
  within_limit cfg (exec cfg steps empty_store).
Proof.
  intros Hpos.
  apply (stable_exec cfg (within_limit cfg)) with (G := fun _ _ => True).
  - intros uid cid f s _ Hs. by apply bounded_update_ticket.
  - intros uid cid s Hs. by apply bounded_remove_ticket.
  - intros f s Hs. exact Hs.
  - intros f s Hs. exact Hs.
  - intros f s Hs. exact Hs.
  - intros f s Hs. exact Hs.
  - intros st s user category_name request _ Hs _.
    by apply create_ticket_within_limit.
  - intros st s channel user _ Hs _. revert s Hs.
    change (preserves (within_limit cfg)
              (archive_button (st_transport st) channel user)).
    unfold archive_button, write_ticket. repeat preserves_step; try done.
    by apply bounded_update_ticket.
  - apply guarded_always.
  - constructor.
Qed.

(** ** Claims about ticket creation *)

Lemma limit_message_distinct category_name :
  limit_message ≠ blacklist_message
  ∧ limit_message ≠ created_message category_name
  ∧ limit_message ≠ create_error_message
  ∧ blacklist_message ≠ created_message category_name
  ∧ blacklist_message ≠ create_error_message.
Proof. repeat split; discriminate. Qed.

(** What [create_ticket] returns past its two guards is never one of the
    two rejections. *)
Lemma create_ticket_outcomes cfg tr now user category_name message_content s :
  ∃ r, outcome_of (create_ticket cfg tr now user category_name message_content) s
       = Ok r
       ∧ (r = limit_message ↔ limit_reached cfg (m_id user) s = true)
       ∧ (r = blacklist_message
          ↔ limit_reached cfg (m_id user) s = false
            ∧ m_id user ∈ blacklisted_users s).
Proof.
  destruct (limit_message_distinct category_name) as (H1 & H2 & H3 & H4 & H5).
  unfold create_ticket. unfold_monad. simpl.
  destruct (limit_reached cfg (m_id user) s) eqn:Hlim; simpl.
  { eexists; split; [done|]. split; [done|]. split; [done | intros [? _]; done]. }
  destruct (decide (m_id user ∈ blacklisted_users s)); simpl.
  { eexists; split; [done|]. split; [|done]. split; [intros; by exfalso | done]. }
  repeat split_result;
    (eexists; split; [done|]; split;
     (split; [intros Heq; exfalso; eauto
            | intros Hc; first [discriminate Hc | by destruct Hc]])).
Qed.

(** ** Coroutines

    A coroutine that nothing interrupts is the handler. *)


Lemma run_create_ticket_task cfg tr now user category_name message_content s :
  run_task (create_ticket_task cfg tr now user category_name message_content) s
  = create_ticket cfg tr now user category_name message_content s.
Proof.
  unfold create_ticket. simpl. unfold_monad. simpl.
  destruct (limit_reached cfg (m_id user) s); simpl; [done|].
  destruct (decide (m_id user ∈ blacklisted_users s)); simpl; [done|].
  destruct (tr_get_category tr) as [[]|e0]; simpl; [|done].
  destruct (tr_create_text_channel tr _) as [cid|e1]; simpl; [|done].
  destruct (tr_channel_send tr cid) as [control_message|e2]; simpl; [|done].
  destruct (tr_pin tr control_message) as [[]|e3]; simpl; [|done].
  destruct (tr_user_send tr (m_id user)) as [dm|e4]; simpl; [|done].
  by destruct (tr_log_action tr) as [[]|e5].
Qed.


Lemma ticket_count_insert_other uid uid' cid t a :
  uid ≠ uid' →
  ticket_count uid (insert_ticket uid' cid t a) = ticket_count uid a.
Proof.
  intros Hne. unfold ticket_count, insert_ticket.
  destruct (OD.get uid' a); by rewrite ODFacts.get_set_ne.
Qed.

Lemma ticket_count_insert_le uid uid' cid t a :
  ticket_count uid (insert_ticket uid' cid t a) ≤ ticket_count uid a + 1.
Proof.
  destruct (decide (uid = uid')) as [<-|Hne].
  - unfold ticket_count, insert_ticket.
    destruct (OD.get uid a) as [d|] eqn:Hd; rewrite ODFacts.get_set_eq.
    + unfold OD.len. pose proof (ODFacts.length_set_le cid t d). lia.
    + done.
  - rewrite ticket_count_insert_other by done. lia.
Qed.

Section overlap.
Context (cfg : config) (uid : Z).

Lemma keeps_count_except e : keeps_count uid (create_ticket_except e).
Proof. by intros s. Qed.

(** Once the ticket is inserted, the rest of the coroutine writes to no
    store. *)
Lemma keeps_count_after_insert tr user category_name message_content cid
    (r : result Z) :
  keeps_count uid
    (match r with
     | Raise e => create_ticket_except e
     | Ok control_message =>
         Await
           (emit (ChannelSend cid
                    (PControl category_name (m_id user) message_content));;
            call (tr_pin tr control_message))
           (fun r =>
              match r with
              | Raise e => create_ticket_except e
              | Ok _ =>
                  Await
                    (emit (Pin control_message);;
                     call (tr_user_send tr (m_id user)))
                    (fun r =>
                       match r with
                       | Raise e => create_ticket_except e
                       | Ok _ =>
                           Await
                             (emit (UserSend (m_id user)
                                      (PTicketCreated category_name));;
                              call (tr_log_action tr))
                             (fun r =>
                                match r with
                                | Raise e => create_ticket_except e
                                | Ok _ =>
                                    Return
                                      (emit
                                         (LogAction
                                            ("Ticket created by "
                                               +:+ m_name user +:+ " ("
                                               +:+ pretty (m_id user) +:+ ")")
                                            category_name message_content);;
                                       mret (created_message category_name))
                                end)
                       end)
              end)
     end).
Proof.
  destruct r as [control_message|e]; [|by intros s].
  simpl. split; [intros s; unfold_monad; by destruct (tr_pin tr _)|].
  intros [?|e]; [|by intros s].
  simpl. split; [intros s; unfold_monad; by destruct (tr_user_send tr _)|].
  intros [?|e]; [|by intros s].
  simpl. split; [intros s; unfold_monad; by destruct (tr_log_action tr)|].
  intros [?|e]; by intros s.
Qed.

(** The creation of a ticket for another user leaves the tickets of [uid]
    alone. *)
Lemma keeps_count_other tr now user category_name message_content :
  m_id user ≠ uid →
  keeps_count uid
    (create_ticket_task cfg tr now user category_name message_content).
Proof.
  intros Hne. simpl. split.
  { intros s. unfold_monad. simpl.
    destruct (limit_reached cfg (m_id user) s); simpl; [done|].
    destruct (decide (m_id user ∈ blacklisted_users s)); simpl; [done|].
    by destruct (tr_get_category tr). }
  intros [[refusal|]|e]; [by intros s | | by intros s].
  simpl. split; [intros s; unfold_monad; by destruct (tr_create_text_channel tr _)|].
  intros [cid|e]; [|by intros s].
  split.
  { intros s. unfold_monad. simpl.
    destruct (tr_channel_send tr cid); simpl;
      by rewrite ticket_count_insert_other. }
  apply keeps_count_after_insert.
Qed.

(** One block of a coroutine of the pool. *)
Lemma phase_resume th p0 a0 s th' s' out :
  1 ≤ TICKET_LIMIT_PER_USER cfg →
  phase cfg uid th p0 a0 → resume th s = (th', s', out) →
  ∃ p1 a1, phase cfg uid th' p1 a1 ∧ moves cfg uid s s' p0 a0 p1 a1.
Proof.
  intros Hpos Hphase.
  destruct Hphase as [r | t Hkeeps
                      | tr now user category_name message_content Huser
                      | tr now user category_name message_content Huser
                      | tr now user category_name message_content cid Huser].
  - intros [= <- <- <-]. exists 0, 0. split; [constructor|]. left. lia.
  - destruct t as [last|B block k]; simpl in *.
    + specialize (Hkeeps s). unfold store_after in Hkeeps.
      destruct (last s) as [[r s1] out1]. intros [= <- <- <-].
      exists 0, 0. split; [constructor|]. left. simpl in *. lia.
    + destruct Hkeeps as [Hblock Hk]. specialize (Hblock s).
      unfold store_after in Hblock.
      destruct (block s) as [[r s1] out1]. intros [= <- <- <-].
      exists 0, 0. split; [by constructor|]. left. simpl in *. lia.
  - simpl. unfold_monad. simpl.
    destruct (limit_reached cfg (m_id user) s) eqn:Hlim; simpl.
    { intros [= <- <- <-]. exists 0, 0. split; [by constructor|].
      right; left. lia. }
    destruct (decide (m_id user ∈ blacklisted_users s)); simpl.
    { intros [= <- <- <-]. exists 0, 0. split; [by constructor|].
      right; left. lia. }
    destruct (tr_get_category tr) as [[]|e]; simpl; intros [= <- <- <-].
    + exists 1, 0. split; [by constructor|]. right; right.
      split; [lia|]. split; [lia|]. split; [done|].
      destruct (Z.le_gt_cases (TICKET_LIMIT_PER_USER cfg)
                  (ticket_count uid (active_tickets s))) as [Hle|Hgt]; [|lia].
      rewrite <- Huser in Hle.
      apply (limit_reached_spec cfg _ s Hpos) in Hle. congruence.
    + exists 0, 0. split; [by constructor|]. right; left. lia.
  - simpl. unfold_monad.
    destruct (tr_create_text_channel tr _) as [cid|e]; simpl;
      intros [= <- <- <-].
    + exists 1, 0. split; [by constructor|]. left. lia.
    + exists 0, 0. split; [by constructor|]. left. lia.
  - simpl. unfold_monad. simpl.
    pose proof (ticket_count_insert_le uid (m_id user) cid
                  (new_ticket now
                     {| ch_id := cid;
                        ch_name := ticket_channel_name now user category_name |}
                     category_name)
                  (active_tickets s)) as Hle.
    destruct (tr_channel_send tr cid) as [control_message|e] eqn:Hsend; simpl;
      intros [= <- <- <-]; exists 0, 0.
    + split; [|left; simpl; lia]. apply phase_keeps.
      exact (keeps_count_after_insert tr user category_name message_content
               cid (Ok control_message)).
    + split; [|left; simpl; lia]. apply phase_keeps.
      exact (keeps_count_after_insert tr user category_name message_content
               cid (Raise e)).
Qed.

Lemma weighs_nonneg pool p a : weighs cfg uid pool p a → 0 ≤ p ∧ 0 ≤ a.
Proof.
  induction 1 as [|th pool p0 a0 p a Hphase _ IH]; [lia|].
  destruct Hphase; lia.
Qed.

Lemma weighs_resume pool p a i th s th' s' out :
  1 ≤ TICKET_LIMIT_PER_USER cfg →
  weighs cfg uid pool p a → pool !! i = Some th →
  resume th s = (th', s', out) →
  ∃ p' a', weighs cfg uid (<[i := th']> pool) p' a'
           ∧ moves cfg uid s s' p a p' a'.
Proof.
  intros Hpos Hweighs. revert i.
  induction Hweighs as [|th0 pool p0 a0 p a Hphase Hweighs IH];
    intros i Hlook Hresume; [done|].
  destruct i as [|i]; simpl in *.
  - injection Hlook as ->.
    destruct (phase_resume _ _ _ _ _ _ _ Hpos Hphase Hresume)
      as (p1 & a1 & Hphase' & Hmoves).
    exists (p1 + p), (a1 + a). split; [by constructor|].
    unfold moves in *. lia.
  - destruct (IH i Hlook Hresume) as (p' & a' & Hweighs' & Hmoves).
    exists (p0 + p'), (a0 + a'). split; [by constructor|].
    unfold moves in *. lia.
Qed.

Lemma weighs_creations presses :
  weighs cfg uid (creations cfg presses) 0 (pressed uid presses).
Proof.
  unfold pressed. induction presses as [|p presses IH]; simpl; [constructor|].
  rewrite filter_cons. destruct (decide (m_id (pr_user p) = uid)) as [Hp|Hp].
  - simpl length. rewrite Nat2Z.inj_succ, <- Z.add_1_l.
    apply (weighs_cons cfg uid _ _ 0 1 0); [by constructor | exact IH].
  - apply (weighs_cons cfg uid _ _ 0 0 0); [|exact IH].
    constructor. by apply keeps_count_other.
Qed.

(** However the blocks of the pool are scheduled, the tickets of [uid]
    stay within the limit less one plus the number of creations for [uid]
    that have been started. *)
Lemma interleave_bound n schedule :
  1 ≤ TICKET_LIMIT_PER_USER cfg →
  ∀ pool p a s,
    weighs cfg uid pool p a → p + a ≤ n →
    ticket_count uid (active_tickets s) + p
    ≤ TICKET_LIMIT_PER_USER cfg - 1 + Z.max 1 (n - a) →
    ticket_count uid (active_tickets (interleave schedule pool s).1.2)
    ≤ TICKET_LIMIT_PER_USER cfg - 1 + Z.max 1 n.
Proof.
  intros Hpos. induction schedule as [|i schedule IH];
    intros pool p a s Hweighs Hsum Hinv; simpl.
  - pose proof (weighs_nonneg _ _ _ Hweighs). lia.
  - destruct (pool !! i) as [th|] eqn:Hlook; [|by eapply IH].
    destruct (resume th s) as [[th' s'] out] eqn:Hresume.
    destruct (weighs_resume _ _ _ _ _ _ _ _ _ Hpos Hweighs Hlook Hresume)
      as (p' & a' & Hweighs' & Hmoves).
    pose proof (weighs_nonneg _ _ _ Hweighs).
    pose proof (weighs_nonneg _ _ _ Hweighs').
    specialize (IH (<[i := th']> pool) p' a' s' Hweighs').
    destruct (interleave schedule (<[i := th']> pool) s') as [[pool' s''] out'].
    simpl in *. apply IH; unfold moves in Hmoves; lia.
Qed.
End overlap.





(** C9. The limit check comes first: a blacklisted user whose count has
    reached the limit gets the limit rejection, and the blacklist rejection
    is returned exactly to blacklisted users strictly below the limit. *)
Theorem C9_limit_checked_before_blacklist (cfg : config) (tr : transport)
    (now : time) (user : member) (category_name message_content : string)
    (s : store) :
  1 ≤ TICKET_LIMIT_PER_USER cfg →
  let attempt := create_ticket cfg tr now user category_name message_content in
  (m_id user ∈ blacklisted_users s →
   TICKET_LIMIT_PER_USER cfg ≤ ticket_count (m_id user) (active_tickets s) →
   outcome_of attempt s = Ok limit_message)
  ∧ (outcome_of attempt s = Ok blacklist_message
     ↔ m_id user ∈ blacklisted_users s
       ∧ ticket_count (m_id user) (active_tickets s) < TICKET_LIMIT_PER_USER cfg).
Proof.
  intros Hpos attempt.
  destruct (create_ticket_outcomes cfg tr now user category_name
              message_content s) as (r & Hr & Hlim & Hbl).
  fold attempt in Hr. rewrite Hr.
  pose proof (limit_reached_spec cfg (m_id user) s Hpos) as Hspec.
  split.
  - intros _ Hcount. f_equal. apply Hlim, Hspec, Hcount.
  - split.
    + intros [= ->]. apply proj1 in Hbl. destruct (Hbl eq_refl) as [Hnot Hin].
      split; [done|].
      destruct (Z.le_gt_cases (TICKET_LIMIT_PER_USER cfg)
                  (ticket_count (m_id user) (active_tickets s))) as [Hle|Hgt];
        [|lia].
      apply Hspec in Hle. congruence.
    + intros [Hin Hlt]. f_equal. apply Hbl. split; [|done].
      apply not_true_is_false. intros Hreached.
      apply Hspec in Hreached. lia.
Qed.

Lemma C9_limit_checked_before_blacklist_witness :
  1001 ∈ blacklisted_users opened_then_blacklisted
  ∧ TICKET_LIMIT_PER_USER CONFIG
    ≤ ticket_count 1001 (active_tickets opened_then_blacklisted)
  ∧ outcome_of
      (create_ticket CONFIG tr_ok sample_time alice "Billing"
         "Billing ticket requested")
      opened_then_blacklisted
    = Ok limit_message.
Proof.
  assert (1001 ∈ blacklisted_users opened_then_blacklisted) as Hin.
  { apply (bool_decide_unpack _). vm_compute. exact I. }
  assert (TICKET_LIMIT_PER_USER CONFIG
          ≤ ticket_count 1001 (active_tickets opened_then_blacklisted)) as Hle.
  { vm_compute. discriminate. }
  split; [exact Hin|]. split; [exact Hle|].
  exact (proj1 (C9_limit_checked_before_blacklist CONFIG tr_ok sample_time alice
                  "Billing" "Billing ticket requested" opened_then_blacklisted
                  ltac:(done)) Hin Hle).
Defined.

Lemma lookup_insert_ticket uid cid t a :
  lookup_ticket uid cid (insert_ticket uid cid t a) = Some t.
Proof.
  unfold lookup_ticket, insert_ticket.
  destruct (OD.get uid a); rewrite ODFacts.get_set_eq;
    apply ODFacts.get_set_eq.
Qed.

(** The user's direct messages are closed: the attempt reports an error and
    the ticket is in the active index all the same. *)
Lemma C2_rollback_counterexample : ¬ create_ticket_rolls_back CONFIG.
Proof.
  intros Hclaim.
  specialize (Hclaim tr_dm_closed sample_time alice "Support"
                "Support ticket requested" empty_store 5000).
  assert (reaches_insert CONFIG tr_dm_closed sample_time alice "Support"
            empty_store 5000) as Hreach.
  { repeat split. apply not_elem_of_empty. }
  specialize (Hclaim Hreach I). vm_compute in Hclaim. discriminate Hclaim.
Qed.

(** C2, amended. When a transport step after the insertion raises,
    [create_ticket] logs the error and returns its generic error message;
    the insertion is not undone: the channel has been created, the new
    ticket stays in the active index, and the other stores are untouched. *)
Theorem C2_failure_keeps_ticket (cfg : config) (tr : transport) (now : time)
    (user : member) (category_name message_content : string) (s : store)
    (cid : Z) :
  reaches_insert cfg tr now user category_name s cid →
  fails_after_insert tr (m_id user) cid →
  let attempt := create_ticket cfg tr now user category_name message_content in
  let channel :=
    {| ch_id := cid; ch_name := ticket_channel_name now user category_name |} in
  outcome_of attempt s = Ok create_error_message
  ∧ head (effects_of attempt s) = Some (CreateChannel channel)
  ∧ store_after attempt s
    = set_active
        (insert_ticket (m_id user) cid (new_ticket now channel category_name)) s
  ∧ lookup_ticket (m_id user) cid (active_tickets (store_after attempt s))
    = Some (new_ticket now channel category_name).
Proof.
  intros (Hlim & Hbl & Hcat & Hchan) Hfail attempt channel.
  assert (outcome_of attempt s = Ok create_error_message
          ∧ head (effects_of attempt s) = Some (CreateChannel channel)
          ∧ store_after attempt s
            = set_active
                (insert_ticket (m_id user) cid
                   (new_ticket now channel category_name)) s)
    as (Hout & Heff & Hst).
  { subst attempt channel. unfold create_ticket, fails_after_insert in *.
    unfold_monad. simpl. rewrite Hlim. simpl.
    destruct (decide (m_id user ∈ blacklisted_users s)); [done|]. simpl.
    rewrite Hcat. simpl. rewrite Hchan. simpl.
    destruct (tr_channel_send tr cid) as [control_message|]; simpl; [|done].
    destruct (tr_pin tr control_message); simpl; [|done].
    destruct (tr_user_send tr (m_id user)); simpl; [|done].
    destruct (tr_log_action tr); simpl; [done|done]. }
  split; [exact Hout|]. split; [exact Heff|]. split; [exact Hst|].
  rewrite Hst. simpl. apply lookup_insert_ticket.
Qed.

Lemma C2_failure_keeps_ticket_witness :
  lookup_ticket 1001 5000
    (active_tickets
       (store_after
          (create_ticket CONFIG tr_dm_closed sample_time alice "Support"
             "Support ticket requested")
          empty_store))
  = Some (new_ticket sample_time
            {| ch_id := 5000;
               ch_name := ticket_channel_name sample_time alice "Support" |}
            "Support").
Proof.
  refine (proj2 (proj2 (proj2
            (C2_failure_keeps_ticket CONFIG tr_dm_closed sample_time alice
               "Support" "Support ticket requested" empty_store 5000 _ I)))).
  repeat split. apply not_elem_of_empty.
Defined.

(** ** Channel ids and the active index *)

Section splitting.
Context {K : Type} `{EqDecision K} {V : Type}.
Implicit Types (d : odict K V) (k : K) (v : V).

(** The entry that [get] finds is the first one under its key. *)
Lemma get_split k v d :
  OD.get k d = Some v → ∃ d1 d2, d = d1 ++ (k, v) :: d2 ∧ k ∉ OD.keys d1.
Proof.
  induction d as [|[k0 v0] d IH]; simpl; [done|].
  destruct (decide (k = k0)) as [->|Hne].
  - intros [= ->]. exists [], d. split; [done | apply not_elem_of_nil].
  - intros Hget. destruct (IH Hget) as (d1 & d2 & -> & Hnotin).
    exists ((k0, v0) :: d1), d2. split; [done|].
    unfold OD.keys in *. csimpl. apply not_elem_of_cons. done.
Qed.

Lemma del_split k v d1 d2 :
  k ∉ OD.keys d1 → OD.del k (d1 ++ (k, v) :: d2) = d1 ++ d2.
Proof.
  unfold OD.keys. induction d1 as [|[k0 v0] d1 IH]; csimpl.
  - intros _. by rewrite decide_True.
  - rewrite not_elem_of_cons. intros [Hne Hnotin].
    rewrite decide_False; [|done]. by rewrite IH.
Qed.

Lemma set_split k v v' d1 d2 :
  k ∉ OD.keys d1 →
  OD.set k v' (d1 ++ (k, v) :: d2) = d1 ++ (k, v') :: d2.
Proof.
  unfold OD.keys. induction d1 as [|[k0 v0] d1 IH]; csimpl.
  - intros _. by rewrite decide_True.
  - rewrite not_elem_of_cons. intros [Hne Hnotin].
    rewrite decide_False; [|done]. by rewrite IH.
Qed.
End splitting.

Lemma all_channels_app a1 a2 :
  all_channels (a1 ++ a2) = all_channels a1 ++ all_channels a2.
Proof. unfold all_channels. apply flat_map_app. Qed.

Lemma all_channels_cons uid d a :
  all_channels ((uid, d) :: a) = OD.keys d ++ all_channels a.
Proof. done. Qed.

(** Removing a ticket removes its channel id from the active index, when
    channel ids are unique. *)
Lemma remove_ticket_not_in_channels uid cid t a :
  unique_channels a → lookup_ticket uid cid a = Some t →
  cid ∉ all_channels (remove_ticket uid cid a).
Proof.
  unfold unique_channels, lookup_ticket, remove_ticket.
  intros Hnd Hlook. destruct (OD.get uid a) as [d|] eqn:Hd; [|done].
  destruct (get_split _ _ _ Hd) as (a1 & a2 & -> & Hnotin).
  rewrite all_channels_app, all_channels_cons in Hnd.
  apply NoDup_app in Hnd as (_ & Hdisj1 & Hnd).
  apply NoDup_app in Hnd as (Hndd & Hdisj2 & _).
  assert (cid ∈ OD.keys d) as Hin.
  { destruct (decide (cid ∈ OD.keys d)) as [|Hno]; [done|].
    apply ODFacts.get_None_keys in Hno. congruence. }
  assert (cid ∉ all_channels a1) as Hno1.
  { intros Hc. apply (Hdisj1 _ Hc). apply elem_of_app. by left. }
  assert (cid ∉ all_channels a2) as Hno2 by (by apply Hdisj2).
  assert (cid ∉ OD.keys (OD.del cid d)) as Hnod.
  { apply ODFacts.get_None_keys. by apply ODFacts.get_del_eq. }
  destruct (OD.del cid d) as [|e d'] eqn:Hdel.
  - rewrite (del_split uid d a1 a2 Hnotin), all_channels_app.
    rewrite elem_of_app. tauto.
  - rewrite (set_split uid d (e :: d') a1 a2 Hnotin).
    rewrite all_channels_app, all_channels_cons, !elem_of_app. tauto.
Qed.

Lemma scan_open_absent cid d : cid ∉ OD.keys d → scan_open cid d = None.
Proof.
  unfold scan_open, OD.keys. induction d as [|[k t] d IH]; csimpl; [done|].
  rewrite not_elem_of_cons. intros [Hne Hnotin].
  rewrite bool_decide_false; [|done]. simpl. by apply IH.
Qed.

(** A channel id that is not in the active index is found by none of the
    lookups of the handlers. *)
Lemma absent_channel_not_found cid a :
  cid ∉ all_channels a →
  (∀ uid, lookup_ticket uid cid a = None)
  ∧ find_channel cid a = None
  ∧ find_open_ticket cid a None = None.
Proof.
  induction a as [|[uid0 d] a IH].
  - intros _. done.
  - rewrite all_channels_cons, elem_of_app. intros Hnotin.
    assert (cid ∉ OD.keys d) as Hd by tauto.
    destruct IH as (IH1 & IH2 & IH3); [tauto|].
    pose proof (proj2 (ODFacts.get_None_keys cid d) Hd) as Hget.
    split_and!.
    + intros uid. unfold lookup_ticket in *. simpl.
      destruct (decide (uid = uid0)); [done | apply IH1].
    + simpl. unfold OD.mem. by rewrite Hget.
    + simpl. by rewrite (scan_open_absent _ _ Hd).
Qed.

(** ** Claims about closing *)

Lemma create_transcript_run cfg tr now channel user s :
  create_transcript cfg tr now channel user s
  = (transcript_result cfg tr now channel user, s, []).
Proof.
  unfold create_transcript, transcript_result. unfold_monad.
  destruct (tr_history tr (ch_id channel)) as [messages|e]; simpl; [|done].
  by destruct (transcript_loop _ _ _).
Qed.

(** A close of a ticket that is in the active index, once the transcript is
    built and the notice posted, archives it and removes it, whatever the
    later transport calls do. *)
Lemma close_present cfg tr now closer channel user s t :
  lookup_ticket (m_id user) (ch_id channel) (active_tickets s) = Some t →
  close_goes_through cfg tr now channel user →
  store_after (actually_close_ticket cfg tr now closer channel user) s
  = archive_and_remove now (m_id user) (ch_id channel) channel t
      (pretty (m_id closer)) s.
Proof.
  intros Hlook [[transcript Htr] [notice Hsend]].
  unfold actually_close_ticket. unfold_monad.
  rewrite create_transcript_run, Htr. simpl. rewrite Hsend. simpl.
  destruct (tr_user_send tr (m_id user)); simpl; rewrite Hlook; simpl;
    repeat split_result; done.
Qed.

(** A close of a ticket that is not in the active index writes nothing. *)
Lemma close_absent cfg tr now closer channel user s :
  lookup_ticket (m_id user) (ch_id channel) (active_tickets s) = None →
  store_after (actually_close_ticket cfg tr now closer channel user) s = s.
Proof.
  intros Hlook. unfold actually_close_ticket. unfold_monad.
  rewrite create_transcript_run.
  destruct (transcript_result cfg tr now channel user); simpl; [|done].
  destruct (tr_channel_send tr (ch_id channel)); simpl; [|done].
  destruct (tr_user_send tr (m_id user)); simpl; rewrite Hlook; simpl;
    repeat split_result; done.
Qed.

(** It goes through the motions of a close all the same. *)
Lemma close_absent_effects cfg tr now closer channel user s transcript notice dm :
  lookup_ticket (m_id user) (ch_id channel) (active_tickets s) = None →
  transcript_result cfg tr now channel user = Ok transcript →
  tr_channel_send tr (ch_id channel) = Ok notice →
  tr_user_send tr (m_id user) = Ok dm →
  tr_log_action tr = Ok tt →
  tr_channel_delete tr (ch_id channel) = Ok tt →
  effects_of (actually_close_ticket cfg tr now closer channel user) s
  = [ ChannelSend (ch_id channel) (PClosing (m_id closer));
      UserSend (m_id user)
        (PClosedDM ("transcript-" +:+ ch_name channel +:+ ".txt") transcript);
      LogAction
        ("Ticket closed by " +:+ m_name closer +:+ " ("
           +:+ pretty (m_id closer) +:+ ")")
        "Ticket Closure" "";
      Respond close_success_message;
      ChannelDelete (ch_id channel) ].
Proof.
  intros Hlook Htr Hsend Hdm Hlog Hdel.
  unfold actually_close_ticket. unfold_monad.
  rewrite create_transcript_run, Htr. simpl. rewrite Hsend. simpl.
  rewrite Hdm. simpl. rewrite Hlook. simpl. rewrite Hlog. simpl.
  rewrite Hdel. done.
Qed.

Lemma one_open_ticket_unique : unique_channels (active_tickets one_open_ticket).
Proof. unfold unique_channels. vm_compute. apply NoDup_singleton. Qed.

(** Bob confirms the close twice while the channel is still there: the
    second close posts the notice, messages Alice, writes the audit entry
    and reports success again. *)
Lemma C3_second_close_counterexample : ¬ second_close_is_noop CONFIG.
Proof.
  intros Hclaim.
  specialize (Hclaim tr_ok sample_time tr_ok (sample_time + 1) bob
                sample_channel alice one_open_ticket
                (new_ticket sample_time sample_channel "Support")
                one_open_ticket_unique eq_refl).
  destruct Hclaim as (_ & _ & Hnone).
  { split; [by eexists | by eexists]. }
  apply Forall_inv in Hnone. discriminate Hnone.
Qed.

(** C3, amended. Once a close of a ticket has gone through, the ticket is
    found by none of the lookups by channel id and its summary is in the
    owner's log.  A second close of it writes to no store, whatever the
    transport does; it is not refused, though: on a transport that answers,
    it posts the closing notice, messages the owner, writes the audit
    entry, reports success and deletes the channel once more. *)
Theorem C3_close_then_close_again (cfg : config) (tr1 tr2 : transport)
    (now1 now2 : time) (closer closer2 : member) (channel : channel)
    (user : member) (s : store) (t : ticket) :
  unique_channels (active_tickets s) →
  lookup_ticket (m_id user) (ch_id channel) (active_tickets s) = Some t →
  close_goes_through cfg tr1 now1 channel user →
  let s1 :=
    store_after (actually_close_ticket cfg tr1 now1 closer channel user) s in
  let second := actually_close_ticket cfg tr2 now2 closer2 channel user in
  ((∀ uid, lookup_ticket uid (ch_id channel) (active_tickets s1) = None)
   ∧ find_channel (ch_id channel) (active_tickets s1) = None
   ∧ find_open_ticket (ch_id channel) (active_tickets s1) None = None)
  ∧ ticket_logs s1
    = append_log (pretty (m_id user))
        (closed_summary channel t now1 (pretty (m_id closer))) (ticket_logs s)
  ∧ store_after second s1 = s1
  ∧ (∀ transcript notice dm,
       transcript_result cfg tr2 now2 channel user = Ok transcript →
       tr_channel_send tr2 (ch_id channel) = Ok notice →
       tr_user_send tr2 (m_id user) = Ok dm →
       tr_log_action tr2 = Ok tt →
       tr_channel_delete tr2 (ch_id channel) = Ok tt →
       effects_of second s1
       = [ ChannelSend (ch_id channel) (PClosing (m_id closer2));
           UserSend (m_id user)
             (PClosedDM ("transcript-" +:+ ch_name channel +:+ ".txt")
                transcript);
           LogAction
             ("Ticket closed by " +:+ m_name closer2 +:+ " ("
                +:+ pretty (m_id closer2) +:+ ")")
             "Ticket Closure" "";
           Respond close_success_message;
           ChannelDelete (ch_id channel) ]).
Proof.
  intros Huniq Hlook Hthrough s1 second.
  assert (s1 = archive_and_remove now1 (m_id user) (ch_id channel) channel t
                 (pretty (m_id closer)) s) as Hs1
    by (by apply close_present).
  assert (ch_id channel ∉ all_channels (active_tickets s1)) as Hgone.
  { rewrite Hs1. simpl. by apply (remove_ticket_not_in_channels _ _ t). }
  pose proof (absent_channel_not_found _ _ Hgone) as Habsent.
  split; [exact Habsent|]. split; [by rewrite Hs1|].
  destruct Habsent as (Hnone & _ & _). split.
  - apply close_absent, Hnone.
  - intros transcript notice dm. apply close_absent_effects, Hnone.
Qed.

Lemma C3_close_then_close_again_witness :
  let s1 :=
    store_after
      (actually_close_ticket CONFIG tr_ok sample_time bob sample_channel alice)
      one_open_ticket in
  store_after
    (actually_close_ticket CONFIG tr_ok (sample_time + 1) bob sample_channel alice)
    s1
  = s1.
Proof.
  refine (proj1 (proj2 (proj2
            (C3_close_then_close_again CONFIG tr_ok tr_ok sample_time
               (sample_time + 1) bob bob sample_channel alice one_open_ticket
               (new_ticket sample_time sample_channel "Support")
               one_open_ticket_unique eq_refl _)))).
  split; [by eexists | by eexists].
Defined.

(** ** Lookups across a removal *)

Lemma lookup_remove_other uid cid uid' cid' a :
  NoDup (OD.keys a) → (uid, cid) ≠ (uid', cid') →
  lookup_ticket uid cid (remove_ticket uid' cid' a) = lookup_ticket uid cid a.
Proof.
  intros Hnd Hne. unfold lookup_ticket, remove_ticket.
  destruct (OD.get uid' a) as [d|] eqn:Hd; [|done].
  destruct (decide (uid = uid')) as [->|Hu].
  - assert (cid' ≠ cid) as Hc by congruence. rewrite Hd.
    destruct (OD.del cid' d) as [|e d'] eqn:Hdel.
    + rewrite ODFacts.get_del_eq; [|done].
      rewrite <- (ODFacts.get_del_ne cid' cid d Hc), Hdel. done.
    + rewrite ODFacts.get_set_eq, <- Hdel. by apply ODFacts.get_del_ne.
  - destruct (OD.del cid' d) as [|e d'].
    + rewrite ODFacts.get_del_ne; done.
    + rewrite ODFacts.get_set_ne; done.
Qed.

Lemma lookup_remove_none uid cid uid' cid' a :
  NoDup (OD.keys a) → lookup_ticket uid cid a = None →
  lookup_ticket uid cid (remove_ticket uid' cid' a) = None.
Proof.
  intros Hnd Hnone.
  destruct (decide ((uid, cid) = (uid', cid'))) as [[= <- <-]|Hne];
    [|by rewrite lookup_remove_other].
  unfold lookup_ticket, remove_ticket in *.
  destruct (OD.get uid a) as [d|] eqn:Hd; [|by rewrite Hd].
  destruct (OD.del cid d) as [|e d'] eqn:Hdel.
  - by rewrite ODFacts.get_del_eq.
  - rewrite ODFacts.get_set_eq, <- Hdel.
    destruct (get_split _ _ _ Hd) as (a1 & a2 & -> & Hnotin).
    clear -Hnone. induction d as [|[k v] d IH]; simpl in *; [done|].
    destruct (decide (cid = k)); [done|]. simpl.
    rewrite decide_False; [by apply IH | done].
Qed.

Lemma all_channels_remove_sublist uid cid a :
  sublist (all_channels (remove_ticket uid cid a)) (all_channels a).
Proof.
  unfold remove_ticket. destruct (OD.get uid a) as [d|] eqn:Hd; [|done].
  destruct (get_split _ _ _ Hd) as (a1 & a2 & -> & Hnotin).
  assert (sublist (OD.keys (OD.del cid d)) (OD.keys d)) as Hsub.
  { clear. unfold OD.keys. induction d as [|[k v] d IH]; csimpl; [done|].
    destruct (decide (cid = k)); csimpl.
    - by apply sublist_cons.
    - by apply sublist_skip. }
  destruct (OD.del cid d) as [|e d'] eqn:Hdel.
  - rewrite (del_split uid d a1 a2 Hnotin), !all_channels_app.
    apply sublist_app; [done|]. rewrite all_channels_cons.
    by apply sublist_inserts_l.
  - rewrite (set_split uid d (e :: d') a1 a2 Hnotin), !all_channels_app,
      !all_channels_cons.
    apply sublist_app; [done|]. by apply sublist_app.
Qed.

Lemma well_formed_remove uid cid a :
  well_formed a → well_formed (remove_ticket uid cid a).
Proof.
  intros [Hk Hc]. split.
  - unfold remove_ticket. destruct (OD.get uid a) as [d|]; [|done].
    destruct (OD.del cid d).
    + by apply ODFacts.NoDup_keys_del.
    + by apply ODFacts.NoDup_keys_set.
  - unfold unique_channels in *.
    exact (sublist_NoDup _ _ Hc (all_channels_remove_sublist uid cid a)).
Qed.

(** ** The reaper *)

Section reaper.
Context (cfg : config) (tr : transport) (now : time).

Lemma read_ticket_present uid cid t s :
  lookup_ticket uid cid (active_tickets s) = Some t →
  read_ticket uid cid s = (Ok t, s, []).
Proof.
  unfold lookup_ticket, read_ticket. unfold_monad.
  destruct (OD.get uid (active_tickets s)) as [d|]; [|done].
  by intros ->.
Qed.

Lemma read_ticket_absent uid cid s :
  lookup_ticket uid cid (active_tickets s) = None →
  ∃ e, read_ticket uid cid s = (Raise e, s, []).
Proof.
  unfold lookup_ticket, read_ticket. unfold_monad.
  destruct (OD.get uid (active_tickets s)) as [d|]; [|by eexists].
  intros ->. by eexists.
Qed.

Lemma auto_close_one_absent uid cid s :
  lookup_ticket uid cid (active_tickets s) = None →
  store_after (auto_close_one cfg tr now (uid, cid)) s = s.
Proof.
  intros Hnone. destruct (read_ticket_absent _ _ _ Hnone) as [e He].
  unfold auto_close_one. unfold_monad. by rewrite He.
Qed.

Lemma auto_close_one_done uid cid t s :
  lookup_ticket uid cid (active_tickets s) = Some t →
  reap_goes_through cfg tr now uid t →
  store_after (auto_close_one cfg tr now (uid, cid)) s
  = archive_and_remove now uid cid (tk_channel t) t "auto-close" s.
Proof.
  intros Hlook (user & notice & transcript & Hfetch & Hsend & Htr).
  pose proof (read_ticket_present _ _ _ _ Hlook) as Hread.
  unfold auto_close_one. unfold_monad. rewrite Hread. simpl.
  rewrite Hfetch. simpl. rewrite Hsend. simpl.
  rewrite create_transcript_run, Htr. simpl.
  destruct (tr_user_send tr (m_id user)); simpl; rewrite Hread; simpl;
    destruct (tr_channel_delete tr (ch_id (tk_channel t))); done.
Qed.

Lemma auto_close_one_failed uid cid t s :
  lookup_ticket uid cid (active_tickets s) = Some t →
  ¬ reap_goes_through cfg tr now uid t →
  store_after (auto_close_one cfg tr now (uid, cid)) s = s.
Proof.
  intros Hlook Hfail.
  pose proof (read_ticket_present _ _ _ _ Hlook) as Hread.
  unfold auto_close_one. unfold_monad. rewrite Hread. simpl.
  destruct (tr_fetch_user tr uid) as [user|] eqn:Hfetch; simpl; [|done].
  destruct (tr_channel_send tr (ch_id (tk_channel t))) as [notice|] eqn:Hsend;
    simpl; [|done].
  rewrite create_transcript_run.
  destruct (transcript_result cfg tr now (tk_channel t) user)
    as [transcript|] eqn:Htr; simpl; [|done].
  exfalso. apply Hfail. by exists user, notice, transcript.
Qed.
(** The closing of one idle ticket either leaves the stores alone or
    archives and removes that ticket; it never raises. *)
Lemma auto_close_one_cases uid cid s :
  ∃ s1 out, auto_close_one cfg tr now (uid, cid) s = (Ok tt, s1, out)
    ∧ (s1 = s
       ∨ ∃ t, s1 = archive_and_remove now uid cid (tk_channel t) t
                     "auto-close" s).
Proof.
  assert (∀ out : list effect, ∃ (s1 : store) (out' : list effect),
            (@Ok unit tt, s, out) = (Ok tt, s1, out')
            ∧ (s1 = s
               ∨ ∃ t, s1 = archive_and_remove now uid cid (tk_channel t) t
                             "auto-close" s)) as Hsame
    by (intros out; exists s, out; split; [done | by left]).
  destruct (lookup_ticket uid cid (active_tickets s)) as [t|] eqn:Hlook.
  - pose proof (read_ticket_present _ _ _ _ Hlook) as Hread.
    unfold auto_close_one. unfold_monad. rewrite Hread. simpl.
    destruct (tr_fetch_user tr uid) as [user|]; simpl; [|apply Hsame].
    destruct (tr_channel_send tr (ch_id (tk_channel t))); simpl;
      [|apply Hsame].
    rewrite create_transcript_run.
    destruct (transcript_result cfg tr now (tk_channel t) user); simpl;
      [|apply Hsame].
    destruct (tr_user_send tr (m_id user)); simpl; rewrite Hread; simpl;
      destruct (tr_channel_delete tr (ch_id (tk_channel t))); simpl;
      (do 2 eexists; split; [reflexivity|]; right; by exists t).
  - destruct (read_ticket_absent _ _ _ Hlook) as [e He].
    unfold auto_close_one. unfold_monad. rewrite He. simpl. apply Hsame.
Qed.

Lemma for_each_auto_close_cons x targets s :
  store_after (for_each (auto_close_one cfg tr now) (x :: targets)) s
  = store_after (for_each (auto_close_one cfg tr now) targets)
      (store_after (auto_close_one cfg tr now x) s)
  ∧ effects_of (for_each (auto_close_one cfg tr now) (x :: targets)) s
    = effects_of (auto_close_one cfg tr now x) s
      ++ effects_of (for_each (auto_close_one cfg tr now) targets)
           (store_after (auto_close_one cfg tr now x) s).
Proof.
  destruct x as [uid cid].
  destruct (auto_close_one_cases uid cid s) as (s1 & out & Hrun & _).
  unfold store_after, effects_of. cbn [for_each]. unfold mbind, M_bind, bind.
  rewrite Hrun. cbn [fst snd].
  by destruct (for_each (auto_close_one cfg tr now) targets s1) as [[r s2] out2].
Qed.

Lemma log_append_mono (r r' : closed_record) (k k' : string)
    (logs : gmap string (list closed_record)) :
  r ∈ default [] (logs !! k) → r ∈ default [] (append_log k' r' logs !! k).
Proof.
  intros Hin. unfold append_log.
  destruct (decide (k' = k)) as [->|Hne].
  - rewrite lookup_insert_eq. simpl. apply elem_of_app. by left.
  - by rewrite lookup_insert_ne.
Qed.

(** What one turn of the closing loop keeps. *)
Lemma auto_close_one_keeps target s :
  well_formed (active_tickets s) →
  let s1 := store_after (auto_close_one cfg tr now target) s in
  well_formed (active_tickets s1)
  ∧ (∀ uid cid, (uid, cid) ≠ target →
       lookup_ticket uid cid (active_tickets s1)
       = lookup_ticket uid cid (active_tickets s))
  ∧ (∀ uid cid, lookup_ticket uid cid (active_tickets s) = None →
       lookup_ticket uid cid (active_tickets s1) = None)
  ∧ (∀ r k, r ∈ default [] (ticket_logs s !! k) →
       r ∈ default [] (ticket_logs s1 !! k)).
Proof.
  intros Hwf s1. destruct target as [uid' cid'].
  destruct (auto_close_one_cases uid' cid' s) as (s1' & out & Hrun & Hcases).
  assert (s1 = s1') as -> by (subst s1; unfold store_after; by rewrite Hrun).
  destruct Hcases as [->|[t ->]]; [done|]. simpl. split_and!.
  - by apply well_formed_remove.
  - intros uid cid Hne. apply lookup_remove_other; [apply Hwf | done].
  - intros uid cid. apply lookup_remove_none, Hwf.
  - intros r k. apply log_append_mono.
Qed.

Lemma sweep_keeps targets s :
  well_formed (active_tickets s) →
  let s' := store_after (for_each (auto_close_one cfg tr now) targets) s in
  (∀ uid cid, (uid, cid) ∉ targets →
     lookup_ticket uid cid (active_tickets s')
     = lookup_ticket uid cid (active_tickets s))
  ∧ (∀ uid cid, lookup_ticket uid cid (active_tickets s) = None →
       lookup_ticket uid cid (active_tickets s') = None)
  ∧ (∀ r k, r ∈ default [] (ticket_logs s !! k) →
       r ∈ default [] (ticket_logs s' !! k)).
Proof.
  revert s. induction targets as [|x targets IH]; intros s Hwf; [done|].
  destruct (for_each_auto_close_cons x targets s) as [-> _].
  destruct (auto_close_one_keeps x s Hwf) as (Hwf1 & Hother & Hnone & Hlog).
  destruct (IH _ Hwf1) as (IHother & IHnone & IHlog).
  split_and!.
  - intros uid cid Hnotin. apply not_elem_of_cons in Hnotin as [Hne Hnotin].
    rewrite IHother; [by apply Hother | done].
  - intros uid cid Hlook. by apply IHnone, Hnone.
  - intros r k Hin. by apply IHlog, Hlog.
Qed.

(** A ticket on the list whose three transport steps return is closed by
    the sweep, whatever happens to the other tickets of the list. *)
Lemma sweep_closes targets uid cid t user notice transcript s :
  well_formed (active_tickets s) →
  lookup_ticket uid cid (active_tickets s) = Some t →
  (uid, cid) ∈ targets →
  tr_fetch_user tr uid = Ok user →
  tr_channel_send tr (ch_id (tk_channel t)) = Ok notice →
  transcript_result cfg tr now (tk_channel t) user = Ok transcript →
  let sweep := for_each (auto_close_one cfg tr now) targets in
  lookup_ticket uid cid (active_tickets (store_after sweep s)) = None
  ∧ closed_summary (tk_channel t) t now "auto-close"
    ∈ default [] (ticket_logs (store_after sweep s) !! pretty uid)
  ∧ ChannelSend (ch_id (tk_channel t)) PAutoClose ∈ effects_of sweep s
  ∧ (∀ dm, tr_user_send tr (m_id user) = Ok dm →
       UserSend (m_id user)
         (PAutoClosedDM ("transcript-" +:+ ch_name (tk_channel t) +:+ ".txt")
            transcript)
       ∈ effects_of sweep s).
Proof.
  intros Hwf Hlook Hin Hfetch Hsend Htr.
  revert s Hwf Hlook. induction targets as [|x targets IH]; intros s Hwf Hlook.
  { by apply elem_of_nil in Hin. }
  cbv zeta. destruct (for_each_auto_close_cons x targets s) as [-> ->].
  destruct (auto_close_one_keeps x s Hwf) as (Hwf1 & Hother & _ & _).
  destruct (decide (x = (uid, cid))) as [->|Hne].
  - assert (reap_goes_through cfg tr now uid t) as Hthrough
      by (by exists user, notice, transcript).
    pose proof (auto_close_one_done uid cid t s Hlook Hthrough) as Hs1.
    destruct (sweep_keeps targets _ Hwf1) as (_ & Hnone & Hlog).
    split_and!.
    + apply Hnone. rewrite Hs1. simpl.
      pose proof (remove_ticket_not_in_channels uid cid t _ (proj2 Hwf) Hlook)
        as Hgone.
      by apply absent_channel_not_found.
    + apply Hlog. rewrite Hs1. simpl. unfold append_log.
      rewrite lookup_insert_eq. simpl. apply elem_of_app. right.
      apply list_elem_of_here.
    + apply elem_of_app. left.
      pose proof (read_ticket_present _ _ _ _ Hlook) as Hread.
      unfold auto_close_one. unfold_monad. rewrite Hread. simpl.
      rewrite Hfetch. simpl. rewrite Hsend. simpl.
      rewrite create_transcript_run, Htr. simpl.
      destruct (tr_user_send tr (m_id user)); simpl; rewrite Hread; simpl;
        destruct (tr_channel_delete tr (ch_id (tk_channel t))); simpl;
        apply list_elem_of_here.
    + intros dm Hdm. apply elem_of_app. left.
      pose proof (read_ticket_present _ _ _ _ Hlook) as Hread.
      unfold auto_close_one. unfold_monad. rewrite Hread. simpl.
      rewrite Hfetch. simpl. rewrite Hsend. simpl.
      rewrite create_transcript_run, Htr. simpl. rewrite Hdm. simpl.
      rewrite Hread. simpl.
      destruct (tr_channel_delete tr (ch_id (tk_channel t))); simpl;
        apply list_elem_of_further, list_elem_of_here.
  - apply elem_of_cons in Hin as [Heq|Hin]; [congruence|].
    assert (lookup_ticket uid cid
              (active_tickets (store_after (auto_close_one cfg tr now x) s))
            = Some t) as Hlook1 by (rewrite Hother; done).
    pose proof (IH Hin _ Hwf1 Hlook1) as IH'. cbv zeta in IH'.
    destruct IH' as (H1 & H2 & H3 & H4).
    split_and!; [done | done | |].
    + apply elem_of_app. by right.
    + intros dm Hdm. apply elem_of_app. right. exact (H4 dm Hdm).
Qed.

(** A ticket one of whose three transport steps raises stays where it is. *)
Lemma sweep_failed targets uid cid t s :
  well_formed (active_tickets s) →
  lookup_ticket uid cid (active_tickets s) = Some t →
  ¬ reap_goes_through cfg tr now uid t →
  lookup_ticket uid cid
    (active_tickets
       (store_after (for_each (auto_close_one cfg tr now) targets) s))
  = Some t.
Proof.
  intros Hwf Hlook Hfail. revert s Hwf Hlook.
  induction targets as [|x targets IH]; intros s Hwf Hlook; [done|].
  destruct (for_each_auto_close_cons x targets s) as [-> _].
  destruct (auto_close_one_keeps x s Hwf) as (Hwf1 & Hother & _ & _).
  apply IH; [done|].
  destruct (decide (x = (uid, cid))) as [->|Hne].
  - by rewrite (auto_close_one_failed uid cid t s Hlook Hfail).
  - by rewrite Hother.
Qed.
End reaper.

Lemma unique_channels_entry uid d a :
  unique_channels a → (uid, d) ∈ a → NoDup (OD.keys d).
Proof.
  unfold unique_channels. induction a as [|[uid0 d0] a IH].
  - intros _ Hin. by apply elem_of_nil in Hin.
  - rewrite all_channels_cons. intros Hnd Hin.
    apply NoDup_app in Hnd as (Hd0 & _ & Ha).
    apply elem_of_cons in Hin as [[= -> ->]|Hin]; [done | by apply IH].
Qed.

(** The list [to_close] holds exactly the tickets that are due. *)
Lemma in_find_inactive cfg now a uid cid t :
  well_formed a → lookup_ticket uid cid a = Some t →
  (uid, cid) ∈ find_inactive cfg now a ↔ due cfg now t = true.
Proof.
  intros [Hk Hc] Hlook. unfold lookup_ticket in Hlook.
  destruct (OD.get uid a) as [d|] eqn:Hd; [|done].
  pose proof (ODFacts.get_Some_elem _ _ _ Hd) as Hin_a.
  pose proof (ODFacts.get_Some_elem _ _ _ Hlook) as Hin_d.
  unfold find_inactive. rewrite list_elem_of_In, in_flat_map. split.
  - intros ([uid' d'] & Hin' & Hin''). apply in_flat_map in Hin''.
    destruct Hin'' as ([cid' t'] & Hin_t & Hdue).
    destruct (due cfg now t') eqn:Ht'; [|by destruct Hdue].
    destruct Hdue as [[= <- <-]|[]].
    apply list_elem_of_In in Hin', Hin_t.
    rewrite (ODFacts.elem_get _ _ _ Hk Hin') in Hd. injection Hd as ->.
    rewrite (ODFacts.elem_get _ _ _ (unique_channels_entry _ _ _ Hc Hin_a) Hin_t)
      in Hlook.
    by injection Hlook as ->.
  - intros Hdue. exists (uid, d). split; [by apply list_elem_of_In|].
    apply in_flat_map. exists (cid, t). split; [by apply list_elem_of_In|].
    rewrite Hdue. by left.
Qed.

Lemma one_open_ticket_well_formed : well_formed (active_tickets one_open_ticket).
Proof.
  split; [|apply one_open_ticket_unique]. vm_compute. apply NoDup_singleton.
Qed.

(** The ticket channel was deleted by hand: the sweep cannot post its
    notice and leaves the idle ticket in the active index. *)
Lemma C6_reaper_counterexample : ¬ reaper_closes_every_due_ticket CONFIG.
Proof.
  intros Hclaim.
  destruct (Hclaim tr_channel_gone two_days_later one_open_ticket 1001 5000
              (new_ticket sample_time sample_channel "Support")
              one_open_ticket_well_formed eq_refl eq_refl) as [Hnone _].
  vm_compute in Hnone. discriminate Hnone.
Qed.

(** C6, amended. A ticket of the active index is closed by the sweep when it
    is due (not flagged closed, and idle for at least the configured number
    of hours) and the three transport steps its closing depends on return:
    fetching the owner, posting the notice in the channel, building the
    transcript.  It is then gone from the active index, its summary with
    [closed_by = "auto-close"] is in the owner's log, the notice was posted
    and the transcript was sent to the owner if the owner can be messaged.
    A due ticket for which one of the three steps raises stays in the active
    index unchanged, and so does every ticket that is not due. *)
Theorem C6_reaper_sweep (cfg : config) (tr : transport) (now : time)
    (s : store) (uid cid : Z) (t : ticket) :
  well_formed (active_tickets s) →
  lookup_ticket uid cid (active_tickets s) = Some t →
  let sweep := auto_close_tickets cfg tr now in
  let s' := store_after sweep s in
  (due cfg now t = true →
   ∀ user notice transcript,
     tr_fetch_user tr uid = Ok user →
     tr_channel_send tr (ch_id (tk_channel t)) = Ok notice →
     transcript_result cfg tr now (tk_channel t) user = Ok transcript →
     lookup_ticket uid cid (active_tickets s') = None
     ∧ closed_summary (tk_channel t) t now "auto-close"
       ∈ default [] (ticket_logs s' !! pretty uid)
     ∧ ChannelSend (ch_id (tk_channel t)) PAutoClose ∈ effects_of sweep s
     ∧ (∀ dm, tr_user_send tr (m_id user) = Ok dm →
          UserSend (m_id user)
            (PAutoClosedDM
               ("transcript-" +:+ ch_name (tk_channel t) +:+ ".txt") transcript)
          ∈ effects_of sweep s))
  ∧ (due cfg now t = true → ¬ reap_goes_through cfg tr now uid t →
     lookup_ticket uid cid (active_tickets s') = Some t)
  ∧ (due cfg now t = false →
     lookup_ticket uid cid (active_tickets s') = Some t).
Proof.
  intros Hwf Hlook sweep s'.
  assert (∀ s0, sweep s0
                = for_each (auto_close_one cfg tr now)
                    (find_inactive cfg now (active_tickets s0)) s0) as Hsweep.
  { intros s0. subst sweep. unfold auto_close_tickets. unfold_monad.
    by destruct (for_each _ _ s0) as [[r s1] out]. }
  assert (s' = store_after
                 (for_each (auto_close_one cfg tr now)
                    (find_inactive cfg now (active_tickets s))) s) as Hs'
    by (subst s'; unfold store_after; by rewrite Hsweep).
  assert (effects_of sweep s
          = effects_of
              (for_each (auto_close_one cfg tr now)
                 (find_inactive cfg now (active_tickets s))) s) as Heff
    by (unfold effects_of; by rewrite Hsweep).
  pose proof (in_find_inactive cfg now _ uid cid t Hwf Hlook) as Hin.
  split_and!.
  - intros Hdue user notice transcript Hfetch Hsend Htr.
    rewrite Hs', Heff.
    apply (sweep_closes cfg tr now _ uid cid t user notice transcript s);
      try done.
    by apply Hin.
  - intros _ Hfail. rewrite Hs'. by apply sweep_failed.
  - intros Hdue. rewrite Hs'.
    destruct (sweep_keeps cfg tr now (find_inactive cfg now (active_tickets s))
                s Hwf) as (Hother & _ & _).
    rewrite Hother; [done|]. rewrite Hin. congruence.
Qed.

Lemma C6_reaper_sweep_witness :
  lookup_ticket 1001 5000
    (active_tickets
       (store_after (auto_close_tickets CONFIG tr_ok two_days_later)
          one_open_ticket))
  = None.
Proof.
  refine (proj1 (proj1 (C6_reaper_sweep CONFIG tr_ok two_days_later
                          one_open_ticket 1001 5000
                          (new_ticket sample_time sample_channel "Support")
                          one_open_ticket_well_formed eq_refl)
                   eq_refl _ 9000 _ eq_refl eq_refl eq_refl)).
Defined.

(** ** Runs: the closed flag and the shape of the active index *)

(** The store that [create_ticket] leaves: the one it found, or that one
    with the new ticket inserted under the id of the created channel. *)
Lemma create_ticket_store cfg tr now user category_name message_content s :
  let attempt := create_ticket cfg tr now user category_name message_content in
  store_after attempt s = s
  ∨ ∃ cid,
      tr_create_text_channel tr (ticket_channel_name now user category_name)
      = Ok cid
      ∧ store_after attempt s
        = set_active
            (insert_ticket (m_id user) cid
               (new_ticket now
                  {| ch_id := cid;
                     ch_name := ticket_channel_name now user category_name |}
                  category_name)) s.
Proof.
  unfold create_ticket. unfold_monad. simpl.
  destruct (limit_reached cfg (m_id user) s); simpl; [by left|].
  destruct (decide (m_id user ∈ blacklisted_users s)); simpl; [by left|].
  destruct (tr_get_category tr); simpl; [|by left].
  destruct (tr_create_text_channel tr _) as [cid|] eqn:Hcid; simpl;
    [|by left].
  right. exists cid. split; [done|]. repeat split_result; done.
Qed.

Section odict_shape.
Context {K : Type} `{EqDecision K} {V : Type}.
Implicit Types (d : odict K V) (k : K) (v : V).

Lemma set_absent k v d : OD.get k d = None → OD.set k v d = d ++ [(k, v)].
Proof.
  induction d as [|[k0 v0] d IH]; simpl; [done|].
  destruct (decide (k = k0)); [done|]. intros Hget. by rewrite IH.
Qed.

Lemma keys_set_present k v v' d :
  OD.get k d = Some v' → OD.keys (OD.set k v d) = OD.keys d.
Proof.
  intros Hget. rewrite ODFacts.keys_set. unfold OD.mem. by rewrite Hget.
Qed.
End odict_shape.

Lemma all_open_update uid cid f a :
  keeps_flag f → all_open a → all_open (update_ticket uid cid f a).
Proof.
  intros Hf Ha. unfold update_ticket.
  destruct (OD.get uid a) as [d|] eqn:Hd; [|done].
  destruct (OD.get cid d) as [t|] eqn:Ht; [|done].
  pose proof (ODFacts.Forall_get _ _ _ _ Ha Hd) as Hopen. simpl in Hopen.
  apply ODFacts.Forall_set; [done|]. simpl.
  apply ODFacts.Forall_set; [done|]. simpl. rewrite Hf.
  apply (ODFacts.Forall_get _ _ _ _ Hopen Ht).
Qed.

Lemma all_open_remove uid cid a : all_open a → all_open (remove_ticket uid cid a).
Proof.
  intros Ha. unfold remove_ticket.
  destruct (OD.get uid a) as [d|] eqn:Hd; [|done].
  pose proof (ODFacts.Forall_get _ _ _ _ Ha Hd) as Hopen. simpl in Hopen.
  pose proof (ODFacts.Forall_del _ cid d Hopen) as Hdel.
  destruct (OD.del cid d) as [|e d'].
  - by apply ODFacts.Forall_del.
  - by apply ODFacts.Forall_set.
Qed.

Lemma all_open_insert uid cid t a :
  tk_closed t = false → all_open a → all_open (insert_ticket uid cid t a).
Proof.
  intros Ht Ha. unfold insert_ticket.
  destruct (OD.get uid a) as [d|] eqn:Hd.
  - pose proof (ODFacts.Forall_get _ _ _ _ Ha Hd) as Hopen. simpl in Hopen.
    apply ODFacts.Forall_set; [done|]. simpl. by apply ODFacts.Forall_set.
  - apply ODFacts.Forall_set; [done|]. simpl. by repeat constructor.
Qed.

Lemma all_open_lookup uid cid t a :
  all_open a → lookup_ticket uid cid a = Some t → tk_closed t = false.
Proof.
  intros Ha Hlook. unfold lookup_ticket in Hlook.
  destruct (OD.get uid a) as [d|] eqn:Hd; [|done].
  pose proof (ODFacts.Forall_get _ _ _ _ Ha Hd) as Hopen. simpl in Hopen.
  apply (ODFacts.Forall_get _ _ _ _ Hopen Hlook).
Qed.

(** Along a run without a press of the Archive button, no ticket of the
    active index ever has its closed flag set. *)
Lemma all_open_exec cfg steps :
  guarded cfg not_archive steps empty_store →
  all_open (active_tickets (exec cfg steps empty_store)).
Proof.
  intros Hguard.
  apply (stable_exec cfg (fun s => all_open (active_tickets s)))
    with (G := not_archive); [..|exact Hguard|constructor].
  - intros uid cid f s Hf Hs. by apply all_open_update.
  - intros uid cid s Hs. by apply all_open_remove.
  - intros f s Hs. exact Hs.
  - intros f s Hs. exact Hs.
  - intros f s Hs. exact Hs.
  - intros f s Hs. exact Hs.
  - intros st s user category_name request _ Hs _.
    destruct (create_ticket_store cfg (st_transport st) (st_now st) user
                category_name request s) as [->|(cid & _ & ->)]; [done|].
    by apply all_open_insert.
  - intros st s channel user Hnot _ Hev. by destruct (Hnot channel user).
Qed.

Lemma all_channels_update uid cid f a :
  OD.keys (update_ticket uid cid f a) = OD.keys a
  ∧ all_channels (update_ticket uid cid f a) = all_channels a.
Proof.
  unfold update_ticket.
  destruct (OD.get uid a) as [d|] eqn:Hd; [|done].
  destruct (OD.get cid d) as [t|] eqn:Ht; [|done].
  split; [by apply (keys_set_present _ _ d)|].
  destruct (get_split _ _ _ Hd) as (a1 & a2 & -> & Hnotin).
  rewrite (set_split uid d _ a1 a2 Hnotin), !all_channels_app,
    !all_channels_cons.
  by rewrite (keys_set_present _ _ t).
Qed.

Lemma well_formed_update uid cid f a :
  well_formed a → well_formed (update_ticket uid cid f a).
Proof.
  unfold well_formed, unique_channels.
  destruct (all_channels_update uid cid f a) as [-> ->]. done.
Qed.

Lemma well_formed_insert uid cid t a :
  cid ∉ all_channels a → well_formed a → well_formed (insert_ticket uid cid t a).
Proof.
  intros Hfresh [Hk Hc]. unfold insert_ticket. split.
  - destruct (OD.get uid a); by apply ODFacts.NoDup_keys_set.
  - unfold unique_channels in *.
    destruct (OD.get uid a) as [d|] eqn:Hd.
    + destruct (get_split _ _ _ Hd) as (a1 & a2 & -> & Hnotin).
      rewrite (set_split uid d _ a1 a2 Hnotin).
      rewrite !all_channels_app, !all_channels_cons in *.
      assert (OD.get cid d = None) as Hnone.
      { apply ODFacts.get_None_keys. intros Hin. apply Hfresh.
        rewrite !elem_of_app. tauto. }
      rewrite ODFacts.keys_set. unfold OD.mem. rewrite Hnone.
      eapply (NoDup_Permutation_proper _ (cid :: (all_channels a1
                                                     ++ OD.keys d
                                                     ++ all_channels a2))).
      { rewrite <- !app_assoc. simpl.
        rewrite (Permutation_middle (all_channels a1)).
        apply Permutation_app_head.
        by rewrite (Permutation_middle (OD.keys d)). }
      by apply NoDup_cons.
    + rewrite (set_absent _ _ _ Hd), all_channels_app. simpl.
      apply NoDup_app. split_and!; [done| |].
      * intros x Hx Hx'. apply list_elem_of_singleton in Hx' as ->. done.
      * apply NoDup_singleton.
Qed.

(** Along a run in which the transport hands a new channel to every
    created ticket, the active index stays well formed. *)
Lemma well_formed_exec cfg steps :
  guarded cfg fresh_channel steps empty_store →
  well_formed (active_tickets (exec cfg steps empty_store)).
Proof.
  intros Hguard.
  apply (stable_exec cfg (fun s => well_formed (active_tickets s)))
    with (G := fresh_channel); [..|exact Hguard|].
  - intros uid cid f s _ Hs. by apply well_formed_update.
  - intros uid cid s Hs. by apply well_formed_remove.
  - intros f s Hs. exact Hs.
  - intros f s Hs. exact Hs.
  - intros f s Hs. exact Hs.
  - intros f s Hs. exact Hs.
  - intros st s user category_name request Hfresh Hs Hev.
    destruct (create_ticket_store cfg (st_transport st) (st_now st) user
                category_name request s) as [->|(cid & Hcid & ->)]; [done|].
    apply well_formed_insert; [|done].
    by apply (Hfresh user category_name request).
  - intros st s channel user _ Hs _. revert s Hs.
    change (preserves (fun s => well_formed (active_tickets s))
              (archive_button (st_transport st) channel user)).
    unfold archive_button, write_ticket. repeat preserves_step; try done.
    by apply well_formed_update.
  - split; apply NoDup_nil_2.
Qed.

(** ** Archiving and closing *)

Lemma lookup_update_ticket uid cid f a :
  lookup_ticket uid cid (update_ticket uid cid f a)
  = f <$> lookup_ticket uid cid a.
Proof.
  unfold lookup_ticket, update_ticket.
  destruct (OD.get uid a) as [d|] eqn:Hd; [|by rewrite Hd].
  destruct (OD.get cid d) as [t|] eqn:Ht.
  - by rewrite !ODFacts.get_set_eq.
  - by rewrite Hd, Ht.
Qed.

Lemma archive_button_done tr channel user s t :
  lookup_ticket (m_id user) (ch_id channel) (active_tickets s) = Some t →
  tr_channel_edit tr (ch_id channel) = Ok tt →
  store_after (archive_button tr channel user) s
  = set_active (update_ticket (m_id user) (ch_id channel) (set_closed true)) s.
Proof.
  intros Hlook Hedit. unfold archive_button, write_ticket. unfold_monad.
  rewrite Hedit. simpl. unfold lookup_ticket in Hlook.
  destruct (OD.get (m_id user) (active_tickets s)) as [d|]; [|done].
  by rewrite Hlook.
Qed.

Lemma archive_button_failed tr channel user s e :
  tr_channel_edit tr (ch_id channel) = Raise e →
  store_after (archive_button tr channel user) s = s.
Proof.
  intros Hedit. unfold archive_button. unfold_monad. by rewrite Hedit.
Qed.

(** Staff archives Alice's ticket: its closed flag is set and it is still
    in the active index. *)
Lemma C4_archive_counterexample : ¬ closed_flag_means_removed CONFIG.
Proof.
  intros Hclaim.
  specialize (Hclaim opened_then_archived 1001 5000
                (set_closed true
                   (new_ticket sample_time sample_channel "Support"))
                eq_refl).
  discriminate Hclaim.
Qed.

(** C4, amended. The closed flag and the removal from the active index are
    separate.  The flag is set by the Archive action and by nothing else:
    along a run without it no ticket of the active index is ever flagged.
    The Archive action, when the channel edit returns, sets the flag and
    does nothing more: the ticket stays in the active index, no summary is
    appended, and the reaper never finds the ticket due again; when the edit
    raises nothing is written.  A close that goes through, of a flagged
    ticket as of any other, removes the ticket from the active index and
    appends its summary to the owner's log in the same step. *)
Theorem C4_archive_keeps_close_removes (cfg : config) :
  (∀ steps uid cid t,
     guarded cfg not_archive steps empty_store →
     lookup_ticket uid cid (active_tickets (exec cfg steps empty_store))
     = Some t →
     tk_closed t = false)
  ∧ (∀ tr now closer channel user s t,
       unique_channels (active_tickets s) →
       lookup_ticket (m_id user) (ch_id channel) (active_tickets s) = Some t →
       let archived := store_after (archive_button tr channel user) s in
       let closed :=
         store_after (actually_close_ticket cfg tr now closer channel user) s in
       (tr_channel_edit tr (ch_id channel) = Ok tt →
        lookup_ticket (m_id user) (ch_id channel) (active_tickets archived)
        = Some (set_closed true t)
        ∧ ticket_logs archived = ticket_logs s
        ∧ ∀ later, due cfg later (set_closed true t) = false)
       ∧ (∀ e, tr_channel_edit tr (ch_id channel) = Raise e → archived = s)
       ∧ (close_goes_through cfg tr now channel user →
          lookup_ticket (m_id user) (ch_id channel) (active_tickets closed)
          = None
          ∧ ticket_logs closed
            = append_log (pretty (m_id user))
                (closed_summary channel t now (pretty (m_id closer)))
                (ticket_logs s))).
Proof.
  split.
  - intros steps uid cid t Hguard Hlook.
    by apply (all_open_lookup uid cid t _ (all_open_exec cfg steps Hguard)).
  - intros tr now closer channel user s t Huniq Hlook archived closed.
    split_and!.
    + intros Hedit. subst archived.
      rewrite (archive_button_done _ _ _ _ _ Hlook Hedit). simpl.
      rewrite lookup_update_ticket, Hlook. done.
    + intros e Hedit. by apply (archive_button_failed _ _ _ _ e).
    + intros Hthrough. subst closed.
      rewrite (close_present _ _ _ _ _ _ _ _ Hlook Hthrough). simpl.
      split; [|done].
      by apply absent_channel_not_found,
           (remove_ticket_not_in_channels _ _ t).
Qed.

Lemma C4_archive_keeps_close_removes_witness :
  lookup_ticket 1001 5000
    (active_tickets
       (store_after (archive_button tr_ok sample_channel alice) one_open_ticket))
  = Some (set_closed true (new_ticket sample_time sample_channel "Support")).
Proof.
  refine (proj1 (proj1 (proj2 (C4_archive_keeps_close_removes CONFIG)
                          tr_ok sample_time bob sample_channel alice
                          one_open_ticket
                          (new_ticket sample_time sample_channel "Support")
                          one_open_ticket_unique eq_refl)
                   eq_refl)).
Defined.

(** ** Strings *)

Lemma Ok_inj {A} (a b : A) : Ok a = Ok b → a = b.
Proof. congruence. Qed.

Lemma string_app_cons (c : Ascii.ascii) (s1 s2 : string) :
  String c s1 +:+ s2 = String c (s1 +:+ s2).
Proof. reflexivity. Qed.

Lemma string_app_nil_r (s : string) : s +:+ "" = s.
Proof.
  induction s as [|c s IH]; [done|]. by rewrite string_app_cons, IH.
Qed.

Lemma string_app_assoc (s1 s2 s3 : string) :
  (s1 +:+ s2) +:+ s3 = s1 +:+ (s2 +:+ s3).
Proof.
  induction s1 as [|c s1 IH]; [done|]. by rewrite !string_app_cons, IH.
Qed.

Lemma string_app_length (s1 s2 : string) :
  String.length (s1 +:+ s2) = (String.length s1 + String.length s2)%nat.
Proof.
  induction s1 as [|c s1 IH]; [done|]. rewrite string_app_cons. simpl.
  by rewrite IH.
Qed.

Lemma string_app_inv_tail (s1 s2 s : string) : s1 +:+ s = s2 +:+ s → s1 = s2.
Proof.
  revert s2. induction s1 as [|c1 s1 IH]; intros [|c2 s2] Heq.
  - done.
  - apply (f_equal String.length) in Heq.
    rewrite !string_app_length in Heq. simpl in Heq. lia.
  - apply (f_equal String.length) in Heq.
    rewrite !string_app_length in Heq. simpl in Heq. lia.
  - rewrite !string_app_cons in Heq. injection Heq as -> Heq.
    f_equal. by apply IH.
Qed.

(** ** The transcript *)

Section transcript.
Context (cfg : config).

Lemma appends_fold_left {A} (step : string → A → string) (l : list A) :
  (∀ x, appends (fun acc => step acc x)) →
  appends (fun acc => fold_left step l acc).
Proof.
  intros Hstep. induction l as [|x l IH]; intros acc; simpl.
  - by rewrite string_app_nil_r.
  - rewrite (IH (step acc x)), (IH (step "" x)), (Hstep x acc).
    apply string_app_assoc.
Qed.

Lemma appends_transcript_embed e : appends (fun acc => transcript_embed acc e).
Proof.
  intros acc. unfold transcript_embed.
  pose proof (appends_fold_left
                (fun acc '(name, value) => acc +:+ (name +:+ ": " +:+ value +:+ nl))
                (em_fields e)) as Hfold.
  rewrite Hfold; [|by intros [name value] acc'].
  destruct (decide (em_description e = "")); [done|].
  symmetry. rewrite Hfold; [|by intros [name value] acc'].
  simpl. by rewrite !string_app_assoc.
Qed.

Lemma appends_transcript_entry roles m :
  appends (fun acc => transcript_entry cfg roles acc m).
Proof.
  intros acc. unfold transcript_entry.
  set (line := "[" +:+ _).
  pose (cont := fun start =>
          if decide (msg_content m = "") then start
          else start +:+ (msg_content m +:+ nl)).
  pose (emb := fun start => fold_left transcript_embed (msg_embeds m) start).
  pose (atts := fun start =>
          match msg_attachments m with
          | [] => start
          | atts =>
              fold_left
                (fun acc a => acc +:+ ("- " +:+ at_filename a +:+ " ("
                                         +:+ at_url a +:+ ")" +:+ nl))
                atts (start +:+ ("Attachments:" +:+ nl))
          end).
  change (atts (emb (cont (acc +:+ line))) +:+ nl
          = acc +:+ (atts (emb (cont line)) +:+ nl)).
  assert (appends cont) as Hcont.
  { intros start. subst cont. simpl.
    destruct (decide (msg_content m = ""));
      [by rewrite string_app_nil_r | done]. }
  assert (appends emb) as Hemb.
  { apply appends_fold_left, appends_transcript_embed. }
  assert (appends atts) as Hatts.
  { intros start. subst atts. simpl.
    pose proof (appends_fold_left
                  (fun acc a => acc +:+ ("- " +:+ at_filename a +:+ " ("
                                           +:+ at_url a +:+ ")" +:+ nl))
               ) as Hfold.
    destruct (msg_attachments m) as [|a l].
    - by rewrite string_app_nil_r.
    - rewrite (Hfold l); [|by intros x acc'].
      symmetry. rewrite (Hfold l); [|by intros x acc'].
      by rewrite !string_app_assoc. }
  rewrite (Hatts (emb _)), (Hemb (cont _)), (Hcont (acc +:+ line)).
  rewrite (Hatts (emb (cont line))), (Hemb (cont line)), (Hcont line).
  by rewrite !string_app_assoc.
Qed.

Lemma transcript_message_prefix acc m :
  transcript_message cfg acc m
  = match transcript_message cfg "" m with
    | Ok body => Ok (acc +:+ body)
    | Raise e => Raise e
    end.
Proof.
  unfold transcript_message.
  destruct (m_bot (msg_author m) && bool_decide (0 < length (msg_embeds m))%nat
            && msg_pinned m).
  { by rewrite string_app_nil_r. }
  destruct (m_roles (msg_author m)) as [roles|]; [|done].
  f_equal. apply (appends_transcript_entry roles m).
Qed.

Lemma transcript_loop_prefix messages acc :
  transcript_loop cfg messages acc
  = match transcript_body cfg messages with
    | Ok body => Ok (acc +:+ body)
    | Raise e => Raise e
    end.
Proof.
  unfold transcript_body. revert acc.
  induction messages as [|m messages IH]; intros acc; simpl.
  - by rewrite string_app_nil_r.
  - rewrite (transcript_message_prefix acc m).
    destruct (transcript_message cfg "" m) as [line|e]; [|done].
    rewrite (IH (acc +:+ line)), (IH line).
    destruct (transcript_loop cfg messages "") as [body|e]; [|done].
    by rewrite string_app_assoc.
Qed.

(** The header differs exactly when the clock readings print differently. *)
Lemma transcript_header_inj now1 now2 channel user body :
  transcript_header now1 channel user +:+ body
  = transcript_header now2 channel user +:+ body →
  strftime now1 = strftime now2.
Proof.
  intros Heq. apply string_app_inv_tail in Heq.
  unfold transcript_header in Heq.
  apply string_app_inv_tail in Heq.
  apply (inj (String.append _)) in Heq.
  apply (inj (String.append "Created at: ")) in Heq.
  by apply string_app_inv_tail in Heq.
Qed.
End transcript.

(** The same empty history rendered one second apart: the two transcripts
    differ in their [Created at:] line. *)
Lemma C5_transcript_counterexample : ¬ transcript_independent_of_clock CONFIG.
Proof.
  intros Hclaim.
  specialize (Hclaim tr_ok sample_time a_second_later sample_channel alice).
  vm_compute in Hclaim. discriminate Hclaim.
Qed.

(** C5, amended. [create_transcript] touches no store and sends nothing,
    and its result is the header followed by a body that is a function of
    the channel history (and of the staff roles) alone.  The header carries
    the clock reading of the invocation, printed to the second: two
    invocations over the same history, for the same channel and user, give
    the same transcript if their clock readings print alike, and, when the
    history can be rendered, only then. *)
Theorem C5_transcript_clock (cfg : config) (tr : transport) (now1 now2 : time)
    (channel : channel) (user : member) :
  (∀ now s,
     create_transcript cfg tr now channel user s
     = (transcript_result cfg tr now channel user, s, []))
  ∧ (∀ messages body,
       tr_history tr (ch_id channel) = Ok messages →
       transcript_body cfg messages = Ok body →
       ∀ now,
         transcript_result cfg tr now channel user
         = Ok (transcript_header now channel user +:+ body))
  ∧ (strftime now1 = strftime now2 →
     transcript_result cfg tr now1 channel user
     = transcript_result cfg tr now2 channel user)
  ∧ (∀ transcript,
       transcript_result cfg tr now1 channel user = Ok transcript →
       transcript_result cfg tr now1 channel user
       = transcript_result cfg tr now2 channel user →
       strftime now1 = strftime now2).
Proof.
  split_and!.
  - intros now s. apply create_transcript_run.
  - intros messages body Hhist Hbody now. unfold transcript_result.
    by rewrite Hhist, transcript_loop_prefix, Hbody.
  - intros Heq. unfold transcript_result, transcript_header.
    by rewrite Heq.
  - intros transcript. unfold transcript_result.
    destruct (tr_history tr (ch_id channel)) as [messages|e]; [|done].
    rewrite !transcript_loop_prefix.
    destruct (transcript_body cfg messages) as [body|e]; [|done].
    intros _ Heq. apply Ok_inj in Heq. by apply transcript_header_inj in Heq.
Qed.

Lemma C5_transcript_clock_witness :
  strftime sample_time = strftime (sample_time + 1)
  ∧ transcript_result CONFIG tr_ok sample_time sample_channel alice
    = transcript_result CONFIG tr_ok (sample_time + 1) sample_channel alice.
Proof.
  assert (strftime sample_time = strftime (sample_time + 1)) as Heq
    by reflexivity.
  split; [exact Heq|].
  exact (proj1 (proj2 (proj2 (C5_transcript_clock CONFIG tr_ok sample_time
                                (sample_time + 1) sample_channel alice)))
           Heq).
Defined.

(** ** The welcome throttle *)

Section welcome.
Context (cfg : config).

(** An attempt for a user without a recent greeting sends when the direct
    message goes out, and then records its clock reading. *)
Lemma send_welcome_message_sends tr now user s dm :
  (∀ last, user_welcome_timestamps s !! m_id user = Some last →
           within_cooldown cfg now last = false) →
  tr_user_send tr (m_id user) = Ok dm →
  send_welcome_message cfg tr now user s
  = (Ok tt, set_welcome (fun t => <[m_id user := now]> t) s,
     [UserSend (m_id user) PWelcome]).
Proof.
  intros Hfree Hdm. unfold send_welcome_message, greet. unfold_monad.
  destruct (user_welcome_timestamps s !! m_id user) as [last|] eqn:Hlast;
    [rewrite (Hfree last eq_refl)|]; by rewrite Hdm.
Qed.

(** An attempt within the cooldown of the recorded greeting does nothing. *)
Lemma send_welcome_message_suppressed tr now user s last :
  user_welcome_timestamps s !! m_id user = Some last →
  within_cooldown cfg now last = true →
  send_welcome_message cfg tr now user s = (Ok tt, s, []).
Proof.
  intros Hlast Hcool. unfold send_welcome_message. unfold_monad.
  by rewrite Hlast, Hcool.
Qed.

(** An attempt outside the cooldown of the recorded greeting goes on to
    the send. *)
Lemma send_welcome_message_proceeds tr now user s last :
  user_welcome_timestamps s !! m_id user = Some last →
  within_cooldown cfg now last = false →
  send_welcome_message cfg tr now user s = greet tr now user s.
Proof.
  intros Hlast Hcool. unfold send_welcome_message. unfold_monad.
  rewrite Hlast, Hcool. by destruct (greet tr now user s) as [[r s'] out].
Qed.

(** An attempt that sent has recorded its clock reading. *)
Lemma send_welcome_message_sent tr now user s :
  effects_of (send_welcome_message cfg tr now user) s
  = [UserSend (m_id user) PWelcome] →
  store_after (send_welcome_message cfg tr now user) s
  = set_welcome (fun t => <[m_id user := now]> t) s.
Proof.
  unfold send_welcome_message, greet. unfold_monad.
  destruct (user_welcome_timestamps s !! m_id user) as [last|];
    [destruct (within_cooldown cfg now last); [done|]|];
    by destruct (tr_user_send tr (m_id user)).
Qed.
End welcome.

Lemma run_send_welcome_message_task cfg tr now user s :
  run_task (send_welcome_message_task cfg tr now user) s
  = send_welcome_message cfg tr now user s.
Proof.
  unfold send_welcome_message, greet. simpl. unfold_monad. simpl.
  destruct (user_welcome_timestamps s !! m_id user) as [last|]; simpl;
    [destruct (within_cooldown cfg now last); simpl; [done|]|];
    by destruct (tr_user_send tr (m_id user)).
Qed.





(** ** Forwarding and its failures *)

Section forwarding.
Context (cfg : config) (tr : transport) (now : time).

(** User to staff, the send into the ticket channel raises: the activity
    timestamp has been advanced, no entry is logged, and the user is told. *)
Lemma forward_to_channel_failed message channel s owner e :
  find_channel (ch_id channel) (active_tickets s) = Some owner →
  tr_channel_send tr (ch_id channel) = Raise e →
  store_after (forward_to_channel cfg tr now message channel) s
  = set_active (update_ticket owner (ch_id channel) (set_last_activity now)) s
  ∧ (∀ notice, tr_channel_send tr (msg_channel message) = Ok notice →
       effects_of (forward_to_channel cfg tr now message channel) s
       = [ LoggerError ("Error forwarding message to channel: " +:+ e);
           ChannelSend (msg_channel message)
             (PText ("Error sending your message: " +:+ e
                       +:+ ". Please try again later.")) ]).
Proof.
  intros Hfind Hsend. unfold forward_to_channel. unfold_monad.
  rewrite Hfind. simpl. rewrite Hsend. simpl. split.
  - by destruct (tr_channel_send tr (msg_channel message)).
  - intros notice Hnotice. by rewrite Hnotice.
Qed.

(** User to staff, the send into the ticket channel returns: the entry is
    logged, whatever the reactions that follow do. *)
Lemma forward_to_channel_delivered message channel s owner ticket_msg :
  find_channel (ch_id channel) (active_tickets s) = Some owner →
  tr_channel_send tr (ch_id channel) = Ok ticket_msg →
  active_tickets (store_after (forward_to_channel cfg tr now message channel) s)
  = update_ticket owner (ch_id channel)
      (append_message (user_entry now message ticket_msg))
      (update_ticket owner (ch_id channel) (set_last_activity now)
         (active_tickets s)).
Proof.
  intros Hfind Hsend. unfold forward_to_channel. unfold_monad.
  rewrite Hfind. simpl. rewrite Hsend. simpl.
  destruct (tr_add_reaction tr ticket_msg CheckMark); simpl;
    [|by destruct (tr_channel_send tr (msg_channel message))].
  destruct (tr_add_reaction tr ticket_msg ReplyArrow); simpl;
    [|by destruct (tr_channel_send tr (msg_channel message))].
  destruct (tr_add_reaction tr ticket_msg Memo); simpl;
    [|by destruct (tr_channel_send tr (msg_channel message))].
  destruct (tr_add_reaction tr (msg_id message) CheckMark); simpl;
    [|by destruct (tr_channel_send tr (msg_channel message))].
  by destruct (msg_attachments message).
Qed.

(** Staff to user: the entry is logged before the relay is tried, and a
    relay that raises is reported in the ticket channel. *)
Lemma on_channel_message_logged message s owner t0 :
  find_open_ticket (msg_channel message) (active_tickets s) None
  = Some (owner, t0) →
  owner ≠ 0 →
  active_tickets (store_after (on_channel_message cfg tr now message) s)
  = update_ticket owner (msg_channel message)
      (fun t => append_message (staff_entry now message)
                  (set_last_activity now t))
      (active_tickets s)
  ∧ (∀ e notice,
       relay_error tr owner message = Some e →
       tr_channel_send tr (msg_channel message) = Ok notice →
       ChannelSend (msg_channel message)
         (PText ("Error sending message to user: " +:+ e))
       ∈ effects_of (on_channel_message cfg tr now message) s).
Proof.
  intros Hfound Hnonzero. unfold on_channel_message, relay_error.
  unfold_monad. rewrite Hfound. simpl.
  assert ((owner =? 0) = false) as -> by (by apply Z.eqb_neq). simpl.
  destruct (tr_fetch_user tr owner) as [user|e0]; simpl.
  - destruct (tr_user_send tr (m_id user)) as [dm|e1]; simpl.
    + destruct (tr_add_reaction tr (msg_id message) CheckMark) as [|e2]; simpl.
      * split; [done | intros e notice [=]].
      * split; [by destruct (tr_channel_send tr (msg_channel message))|].
        intros e notice [= ->] ->. simpl. set_solver.
    + split; [by destruct (tr_channel_send tr (msg_channel message))|].
      intros e notice [= ->] ->. simpl. set_solver.
  - split; [by destruct (tr_channel_send tr (msg_channel message))|].
    intros e notice [= ->] ->. simpl. set_solver.
Qed.
End forwarding.

(** Alice writes into her ticket whose channel is gone: she gets the error
    notice, and the ticket's log stays empty. *)
Lemma C8_forward_counterexample : ¬ forward_logs_attempted_sends CONFIG.
Proof.
  intros Hclaim.
  destruct (Hclaim tr_channel_gone (sample_time + 5) alice_says_hello
              sample_channel one_open_ticket 1001
              (new_ticket sample_time sample_channel "Support")
              "404 Not Found (error code: 10003): Unknown Channel"
              eq_refl eq_refl eq_refl) as (t' & entry & Hlook & Hlog & _).
  vm_compute in Hlook. injection Hlook as <-.
  simpl in Hlog. discriminate Hlog.
Qed.

(** C8, amended. The two directions differ.  A staff message in a ticket
    channel is logged before the relay to the owner is tried: whatever the
    transport does, the entry is in the ticket's log afterwards, and a relay
    that raises is reported in the ticket channel.  A user's direct message
    is logged only once the send into the ticket channel has returned (the
    entry stores the id of the delivered message): when that send raises,
    the user is told, the activity timestamp has been advanced and no entry
    is logged; when it returns, the entry is logged and stays, whatever the
    reactions that follow do. *)
Theorem C8_forwarding_log (cfg : config) (tr : transport) (now : time)
    (message : message) (s : store) (owner : Z) (t : ticket) :
  (∀ t0,
     find_open_ticket (msg_channel message) (active_tickets s) None
     = Some (owner, t0) →
     owner ≠ 0 →
     lookup_ticket owner (msg_channel message) (active_tickets s) = Some t →
     let relay := on_channel_message cfg tr now message in
     lookup_ticket owner (msg_channel message)
       (active_tickets (store_after relay s))
     = Some (append_message (staff_entry now message) (set_last_activity now t))
     ∧ (∀ e notice,
          relay_error tr owner message = Some e →
          tr_channel_send tr (msg_channel message) = Ok notice →
          ChannelSend (msg_channel message)
            (PText ("Error sending message to user: " +:+ e))
          ∈ effects_of relay s))
  ∧ (∀ channel,
       find_channel (ch_id channel) (active_tickets s) = Some owner →
       lookup_ticket owner (ch_id channel) (active_tickets s) = Some t →
       let forward := forward_to_channel cfg tr now message channel in
       (∀ e,
          tr_channel_send tr (ch_id channel) = Raise e →
          lookup_ticket owner (ch_id channel)
            (active_tickets (store_after forward s))
          = Some (set_last_activity now t)
          ∧ (∀ notice,
               tr_channel_send tr (msg_channel message) = Ok notice →
               effects_of forward s
               = [ LoggerError ("Error forwarding message to channel: " +:+ e);
                   ChannelSend (msg_channel message)
                     (PText ("Error sending your message: " +:+ e
                               +:+ ". Please try again later.")) ]))
       ∧ (∀ ticket_msg,
            tr_channel_send tr (ch_id channel) = Ok ticket_msg →
            lookup_ticket owner (ch_id channel)
              (active_tickets (store_after forward s))
            = Some (append_message (user_entry now message ticket_msg)
                      (set_last_activity now t)))).
Proof.
  split.
  - intros t0 Hfound Hnonzero Hlook relay.
    destruct (on_channel_message_logged cfg tr now message s owner t0
                Hfound Hnonzero) as [Hstore Hnotice].
    split; [|exact Hnotice].
    subst relay. by rewrite Hstore, lookup_update_ticket, Hlook.
  - intros channel Hfind Hlook forward. split.
    + intros e Hsend.
      destruct (forward_to_channel_failed cfg tr now message channel s owner e
                  Hfind Hsend) as [Hstore Hnotice].
      split; [|exact Hnotice].
      subst forward. rewrite Hstore. simpl.
      by rewrite lookup_update_ticket, Hlook.
    + intros ticket_msg Hsend. subst forward.
      rewrite (forward_to_channel_delivered cfg tr now message channel s owner
                 ticket_msg Hfind Hsend).
      by rewrite !lookup_update_ticket, Hlook.
Qed.

Lemma C8_forwarding_log_witness :
  lookup_ticket 1001 5000
    (active_tickets
       (store_after
          (on_channel_message CONFIG tr_dm_closed (sample_time + 9) bob_replies)
          one_open_ticket))
  = Some (append_message (staff_entry (sample_time + 9) bob_replies)
            (set_last_activity (sample_time + 9)
               (new_ticket sample_time sample_channel "Support"))).
Proof.
  refine (proj1 (proj1 (C8_forwarding_log CONFIG tr_dm_closed (sample_time + 9)
                          bob_replies one_open_ticket 1001
                          (new_ticket sample_time sample_channel "Support"))
                   (new_ticket sample_time sample_channel "Support")
                   eq_refl _ eq_refl)).
  discriminate.
Defined.

(** ** Routing of direct messages *)

Section routing.
Context (cfg : config) (tr : transport) (now : time).

(** Forwarding never shows the selection prompt. *)
Lemma forward_to_channel_no_prompt message channel s :
  Forall (fun e => is_select_prompt e = false)
    (effects_of (forward_to_channel cfg tr now message channel) s).
Proof.
  unfold forward_to_channel, send_welcome_message, greet. unfold_monad.
  destruct (find_channel (ch_id channel) (active_tickets s)); simpl.
  - repeat split_result; try (destruct (msg_attachments message); simpl);
      repeat constructor.
  - destruct (tr_channel_send tr (msg_channel message)); simpl;
      [|repeat constructor].
    destruct (user_welcome_timestamps s !! m_id (msg_author message)); simpl;
      [destruct (within_cooldown cfg now t); simpl|];
      repeat split_result; repeat constructor.
Qed.

(** The reference of the message is read by the test for the prompt and by
    nothing else. *)
Lemma forward_to_channel_reference reference message channel s :
  forward_to_channel cfg tr now (with_reference reference message) channel s
  = forward_to_channel cfg tr now message channel s.
Proof. reflexivity. Qed.

(** A reply of a user with several tickets goes straight to the forwarding
    loop. *)
Lemma on_message_reply bot_id message s tickets reference :
  routed_direct_message message s →
  OD.get (m_id (msg_author message)) (active_tickets s) = Some tickets →
  msg_reference message = Some reference →
  on_message cfg tr now bot_id message s
  = forward_to_first_open cfg tr now message tickets s.
Proof.
  intros (Hbot & Hcmd & Hdm & Hbl) Hget Href.
  unfold on_message, on_direct_message. rewrite Hbot, Hcmd, Hdm. simpl.
  unfold mbind, M_bind, bind, get_store.
  destruct (decide (m_id (msg_author message) ∈ blacklisted_users s));
    [done|].
  rewrite Hget, Href. simpl. rewrite andb_false_r.
  by destruct (forward_to_first_open cfg tr now message tickets s)
    as [[r s'] out].
Qed.
End routing.

(** In a well-formed active index the scan of [forward_to_channel] finds a
    ticket under its owner. *)
Lemma find_channel_owner uid cid t a :
  well_formed a → lookup_ticket uid cid a = Some t →
  find_channel cid a = Some uid.
Proof.
  intros [Hk Hc] Hlook. unfold lookup_ticket in Hlook.
  destruct (OD.get uid a) as [d|] eqn:Hd; [|done].
  destruct (get_split _ _ _ Hd) as (a1 & a2 & -> & Hnotin).
  unfold unique_channels in Hc.
  rewrite all_channels_app, all_channels_cons in Hc.
  apply NoDup_app in Hc as (_ & Hdisj & _).
  assert (cid ∈ OD.keys d) as Hin.
  { destruct (decide (cid ∈ OD.keys d)) as [|Hno]; [done|].
    apply ODFacts.get_None_keys in Hno. congruence. }
  assert (cid ∉ all_channels a1) as Hno1.
  { intros Hc1. apply (Hdisj _ Hc1). apply elem_of_app. by left. }
  clear -Hno1 Hlook. induction a1 as [|[uid0 d0] a1 IH]; simpl.
  - unfold OD.mem. by rewrite Hlook.
  - rewrite all_channels_cons, elem_of_app in Hno1.
    assert (OD.get cid d0 = None) as Hget0
      by (apply ODFacts.get_None_keys; tauto).
    unfold OD.mem at 1. rewrite Hget0. apply IH. tauto.
Qed.

Lemma first_open_elem tickets cid t :
  first_open tickets = Some (cid, t) → (cid, t) ∈ tickets ∧ tk_closed t = false.
Proof.
  unfold first_open. intros Hfind. apply find_some in Hfind as [Hin Hopen].
  split; [by apply list_elem_of_In | by apply negb_true_iff].
Qed.

(** C10. A direct message that gets to the routing (sent by a user, not a
    command, author not blacklisted), from a user who holds more than one
    ticket and carrying a message reference, is not answered by the
    selection prompt: it is forwarded to the first ticket of the owner's
    dictionary, in iteration order, that is not flagged closed (and dropped
    when all are flagged), whatever the reference points to.  In a
    well-formed active index whose tickets are filed under the id of their
    channel, the forward is the send into that ticket's channel and the
    entry in that ticket's log. *)
Theorem C10_reply_goes_to_first_open (cfg : config) (tr : transport)
    (now : time) (bot_id : Z) (message : message) (s : store)
    (tickets : odict Z ticket) (reference : Z) :
  routed_direct_message message s →
  OD.get (m_id (msg_author message)) (active_tickets s) = Some tickets →
  1 < OD.len tickets →
  msg_reference message = Some reference →
  let routed := on_message cfg tr now bot_id message in
  Forall (fun e => is_select_prompt e = false) (effects_of routed s)
  ∧ (first_open tickets = None → routed s = (Ok tt, s, []))
  ∧ (∀ cid t, first_open tickets = Some (cid, t) →
       routed s = forward_to_channel cfg tr now message (tk_channel t) s)
  ∧ (∀ other,
       on_message cfg tr now bot_id (with_reference (Some other) message) s
       = routed s)
  ∧ (∀ cid t ticket_msg,
       first_open tickets = Some (cid, t) →
       well_formed (active_tickets s) →
       ch_id (tk_channel t) = cid →
       tr_channel_send tr cid = Ok ticket_msg →
       ChannelSend cid
         (PForward (m_id (msg_author message)) (msg_content message)
            (attachment_urls message))
       ∈ effects_of routed s
       ∧ lookup_ticket (m_id (msg_author message)) cid
           (active_tickets (store_after routed s))
         = Some (append_message (user_entry now message ticket_msg)
                   (set_last_activity now t))).
Proof.
  intros Hrouted Hget Hlen Href routed.
  assert (routed s = forward_to_first_open cfg tr now message tickets s)
    as Hrun by (by apply (on_message_reply cfg tr now bot_id message s tickets
                            reference)).
  assert (∀ cid t, first_open tickets = Some (cid, t) →
            routed s = forward_to_channel cfg tr now message (tk_channel t) s)
    as Hforward.
  { intros cid t Hfirst. rewrite Hrun. unfold forward_to_first_open.
    by rewrite Hfirst. }
  split_and!.
  - unfold effects_of. rewrite Hrun. unfold forward_to_first_open.
    destruct (first_open tickets) as [[cid t]|].
    + apply forward_to_channel_no_prompt.
    + constructor.
  - intros Hnone. rewrite Hrun. unfold forward_to_first_open.
    by rewrite Hnone.
  - exact Hforward.
  - intros other. rewrite Hrun.
    rewrite (on_message_reply cfg tr now bot_id
               (with_reference (Some other) message) s tickets other);
      [|done..].
    unfold forward_to_first_open.
    by destruct (first_open tickets) as [[cid t]|].
  - intros cid t ticket_msg Hfirst Hwf Hkey Hsend.
    destruct (first_open_elem _ _ _ Hfirst) as [Hin _].
    assert (NoDup (OD.keys tickets)) as Hnd.
    { apply (unique_channels_entry (m_id (msg_author message)) tickets
               (active_tickets s) (proj2 Hwf)).
      by apply ODFacts.get_Some_elem. }
    assert (lookup_ticket (m_id (msg_author message)) cid (active_tickets s)
            = Some t) as Hlook.
    { unfold lookup_ticket. rewrite Hget. by apply ODFacts.elem_get. }
    pose proof (find_channel_owner _ _ _ _ Hwf Hlook) as Hfind.
    unfold effects_of, store_after. rewrite (Hforward cid t Hfirst).
    split.
    + unfold forward_to_channel. unfold_monad. rewrite Hkey, Hfind. simpl.
      rewrite Hsend. simpl.
      repeat split_result; try (destruct (msg_attachments message); simpl);
        apply list_elem_of_here.
    + pose proof (forward_to_channel_delivered cfg tr now message
                    (tk_channel t) s (m_id (msg_author message)) ticket_msg)
        as Hdelivered.
      rewrite Hkey in Hdelivered. unfold store_after in Hdelivered.
      rewrite (Hdelivered Hfind Hsend), !lookup_update_ticket, Hlook. done.
Qed.

Lemma two_tickets_routed :
  routed_direct_message alice_replies two_tickets_first_archived.
Proof. repeat split. apply not_elem_of_empty. Qed.

Lemma C10_reply_goes_to_first_open_witness :
  on_message CONFIG_two tr_ok (sample_time + 5) 42 alice_replies
    two_tickets_first_archived
  = forward_to_channel CONFIG_two tr_ok (sample_time + 5) alice_replies
      billing_channel two_tickets_first_archived.
Proof.
  refine (proj1 (proj2 (proj2
            (C10_reply_goes_to_first_open CONFIG_two tr_ok (sample_time + 5) 42
               alice_replies two_tickets_first_archived _ 9000
               two_tickets_routed eq_refl _ eq_refl)))
            5001 (new_ticket (sample_time + 1) billing_channel "Billing")
            eq_refl).
  reflexivity.
Defined.

(** * Further properties of the handlers *)

(** ** Ticket creation: the path on which every call returns *)

Lemma lookup_insert_ticket_other uid cid t uid' cid' a :
  (uid', cid') ≠ (uid, cid) →
  lookup_ticket uid' cid' (insert_ticket uid cid t a) = lookup_ticket uid' cid' a.
Proof.
  intros Hne. unfold lookup_ticket, insert_ticket.
  destruct (decide (uid = uid')) as [<-|Huid].
  - assert (cid ≠ cid') as Hcid by congruence.
    destruct (OD.get uid a) as [d|] eqn:Hd.
    + by rewrite ODFacts.get_set_eq, ODFacts.get_set_ne.
    + rewrite ODFacts.get_set_eq. simpl. by destruct (decide (cid' = cid)); [subst|].
  - destruct (OD.get uid a) as [d|] eqn:Hd; by rewrite ODFacts.get_set_ne.
Qed.

Lemma ticket_count_insert_fresh uid cid t a :
  lookup_ticket uid cid a = None →
  ticket_count uid (insert_ticket uid cid t a) = ticket_count uid a + 1.
Proof.
  unfold lookup_ticket, ticket_count, insert_ticket.
  destruct (OD.get uid a) as [d|] eqn:Hd; rewrite ODFacts.get_set_eq.
  - intros Hnone. rewrite (set_absent _ _ _ Hnone). unfold OD.len.
    rewrite length_app. simpl. lia.
  - done.
Qed.

(** X1. A ticket-creation attempt that passes both guards and on which
    every transport call returns: the channel is created, a fresh open
    ticket (created and last active now, no message logged) is stored under
    the user and the new channel, the control message is posted and pinned,
    the user is told by direct message, the audit entry is written, in that
    order, and the answer is the confirmation text.  Every other ticket is
    left as it was, and the user's count grows by one when the channel id is
    a new key. *)
Theorem X1_create_ticket_success (cfg : config) (tr : transport) (now : time)
    (user : member) (category_name message_content : string) (s : store)
    (cid control_message dm : Z) :
  reaches_insert cfg tr now user category_name s cid →
  tr_channel_send tr cid = Ok control_message →
  tr_pin tr control_message = Ok tt →
  tr_user_send tr (m_id user) = Ok dm →
  tr_log_action tr = Ok tt →
  let channel :=
    {| ch_id := cid; ch_name := ticket_channel_name now user category_name |} in
  let s' :=
    set_active
      (insert_ticket (m_id user) cid (new_ticket now channel category_name)) s in
  create_ticket cfg tr now user category_name message_content s
  = (Ok (created_message category_name), s',
     [ CreateChannel channel;
       ChannelSend cid (PControl category_name (m_id user) message_content);
       Pin control_message;
       UserSend (m_id user) (PTicketCreated category_name);
       LogAction
         ("Ticket created by " +:+ m_name user +:+ " ("
            +:+ pretty (m_id user) +:+ ")")
         category_name message_content ])
  ∧ lookup_ticket (m_id user) cid (active_tickets s')
    = Some (new_ticket now channel category_name)
  ∧ (∀ uid' cid', (uid', cid') ≠ (m_id user, cid) →
       lookup_ticket uid' cid' (active_tickets s')
       = lookup_ticket uid' cid' (active_tickets s))
  ∧ (lookup_ticket (m_id user) cid (active_tickets s) = None →
     ticket_count (m_id user) (active_tickets s')
     = ticket_count (m_id user) (active_tickets s) + 1)
  ∧ blacklisted_users s' = blacklisted_users s
  ∧ ticket_logs s' = ticket_logs s.
Proof.
  intros (Hlim & Hbl & Hcat & Hch) Hsend Hpin Hdm Hlog channel s'.
  split_and!.
  - unfold create_ticket. unfold_monad. simpl. rewrite Hlim. simpl.
    destruct (decide (m_id user ∈ blacklisted_users s)); [done|]. simpl.
    rewrite Hcat. simpl. rewrite Hch. simpl. rewrite Hsend. simpl.
    rewrite Hpin. simpl. rewrite Hdm. simpl. by rewrite Hlog.
  - apply lookup_insert_ticket.
  - intros uid' cid' Hne. by apply lookup_insert_ticket_other.
  - apply ticket_count_insert_fresh.
  - done.
  - done.
Qed.

Lemma X1_create_ticket_success_witness :
  lookup_ticket 1001 5000
    (active_tickets
       (store_after
          (create_ticket CONFIG tr_ok sample_time alice "Support"
             "Support ticket requested")
          empty_store))
  = Some (new_ticket sample_time sample_channel "Support").
Proof.
  pose proof (X1_create_ticket_success CONFIG tr_ok sample_time alice "Support"
                "Support ticket requested" empty_store 5000 9000 9001) as H.
  assert (reaches_insert CONFIG tr_ok sample_time alice "Support" empty_store 5000)
    as Hreach.
  { split_and!; [reflexivity | apply not_elem_of_empty | reflexivity..]. }
  specialize (H Hreach eq_refl eq_refl eq_refl eq_refl).
  destruct H as (Hrun & Hlook & _). unfold store_after. rewrite Hrun. exact Hlook.
Defined.

(** X2. What [create_ticket] leaves untouched when it stops before the
    insertion: the blacklist rejection, and a failure of the category lookup
    or of the channel creation, change no store; the rejection makes no
    transport call and the failure is answered with the generic error text
    after it has been logged. *)
Theorem X2_create_ticket_stops_early (cfg : config) (tr : transport) (now : time)
    (user : member) (category_name message_content : string) (s : store) :
  limit_reached cfg (m_id user) s = false →
  let attempt := create_ticket cfg tr now user category_name message_content in
  (m_id user ∈ blacklisted_users s → attempt s = (Ok blacklist_message, s, []))
  ∧ (m_id user ∉ blacklisted_users s →
     (∀ e, tr_get_category tr = Raise e →
        attempt s
        = (Ok create_error_message, s,
           [LoggerError ("Error creating ticket: " +:+ e)]))
     ∧ (∀ e, tr_get_category tr = Ok tt →
          tr_create_text_channel tr (ticket_channel_name now user category_name)
          = Raise e →
          attempt s
          = (Ok create_error_message, s,
             [LoggerError ("Error creating ticket: " +:+ e)]))).
Proof.
  intros Hlim attempt. subst attempt. unfold create_ticket. unfold_monad.
  simpl. rewrite Hlim. simpl. split.
  - intros Hbl. by destruct (decide (m_id user ∈ blacklisted_users s)).
  - intros Hbl. destruct (decide (m_id user ∈ blacklisted_users s)); [done|].
    simpl. split.
    + intros e ->. done.
    + intros e -> ->. done.
Qed.

Lemma X2_create_ticket_stops_early_witness :
  create_ticket CONFIG tr_ok sample_time alice "Support" "Support ticket requested"
    (set_blacklist (fun b => {[1001]} ∪ b) empty_store)
  = (Ok blacklist_message, set_blacklist (fun b => {[1001]} ∪ b) empty_store, []).
Proof.
  apply (X2_create_ticket_stops_early CONFIG tr_ok sample_time alice "Support"
           "Support ticket requested"
           (set_blacklist (fun b => {[1001]} ∪ b) empty_store)).
  - reflexivity.
  - simpl. set_solver.
Defined.

(** ** Invariants carried by the writes that the handlers make

    A sharper version of the decomposition above: an invariant that is kept
    by the writes to the fields of a ticket that occur in the code, by the
    removal of a ticket and by the appending of a summary to the log, is
    kept by every handler but [create_ticket] and [load_data]. *)
Section footprint.
Context (cfg : config) (I : store → Prop).
Context (I_field : ∀ uid cid f s,
            field_write f → I s → I (set_active (update_ticket uid cid f) s)).
Context (I_remove : ∀ uid cid s, I s → I (set_active (remove_ticket uid cid) s)).
Context (I_append : ∀ key r s, I s → I (set_logs (append_log key r) s)).
Context (I_blacklist : ∀ f s, I s → I (set_blacklist f s)).
Context (I_welcome : ∀ f s, I s → I (set_welcome f s)).
Context (I_attachments : ∀ f s, I s → I (set_attachments f s)).

Local Ltac field_writes :=
  repeat first [ apply fw_closed | apply fw_category | apply fw_last_activity
               | apply fw_message | apply fw_staff_typing | apply fw_user_typing
               | apply (fw_compose (append_message _) (set_last_activity _))
               | apply (fw_compose (set_last_activity _) (append_message _)) ].

Local Ltac footprint :=
  repeat preserves_step;
  repeat first [ done | apply I_field; [by field_writes|] | apply I_remove
               | apply I_append | apply I_blacklist | apply I_welcome
               | apply I_attachments ].

Lemma footprint_create_transcript tr now channel user :
  preserves I (create_transcript cfg tr now channel user).
Proof. unfold create_transcript. footprint. Qed.

Lemma footprint_send_welcome_message tr now user :
  preserves I (send_welcome_message cfg tr now user).
Proof. unfold send_welcome_message, greet, user_send. footprint. Qed.

Lemma footprint_write_ticket uid cid f :
  field_write f → preserves I (write_ticket uid cid f).
Proof.
  intros Hf. unfold write_ticket. repeat preserves_step; try done.
  by apply I_field.
Qed.

Lemma footprint_read_ticket uid cid : preserves I (read_ticket uid cid).
Proof. unfold read_ticket. footprint. Qed.

Lemma footprint_actually_close_ticket tr now closer channel user :
  preserves I (actually_close_ticket cfg tr now closer channel user).
Proof.
  unfold actually_close_ticket, archive_and_remove, channel_send, user_send,
    log_action.
  preserves_step; [|footprint].
  preserves_step; [apply footprint_create_transcript|].
  footprint.
Qed.

Lemma footprint_auto_close_tickets tr now :
  preserves I (auto_close_tickets cfg tr now).
Proof.
  unfold auto_close_tickets. preserves_step; [footprint|]. preserves_step.
  unfold auto_close_one. destruct x as [user_id channel_id].
  preserves_step; [|footprint].
  preserves_step; [apply footprint_read_ticket|]. cbv zeta.
  preserves_step; [footprint|].
  preserves_step; [unfold channel_send; footprint|].
  preserves_step; [apply footprint_create_transcript|].
  preserves_step; [unfold user_send; footprint|].
  preserves_step; [apply footprint_read_ticket|].
  unfold archive_and_remove. footprint.
Qed.

Lemma footprint_forward_to_channel tr now message channel :
  preserves I (forward_to_channel cfg tr now message channel).
Proof.
  unfold forward_to_channel, channel_send, add_reaction.
  preserves_step; [|footprint]. preserves_step; [footprint|].
  preserves_step;
    [|preserves_step; [footprint|apply footprint_send_welcome_message]].
  footprint.
Qed.

Lemma footprint_on_message tr now bot_id message :
  preserves I (on_message cfg tr now bot_id message).
Proof.
  unfold on_message.
  repeat (preserves_step; try apply preserves_ret).
  - unfold on_direct_message, forward_to_first_open, channel_send.
    repeat first [ apply footprint_send_welcome_message
                 | apply footprint_forward_to_channel
                 | preserves_step ]; done.
  - unfold on_channel_message, channel_send, user_send, add_reaction. footprint.
Qed.

Lemma footprint_on_typing tr is_dm channel_id user :
  preserves I (on_typing tr is_dm channel_id user).
Proof.
  unfold on_typing. preserves_step; [apply preserves_ret|].
  preserves_step; [footprint|]. preserves_step.
  - unfold relay_user_typing. footprint.
  - induction (active_tickets a) as [|[user_id user_tickets] rest IH]; simpl.
    + apply preserves_ret.
    + unfold relay_staff_typing in *. footprint.
Qed.

Local Ltac as_preserves :=
  lazymatch goal with
  | Hs : I ?s |- I (store_after ?m ?s) => refine ((_ : preserves I m) s Hs)
  end.

Lemma footprint_handle st s :
  I s →
  (∀ user category_name request,
     st_event st = EvTicketButton user category_name request →
     I (store_after
          (create_ticket cfg (st_transport st) (st_now st) user category_name
             request) s)) →
  (∀ file, st_event st = EvReady file → I (store_after (load_data file) s)) →
  I (store_after (handle cfg st) s).
Proof.
  intros Hs Hcreate Hload. unfold handle.
  destruct (st_event st) eqn:Hev.
  - specialize (Hcreate _ _ _ eq_refl). unfold ticket_button.
    unfold_monad.
    by destruct (create_ticket cfg (st_transport st) (st_now st) user
                   category_name request s) as [[[r|e] s'] out].
  - as_preserves. unfold close_ticket. preserves_step;
      [footprint | apply footprint_actually_close_ticket].
  - by apply footprint_actually_close_ticket.
  - as_preserves. unfold blacklist_button, roles_of. footprint.
  - as_preserves. unfold archive_button.
    repeat first [apply footprint_write_ticket; by field_writes | preserves_step].
  - as_preserves. unfold transfer_callback, channel_send, user_send.
    repeat first [apply footprint_write_ticket; by field_writes | preserves_step].
  - by apply footprint_on_message.
  - as_preserves. unfold ticket_select_callback.
    repeat first [apply footprint_forward_to_channel | preserves_step].
  - by apply footprint_on_typing.
  - as_preserves. unfold reply_modal_submit, channel_send, user_send. footprint.
  - as_preserves. unfold ticket_command, roles_of, channel_send, log_action.
    footprint.
  - by apply footprint_auto_close_tickets.
  - by apply Hload.
Qed.

Lemma footprint_exec (G : step → store → Prop) steps s :
  (∀ st s user category_name request,
     G st s → I s →
     st_event st = EvTicketButton user category_name request →
     I (store_after
          (create_ticket cfg (st_transport st) (st_now st) user category_name
             request) s)) →
  (∀ st s file,
     G st s → I s → st_event st = EvReady file →
     I (store_after (load_data file) s)) →
  guarded cfg G steps s → I s → I (exec cfg steps s).
Proof.
  intros Hcreate Hload. revert s.
  induction steps as [|st steps IH]; intros s Hguard Hs; simpl; [done|].
  destruct Hguard as [Hg Hguard]. apply IH; [done|].
  apply footprint_handle; [done | |].
  - intros user category_name request. by apply Hcreate.
  - intros file. by apply Hload.
Qed.
End footprint.

(** [load_data] leaves the active index alone. *)
Lemma load_data_active file s :
  active_tickets (store_after (load_data file) s) = active_tickets s.
Proof. by destruct file. Qed.

(** ** Three invariants of the runs *)

Lemma field_write_channel f t : field_write f → tk_channel (f t) = tk_channel t.
Proof.
  intros Hf. revert t. induction Hf; intros t; try done.
  by rewrite IHHf1, IHHf2.
Qed.

Lemma no_empty_owner_update uid cid f a :
  no_empty_owner a → no_empty_owner (update_ticket uid cid f a).
Proof.
  intros Ha. unfold update_ticket.
  destruct (OD.get uid a) as [d|] eqn:Hd; [|done].
  destruct (OD.get cid d) as [t|] eqn:Ht; [|done].
  apply ODFacts.Forall_set; [done|]. simpl.
  destruct d as [|[k v] d]; [done|]. simpl. by destruct (decide (cid = k)).
Qed.

Lemma no_empty_owner_remove uid cid a :
  no_empty_owner a → no_empty_owner (remove_ticket uid cid a).
Proof.
  intros Ha. unfold remove_ticket.
  destruct (OD.get uid a) as [d|] eqn:Hd; [|done].
  destruct (OD.del cid d) as [|e d'] eqn:Hdd.
  - by apply ODFacts.Forall_del.
  - by apply ODFacts.Forall_set.
Qed.

Lemma no_empty_owner_insert uid cid t a :
  no_empty_owner a → no_empty_owner (insert_ticket uid cid t a).
Proof.
  intros Ha. unfold insert_ticket.
  destruct (OD.get uid a) as [d|] eqn:Hd.
  - apply ODFacts.Forall_set; [done|]. simpl.
    destruct d as [|[k v] d]; [done|]. simpl. by destruct (decide (cid = k)).
  - by apply ODFacts.Forall_set.
Qed.

Lemma keyed_by_channel_update uid cid f a :
  field_write f → keyed_by_channel a → keyed_by_channel (update_ticket uid cid f a).
Proof.
  intros Hf Ha. unfold update_ticket.
  destruct (OD.get uid a) as [d|] eqn:Hd; [|done].
  destruct (OD.get cid d) as [t|] eqn:Ht; [|done].
  pose proof (ODFacts.Forall_get _ _ _ _ Ha Hd) as Hkeys. simpl in Hkeys.
  apply ODFacts.Forall_set; [done|]. simpl.
  apply ODFacts.Forall_set; [done|]. simpl.
  rewrite (field_write_channel f t Hf).
  apply (ODFacts.Forall_get _ _ _ _ Hkeys Ht).
Qed.

Lemma keyed_by_channel_remove uid cid a :
  keyed_by_channel a → keyed_by_channel (remove_ticket uid cid a).
Proof.
  intros Ha. unfold remove_ticket.
  destruct (OD.get uid a) as [d|] eqn:Hd; [|done].
  pose proof (ODFacts.Forall_get _ _ _ _ Ha Hd) as Hkeys. simpl in Hkeys.
  pose proof (ODFacts.Forall_del _ cid _ Hkeys) as Hdel.
  destruct (OD.del cid d) as [|e d'] eqn:Hdd.
  - by apply ODFacts.Forall_del.
  - by apply ODFacts.Forall_set.
Qed.

Lemma keyed_by_channel_insert uid cid t a :
  ch_id (tk_channel t) = cid →
  keyed_by_channel a → keyed_by_channel (insert_ticket uid cid t a).
Proof.
  intros Hcid Ha. unfold insert_ticket.
  destruct (OD.get uid a) as [d|] eqn:Hd.
  - pose proof (ODFacts.Forall_get _ _ _ _ Ha Hd) as Hkeys. simpl in Hkeys.
    apply ODFacts.Forall_set; [done|]. simpl. by apply ODFacts.Forall_set.
  - apply ODFacts.Forall_set; [done|]. simpl. by repeat constructor.
Qed.

Lemma keyed_by_channel_lookup uid cid t a :
  keyed_by_channel a → lookup_ticket uid cid a = Some t →
  ch_id (tk_channel t) = cid.
Proof.
  intros Ha. unfold lookup_ticket.
  destruct (OD.get uid a) as [d|] eqn:Hd; [|done]. intros Ht.
  pose proof (ODFacts.Forall_get _ _ _ _ Ha Hd) as Hkeys. simpl in Hkeys.
  apply (ODFacts.Forall_get _ _ _ _ Hkeys Ht).
Qed.

Lemma no_empty_owner_exec cfg steps :
  no_empty_owner (active_tickets (exec cfg steps empty_store)).
Proof.
  apply (footprint_exec cfg (fun s => no_empty_owner (active_tickets s)))
    with (G := fun _ _ => True).
  - intros uid cid f s _ Hs. by apply no_empty_owner_update.
  - intros uid cid s Hs. by apply no_empty_owner_remove.
  - by intros key r s Hs.
  - by intros f s Hs.
  - by intros f s Hs.
  - by intros f s Hs.
  - intros st s user category_name request _ Hs _.
    destruct (create_ticket_store cfg (st_transport st) (st_now st) user
                category_name request s) as [->|(cid & _ & ->)]; [done|].
    by apply no_empty_owner_insert.
  - intros st s file _ Hs _. by rewrite load_data_active.
  - apply guarded_always.
  - constructor.
Qed.

Lemma keyed_by_channel_exec cfg steps :
  keyed_by_channel (active_tickets (exec cfg steps empty_store)).
Proof.
  apply (footprint_exec cfg (fun s => keyed_by_channel (active_tickets s)))
    with (G := fun _ _ => True).
  - intros uid cid f s Hf Hs. by apply keyed_by_channel_update.
  - intros uid cid s Hs. by apply keyed_by_channel_remove.
  - by intros key r s Hs.
  - by intros f s Hs.
  - by intros f s Hs.
  - by intros f s Hs.
  - intros st s user category_name request _ Hs _.
    destruct (create_ticket_store cfg (st_transport st) (st_now st) user
                category_name request s) as [->|(cid & _ & ->)]; [done|].
    by apply keyed_by_channel_insert.
  - intros st s file _ Hs _. by rewrite load_data_active.
  - apply guarded_always.
  - constructor.
Qed.

(** X3. Along every run from the empty stores, an owner is a key of the
    active index exactly as long as the owner has a ticket: the entry is
    created with the first ticket and pruned with the last.  The tests
    [user.id in active_tickets] of the router and of the limit guard are
    therefore tests for "has at least one ticket". *)
Theorem X3_owner_listed_iff_has_ticket (cfg : config) (steps : list step)
    (uid : Z) :
  let a := active_tickets (exec cfg steps empty_store) in
  no_empty_owner a
  ∧ (OD.mem uid a = true ↔ 1 ≤ ticket_count uid a)
  ∧ (OD.get uid a = None ↔ ticket_count uid a = 0).
Proof.
  intros a. pose proof (no_empty_owner_exec cfg steps) as Ha. fold a in Ha.
  split; [done|]. unfold OD.mem, ticket_count.
  destruct (OD.get uid a) as [d|] eqn:Hd.
  - pose proof (ODFacts.Forall_get _ _ _ _ Ha Hd) as Hne. simpl in Hne.
    unfold OD.len. destruct d as [|e d]; [done|]. simpl.
    split; split; intros; try done; lia.
  - split; split; intros; try done; lia.
Qed.

Lemma X3_owner_listed_iff_has_ticket_witness :
  OD.get 1001 (active_tickets (exec CONFIG two_presses empty_store)) = None
  ↔ ticket_count 1001 (active_tickets (exec CONFIG two_presses empty_store)) = 0.
Proof.
  apply (X3_owner_listed_iff_has_ticket CONFIG two_presses 1001).
Defined.

(** X4. Along every run from the empty stores, every ticket of the active
    index is stored under the id of its own channel.  When the channels that
    the transport creates are new ones, the index is moreover well formed
    and the scan by which [forward_to_channel] looks for the channel of a
    ticket ends on the owner of that ticket. *)
Theorem X4_ticket_keyed_by_its_channel (cfg : config) (steps : list step)
    (uid cid : Z) (t : ticket) :
  let a := active_tickets (exec cfg steps empty_store) in
  lookup_ticket uid cid a = Some t →
  ch_id (tk_channel t) = cid
  ∧ (guarded cfg fresh_channel steps empty_store →
     well_formed a
     ∧ find_channel (ch_id (tk_channel t)) a = Some uid
     ∧ ∀ uid' t', lookup_ticket uid' cid a = Some t' → uid' = uid).
Proof.
  intros a Hlook.
  pose proof (keyed_by_channel_lookup _ _ _ _ (keyed_by_channel_exec cfg steps)
                Hlook) as Hkey.
  split; [done|]. intros Hfresh.
  pose proof (well_formed_exec cfg steps Hfresh) as Hwf. fold a in Hwf.
  split; [done|]. rewrite Hkey. split.
  - by apply (find_channel_owner uid cid t).
  - intros uid' t' Hlook'.
    pose proof (find_channel_owner uid cid t a Hwf Hlook) as H1.
    pose proof (find_channel_owner uid' cid t' a Hwf Hlook') as H2. congruence.
Qed.

Lemma X4_ticket_keyed_by_its_channel_witness :
  ch_id (tk_channel (new_ticket sample_time sample_channel "Support")) = 5000.
Proof.
  apply (X4_ticket_keyed_by_its_channel CONFIG
           [ {| st_event := EvTicketButton alice "Support" "Support ticket requested";
                st_now := sample_time; st_transport := tr_ok |} ]
           1001 5000 (new_ticket sample_time sample_channel "Support")).
  reflexivity.
Defined.

Lemma extends_log_refl logs : extends_log logs logs.
Proof. by intros key. Qed.

Lemma extends_log_append key r logs logs' :
  extends_log logs logs' → extends_log logs (append_log key r logs').
Proof.
  intros Hext k. etrans; [apply Hext|]. unfold append_log.
  destruct (decide (key = k)) as [->|Hne].
  - rewrite lookup_insert_eq. simpl. by apply prefix_app_r.
  - by rewrite lookup_insert_ne.
Qed.

(** X5. The closed-ticket log is append-only: along a run in which the data
    file is not reloaded, and from whatever stores it starts, the records
    found under a key at the start are still there at the end, first and in
    the same order. *)
Theorem X5_closed_log_append_only (cfg : config) (steps : list step) (s : store) :
  guarded cfg not_reload steps s →
  extends_log (ticket_logs s) (ticket_logs (exec cfg steps s)).
Proof.
  intros Hguard.
  apply (footprint_exec cfg (fun s' => extends_log (ticket_logs s) (ticket_logs s')))
    with (G := not_reload); try done.
  - intros key r s' Hs'. by apply extends_log_append.
  - intros st s' user category_name request _ Hs' _.
    by destruct (create_ticket_store cfg (st_transport st) (st_now st) user
                   category_name request s') as [->|(cid & _ & ->)].
  - intros st s' file Hg _ Hev. by destruct (Hg file).
  - apply extends_log_refl.
Qed.

Lemma X5_closed_log_append_only_witness :
  extends_log (ticket_logs one_open_ticket)
    (ticket_logs
       (exec CONFIG
          [ {| st_event := EvConfirmClose bob sample_channel alice;
               st_now := a_second_later; st_transport := tr_ok |} ]
          one_open_ticket)).
Proof.
  apply (X5_closed_log_append_only CONFIG
           [ {| st_event := EvConfirmClose bob sample_channel alice;
                st_now := a_second_later; st_transport := tr_ok |} ]
           one_open_ticket).
  simpl. split; [|done]. intros file. discriminate.
Defined.

(** ** The data file *)

Lemma digit_value_pretty (d : N) :
  (d < 10)%N → digit_value (pretty_N_char d) = Some d.
Proof.
  intros Hd.
  assert (d = 0 ∨ d = 1 ∨ d = 2 ∨ d = 3 ∨ d = 4 ∨ d = 5 ∨ d = 6 ∨ d = 7
          ∨ d = 8 ∨ d = 9)%N as Hcases by lia.
  repeat destruct Hcases as [->|Hcases]; try reflexivity. by subst.
Qed.

Lemma read_digits_pretty_go (x : N) :
  ∃ k : N, ∀ acc s,
    read_digits (pretty_N_go x s) acc = read_digits s (acc * 10 ^ k + x)%N.
Proof.
  induction (N.lt_wf_0 x) as [x _ IH].
  destruct (decide (x = 0)%N) as [->|Hx].
  - exists 0%N. intros acc s. rewrite pretty_N_go_0. f_equal. lia.
  - destruct (IH (x `div` 10)%N) as [k Hk]; [apply N.div_lt; lia|].
    exists (k + 1)%N. intros acc s.
    rewrite pretty_N_go_step by lia. rewrite Hk. simpl.
    rewrite digit_value_pretty by (apply N.mod_lt; lia).
    assert (10 * (acc * 10 ^ k + x `div` 10) + x `mod` 10
            = acc * 10 ^ (k + 1) + x)%N as ->; [|done].
    rewrite N.pow_add_r. pose proof (N.div_mod x 10). lia.
Qed.

Lemma read_digits_pretty (x : N) :
  x ≠ 0%N → read_digits (pretty_N_go x "") 0 = Some x.
Proof.
  intros Hx. destruct (read_digits_pretty_go x) as [k Hk].
  rewrite Hk. simpl. f_equal; lia.
Qed.

(** [decimal] reads back what [str] prints. *)
Lemma decimal_pretty (z : Z) : decimal (pretty z) = Ok z.
Proof.
  destruct z as [|p|p].
  - reflexivity.
  - change (pretty (Z.pos p)) with (pretty_N_go (N.pos p) "").
    pose proof (read_digits_pretty (N.pos p)) as Hread.
    pose proof (pretty_N_go_ne_dash (N.pos p) "") as Hdash.
    destruct (pretty_N_go (N.pos p) "") as [|c s] eqn:Hp.
    + by specialize (Hread ltac:(done)).
    + unfold decimal. destruct (decide (c = Ascii.ascii_of_nat 45)) as [->|_].
      * by destruct (Hdash s).
      * by rewrite Hread.
  - change (pretty (Z.neg p))
      with (String (Ascii.ascii_of_nat 45) (pretty_N_go (N.pos p) "")).
    pose proof (read_digits_pretty (N.pos p)) as Hread.
    unfold decimal.
    destruct (decide (Ascii.ascii_of_nat 45 = Ascii.ascii_of_nat 45)); [|done].
    specialize (Hread ltac:(done)).
    destruct (pretty_N_go (N.pos p) "") as [|c s] eqn:Hp; [done|].
    by rewrite Hread.
Qed.

Section persistence.
Context (int : string → result Z).

Lemma int_keys_pretty (items : list (Z * time)) (table : gmap Z time) :
  (∀ z, int (pretty z) = Ok z) →
  Persistence.int_keys int
    ((fun '(user_id, timestamp) => (pretty user_id, timestamp)) <$> items) table
  = Ok (foldl (fun t '(user_id, timestamp) => <[user_id := timestamp]> t)
          table items).
Proof.
  intros Hint. revert table.
  induction items as [|[user_id timestamp] items IH]; intros table; [done|].
  csimpl. rewrite Hint. apply IH.
Qed.

Lemma foldl_insert_lookup (items : list (Z * time)) (table : gmap Z time) k :
  NoDup items.*1 →
  foldl (fun t '(user_id, timestamp) => <[user_id := timestamp]> t) table items
    !! k
  = from_option Some (table !! k) ((list_to_map items : gmap Z time) !! k).
Proof.
  revert table. induction items as [|[k0 v0] items IH]; intros table Hnd;
    [done|].
  apply NoDup_cons in Hnd as [Hk0 Hnd]. csimpl. rewrite IH by done.
  destruct (decide (k0 = k)) as [->|Hne].
  - rewrite lookup_insert_eq.
    by rewrite (not_elem_of_list_to_map_1 (M := gmap Z)), lookup_insert_eq.
  - by rewrite !lookup_insert_ne.
Qed.

Lemma foldl_insert_map_to_list (table : gmap Z time) :
  foldl (fun t '(user_id, timestamp) => <[user_id := timestamp]> t) ∅
    (map_to_list table)
  = table.
Proof.
  apply map_eq. intros k.
  rewrite foldl_insert_lookup by apply NoDup_fst_map_to_list.
  rewrite list_to_map_to_list, lookup_empty. by destruct (table !! k).
Qed.

Lemma load_saved (s s0 : store) :
  (∀ z, int (pretty z) = Ok z) →
  Persistence.load_data int (Persistence.Json (Persistence.save_data s)) s0
  = (Ok tt,
     {| active_tickets := active_tickets s0;
        blacklisted_users := blacklisted_users s;
        ticket_logs := ticket_logs s;
        user_welcome_timestamps := user_welcome_timestamps s;
        ticket_attachments := ticket_attachments s0 |},
     []).
Proof.
  intros Hint. unfold Persistence.load_data, Persistence.save_data.
  unfold_monad. simpl.
  rewrite (int_keys_pretty _ _ Hint), foldl_insert_map_to_list. simpl.
  unfold set_welcome, set_logs, set_blacklist. simpl.
  by rewrite list_to_set_elements_L.
Qed.
End persistence.

(** X6. Saving and loading are inverse on the three persisted stores: a
    process that starts from the empty stores and loads the file that
    [save_data] wrote from the stores [s] has the blacklist, the
    closed-ticket log and the welcome timestamps of [s], whatever [int]
    does on other strings than those [str] prints.  The active tickets are
    not in the file: after the restart there is none, and the same file is
    written again.  Loading the file into the stores it was written from
    changes nothing. *)
Theorem X6_save_load_round_trip (int : string → result Z) (s : store) :
  (∀ z, int (pretty z) = Ok z) →
  let file := Persistence.Json (Persistence.save_data s) in
  Persistence.load_data int file empty_store = (Ok tt, restarted s, [])
  ∧ (∀ uid, ticket_count uid (active_tickets (restarted s)) = 0)
  ∧ Persistence.save_data (restarted s) = Persistence.save_data s
  ∧ (∀ s', Persistence.save_data s' = Persistence.save_data s →
       restarted s' = restarted s)
  ∧ store_after (Persistence.load_data int file) s = s
  ∧ (∀ s0,
       store_after (Persistence.load_data int file) s0
       = store_after
           (load_data
              (Some {| p_blacklisted_users := elements (blacklisted_users s);
                       p_ticket_logs := ticket_logs s;
                       p_user_welcome_timestamps := user_welcome_timestamps s |}))
           s0).
Proof.
  intros Hint file. split_and!.
  - subst file. by rewrite load_saved.
  - done.
  - done.
  - intros s' Heq.
    pose proof (load_saved int s' empty_store Hint) as H1.
    pose proof (load_saved int s empty_store Hint) as H2.
    rewrite Heq in H1. rewrite H1 in H2. unfold restarted.
    by injection H2 as -> -> ->.
  - subst file. unfold store_after. rewrite load_saved by done.
    by destruct s.
  - intros s0. subst file. unfold store_after. rewrite load_saved by done.
    simpl. by rewrite list_to_set_elements_L.
Qed.

Lemma X6_save_load_round_trip_witness :
  Persistence.load_data decimal
    (Persistence.Json (Persistence.save_data opened_then_blacklisted))
    empty_store
  = (Ok tt, restarted opened_then_blacklisted, []).
Proof.
  apply (X6_save_load_round_trip decimal opened_then_blacklisted).
  apply decimal_pretty.
Defined.

Lemma int_keys_raises (int : string → result Z) items table key timestamp e :
  (key, timestamp) ∈ items → int key = Raise e →
  ∃ e', Persistence.int_keys int items table = Raise e'.
Proof.
  revert table. induction items as [|[k v] items IH]; intros table Hin Hkey.
  - by apply elem_of_nil in Hin.
  - simpl. apply elem_of_cons in Hin as [[= <- <-]|Hin].
    + rewrite Hkey. by eexists.
    + destruct (int k); [by apply IH | by eexists].
Qed.

(** X7. What [load_data] does when the file cannot be used.  Without a
    file nothing happens; a file that cannot be read is logged and leaves
    the stores alone.  A file in which a key of the welcome table is not
    accepted by [int] is loaded in part: the blacklist and the closed-ticket
    log have been replaced by those of the file when the conversion raises,
    the welcome timestamps stay those in memory, and the error is logged. *)
Theorem X7_load_data_unusable_file (int : string → result Z) (s : store) :
  Persistence.load_data int Persistence.NoFile s = (Ok tt, s, [])
  ∧ (∀ e, Persistence.load_data int (Persistence.Unreadable e) s
          = (Ok tt, s, [LoggerError ("Error loading data: " +:+ e)]))
  ∧ (∀ data items key timestamp e,
       Persistence.df_user_welcome_timestamps data = Some items →
       (key, timestamp) ∈ items → int key = Raise e →
       ∃ e',
         Persistence.load_data int (Persistence.Json data) s
         = (Ok tt,
            {| active_tickets := active_tickets s;
               blacklisted_users :=
                 list_to_set (default [] (Persistence.df_blacklisted_users data));
               ticket_logs := default ∅ (Persistence.df_ticket_logs data);
               user_welcome_timestamps := user_welcome_timestamps s;
               ticket_attachments := ticket_attachments s |},
            [LoggerError ("Error loading data: " +:+ e')])).
Proof.
  split_and!; [done | done |].
  intros data items key timestamp e Hitems Hin Hkey.
  destruct (int_keys_raises int items ∅ key timestamp e Hin Hkey) as [e' He'].
  exists e'. unfold Persistence.load_data. unfold_monad. simpl.
  rewrite Hitems. simpl. by rewrite He'.
Qed.

Lemma X7_load_data_unusable_file_witness :
  ∃ e',
    Persistence.load_data decimal (Persistence.Json edited_file) empty_store
    = (Ok tt,
       {| active_tickets := [];
          blacklisted_users := list_to_set [1001];
          ticket_logs := ∅;
          user_welcome_timestamps := ∅;
          ticket_attachments := ∅ |},
       [LoggerError ("Error loading data: " +:+ e')]).
Proof.
  apply (X7_load_data_unusable_file decimal empty_store) with
    (items := [("2002", sample_time); ("alice", sample_time)])
    (key := "alice") (timestamp := sample_time)
    (e := invalid_literal "alice").
  - reflexivity.
  - apply list_elem_of_further, list_elem_of_here.
  - reflexivity.
Defined.

(** ** Channel names *)

Lemma chars_app (s1 s2 : string) : chars (s1 +:+ s2) = chars s1 ++ chars s2.
Proof.
  induction s1 as [|c s1 IH]; [done|].
  rewrite string_app_cons. simpl. by rewrite IH.
Qed.

Lemma chars_length (s : string) : length (chars s) = String.length s.
Proof. induction s as [|c s IH]; simpl; by rewrite ?IH. Qed.

Lemma chars_inj (s1 s2 : string) : chars s1 = chars s2 → s1 = s2.
Proof.
  revert s2. induction s1 as [|c s1 IH]; intros [|d s2] Heq; try done.
  injection Heq as -> Heq. f_equal. by apply IH.
Qed.

Lemma last_segment_from_none sep s segment :
  sep ∉ chars s → last_segment_from sep s segment = segment +:+ s.
Proof.
  revert segment. induction s as [|c s IH]; intros segment Hsep; simpl.
  - by rewrite string_app_nil_r.
  - apply not_elem_of_cons in Hsep as [Hc Hsep].
    destruct (decide (c = sep)); [done|].
    rewrite IH by done. by rewrite string_app_assoc.
Qed.

Lemma last_segment_from_sep sep s1 s2 segment :
  last_segment_from sep (s1 +:+ String sep s2) segment
  = last_segment_from sep s2 "".
Proof.
  revert segment. induction s1 as [|c s1 IH]; intros segment.
  - simpl. by destruct (decide (sep = sep)).
  - rewrite string_app_cons. simpl. by destruct (decide (c = sep)).
Qed.

Lemma last_segment_after sep s1 s2 :
  sep ∉ chars s2 → last_segment sep (s1 +:+ String sep s2) = s2.
Proof.
  intros Hsep. unfold last_segment.
  by rewrite last_segment_from_sep, last_segment_from_none.
Qed.

Lemma digit_chars n :
  ∃ k, (k < 10)%nat ∧ chars (digit n) = [Ascii.ascii_of_nat (48 + k)].
Proof.
  exists (Z.to_nat (n mod 10)). split; [|done].
  pose proof (Z.mod_pos_bound n 10). lia.
Qed.

Lemma pad2_chars n c : c ∈ chars (pad2 n) → is_ascii_alnum c = true.
Proof.
  unfold pad2. rewrite chars_app.
  destruct (digit_chars (n / 10)) as (k1 & Hk1 & ->).
  destruct (digit_chars n) as (k2 & Hk2 & ->).
  intros [->|[->|[]%elem_of_nil]%elem_of_cons]%elem_of_cons.
  - do 10 (destruct k1 as [|k1]; [done|]). lia.
  - do 10 (destruct k2 as [|k2]; [done|]). lia.
Qed.

Lemma strftime_hour_minute_chars t c :
  c ∈ chars (strftime_hour_minute t) → is_ascii_alnum c = true.
Proof.
  unfold strftime_hour_minute. cbv zeta. rewrite chars_app.
  intros [H|H]%elem_of_app; by apply pad2_chars in H.
Qed.

Lemma strftime_compact_split t :
  ∃ date, strftime_compact t = date +:+ "-" +:+ strftime_hour_minute t.
Proof.
  unfold strftime_compact, strftime_hour_minute.
  destruct (civil_from_days (epoch_seconds t / 86400)) as [[y m] d].
  exists (pad4 y +:+ pad2 m +:+ pad2 d). cbv zeta.
  by rewrite !string_app_assoc.
Qed.

(** X8. The transfer of a ticket takes for "timestamp" what follows the
    last hyphen of the channel name.  The name that [create_ticket] gave
    ends in date, hyphen, hour and minute, so that the name asked for on a
    transfer keeps the hour and minute and loses the date: it is not the
    name that [create_ticket] gives to a ticket of the new category. *)
Theorem X8_transfer_name_loses_date (now : time) (owner user : member)
    (category_name new_category : string) (channel : channel) :
  ch_name channel = ticket_channel_name now owner category_name →
  new_channel_name channel user new_category
  = clean_username (m_name user) +:+ "-" +:+ lower new_category
      +:+ "-" +:+ strftime_hour_minute now
  ∧ new_channel_name channel user new_category
    ≠ ticket_channel_name now user new_category.
Proof.
  intros Hname.
  destruct (strftime_compact_split now) as [date Hdate].
  assert (new_channel_name channel user new_category
          = clean_username (m_name user) +:+ "-" +:+ lower new_category
              +:+ "-" +:+ strftime_hour_minute now) as Hnew.
  { unfold new_channel_name. cbv zeta. do 4 f_equal.
    rewrite Hname. unfold ticket_channel_name. rewrite Hdate.
    set (hm := strftime_hour_minute now).
    transitivity
      (last_segment (Ascii.ascii_of_nat 45)
         ((clean_username (m_name owner) +:+ "-" +:+ lower category_name
             +:+ "-" +:+ date)
            +:+ String (Ascii.ascii_of_nat 45) hm)).
    { f_equal. by rewrite !string_app_assoc. }
    apply last_segment_after. intros Hin.
    by apply strftime_hour_minute_chars in Hin. }
  split; [done|]. rewrite Hnew. unfold ticket_channel_name. rewrite Hdate.
  intros Heq. apply (f_equal String.length) in Heq.
  rewrite !string_app_length in Heq. simpl in Heq. lia.
Qed.

Lemma X8_transfer_name_loses_date_witness :
  new_channel_name sample_channel alice "Billing" = "alice-billing-2213".
Proof.
  apply (X8_transfer_name_loses_date sample_time alice alice "Support" "Billing"
           sample_channel).
  reflexivity.
Defined.

Lemma same_minute_fields (t1 t2 : time) :
  t1 / (60 * usec_per_sec) = t2 / (60 * usec_per_sec) →
  epoch_seconds t1 / 86400 = epoch_seconds t2 / 86400
  ∧ epoch_seconds t1 mod 86400 / 3600 = epoch_seconds t2 mod 86400 / 3600
  ∧ epoch_seconds t1 mod 86400 / 60 mod 60
    = epoch_seconds t2 mod 86400 / 60 mod 60.
Proof.
  unfold epoch_seconds, usec_per_sec. intros H.
  split_and!; Z.to_euclidean_division_equations; lia.
Qed.

(** X9. The name of a ticket channel is made of the first ten ASCII letters
    and digits of the user name, the category in lower case and the clock
    reading to the minute: two tickets opened within the same minute for
    user names that agree on those characters, in categories that agree up
    to case, are given the same channel name. *)
Theorem X9_channel_name_to_the_minute (now1 now2 : time) (user1 user2 : member)
    (category1 category2 : string) :
  now1 / (60 * usec_per_sec) = now2 / (60 * usec_per_sec) →
  clean_username (m_name user1) = clean_username (m_name user2) →
  lower category1 = lower category2 →
  ticket_channel_name now1 user1 category1
  = ticket_channel_name now2 user2 category2.
Proof.
  intros Hminute Hname Hcategory. unfold ticket_channel_name, strftime_compact.
  destruct (same_minute_fields now1 now2 Hminute) as (-> & Hh & Hm).
  cbv zeta. by rewrite Hname, Hcategory, Hh, Hm.
Qed.

Lemma X9_channel_name_to_the_minute_witness :
  ticket_channel_name sample_time alice "Support"
  = ticket_channel_name (sample_time + 30 * usec_per_sec)
      {| m_id := 3003; m_name := "a.l.i.c.e"; m_bot := false; m_roles := None |}
      "SUPPORT".
Proof.
  apply X9_channel_name_to_the_minute; reflexivity.
Defined.

Lemma chars_filter_string p s :
  chars (filter_string p s) = filter (fun c => p c = true) (chars s).
Proof.
  induction s as [|c s IH]; [done|]. simpl.
  destruct (p c) eqn:Hp.
  - rewrite filter_cons_True by done. simpl. by rewrite IH.
  - rewrite filter_cons_False by (by rewrite Hp). done.
Qed.

Lemma chars_take_string n s : chars (take_string n s) = take n (chars s).
Proof.
  revert s. induction n as [|n IH]; intros [|c s]; try done.
  simpl. by rewrite IH.
Qed.

Lemma filter_all {A} (p : A → bool) (l : list A) :
  Forall (fun x => p x = true) l → filter (fun x => p x = true) l = l.
Proof.
  induction 1 as [|x l Hx _ IH]; [done|].
  rewrite filter_cons_True by done. by rewrite IH.
Qed.

Lemma filter_none {A} (p : A → bool) (l : list A) :
  Forall (fun x => p x = false) l → filter (fun x => p x = true) l = [].
Proof.
  induction 1 as [|x l Hx _ IH]; [done|].
  rewrite filter_cons_False by (by rewrite Hx). exact IH.
Qed.

(** X10. The part of a channel name that comes from the user name: the
    ASCII letters and digits of the name, in order, cut after the tenth.
    It has at most ten characters, applying the cleaning again changes
    nothing, and a name without any ASCII letter or digit is cleaned to
    the empty string. *)
Theorem X10_clean_username (name : string) :
  chars (clean_username name)
  = take 10 (filter (fun c => is_ascii_alnum c = true) (chars name))
  ∧ (String.length (clean_username name) ≤ 10)%nat
  ∧ Forall (fun c => is_ascii_alnum c = true) (chars (clean_username name))
  ∧ clean_username (clean_username name) = clean_username name
  ∧ (Forall (fun c => is_ascii_alnum c = false) (chars name) →
     clean_username name = "").
Proof.
  assert (chars (clean_username name)
          = take 10 (filter (fun c => is_ascii_alnum c = true) (chars name)))
    as Hchars.
  { unfold clean_username. by rewrite chars_take_string, chars_filter_string. }
  assert (Forall (fun c => is_ascii_alnum c = true) (chars (clean_username name)))
    as Halnum.
  { rewrite Hchars. apply Forall_take, Forall_forall.
    by intros c [Hc _]%list_elem_of_filter. }
  split_and!; [done | | done | |].
  - rewrite <- chars_length, Hchars, length_take. lia.
  - apply chars_inj. unfold clean_username at 1.
    rewrite chars_take_string, chars_filter_string, filter_all by done.
    apply take_ge. rewrite Hchars, length_take. lia.
  - intros Hnone. apply chars_inj. rewrite Hchars.
    by rewrite filter_none.
Qed.

Lemma X10_clean_username_witness : clean_username "#!?" = "".
Proof.
  apply (X10_clean_username "#!?"). by repeat constructor.
Defined.

(** ** The router *)

Lemma scan_open_lookup cid d t :
  NoDup (OD.keys d) → OD.get cid d = Some t →
  scan_open cid d = if tk_closed t then None else Some t.
Proof.
  unfold OD.keys. induction d as [|[k v] d IH]; csimpl; [done|].
  intros [Hk Hnd]%NoDup_cons. destruct (decide (cid = k)) as [->|Hne].
  - intros [= ->]. unfold scan_open. simpl. rewrite bool_decide_true by done.
    simpl. destruct (tk_closed t); [|done]. simpl.
    by apply (scan_open_absent k d).
  - intros Hget. unfold scan_open in *. simpl.
    rewrite bool_decide_false by done. simpl. by apply IH.
Qed.

Lemma find_open_ticket_absent cid a found :
  cid ∉ all_channels a →
  truthy_owner found = false → find_open_ticket cid a found = found.
Proof.
  revert found. induction a as [|[uid0 d] a IH]; intros found Hnotin Hfalse;
    [done|].
  rewrite all_channels_cons, elem_of_app in Hnotin. simpl.
  rewrite (scan_open_absent cid d) by tauto. rewrite Hfalse. apply IH; tauto.
Qed.

(** The scan of the staff branch ends on the ticket of the channel when it
    is not flagged closed, and on nothing otherwise. *)
Lemma find_open_ticket_lookup uid cid t a :
  well_formed a → lookup_ticket uid cid a = Some t →
  find_open_ticket cid a None = if tk_closed t then None else Some (uid, t).
Proof.
  intros [Hk Hc] Hlook. unfold lookup_ticket in Hlook.
  destruct (OD.get uid a) as [d|] eqn:Hd; [|done].
  destruct (get_split _ _ _ Hd) as (a1 & a2 & -> & Hnotin).
  unfold unique_channels in Hc.
  rewrite all_channels_app, all_channels_cons in Hc.
  apply NoDup_app in Hc as (_ & Hdisj & Hc2).
  apply NoDup_app in Hc2 as (Hd_nodup & Hdisj2 & _).
  assert (cid ∈ OD.keys d) as Hin.
  { destruct (decide (cid ∈ OD.keys d)) as [|Hno]; [done|].
    apply ODFacts.get_None_keys in Hno. congruence. }
  assert (cid ∉ all_channels a1) as Hno1.
  { intros Hc1. apply (Hdisj _ Hc1). apply elem_of_app. by left. }
  assert (cid ∉ all_channels a2) as Hno2 by (by apply Hdisj2).
  clear Hdisj Hdisj2 Hk Hd Hnotin.
  induction a1 as [|[uid0 d0] a1 IH]; simpl.
  - rewrite (scan_open_lookup cid d t Hd_nodup Hlook).
    destruct (tk_closed t); simpl.
    + by apply find_open_ticket_absent.
    + destruct (uid =? 0) eqn:Hz; simpl; [|done].
      by apply find_open_ticket_absent; [|simpl; rewrite Hz].
  - rewrite all_channels_cons, elem_of_app in Hno1.
    rewrite (scan_open_absent cid d0) by tauto. simpl. apply IH. tauto.
Qed.

Section router.
Context (cfg : config) (tr : transport) (now : time).

Lemma on_channel_message_not_found message s :
  truthy_owner (find_open_ticket (msg_channel message) (active_tickets s) None)
  = false →
  on_channel_message cfg tr now message s = (Ok tt, s, []).
Proof.
  intros Hfalse. unfold on_channel_message. unfold_monad. by rewrite Hfalse.
Qed.

Lemma on_channel_message_relayed message s owner t0 user dm :
  find_open_ticket (msg_channel message) (active_tickets s) None
  = Some (owner, t0) →
  owner ≠ 0 →
  tr_fetch_user tr owner = Ok user →
  tr_user_send tr (m_id user) = Ok dm →
  tr_add_reaction tr (msg_id message) CheckMark = Ok tt →
  on_channel_message cfg tr now message s
  = (Ok tt,
     set_active
       (update_ticket owner (msg_channel message)
          (fun t => append_message (staff_entry now message)
                      (set_last_activity now t))) s,
     relayed cfg message user).
Proof.
  intros Hfound Hnonzero Hfetch Hsend Hreact.
  unfold on_channel_message. unfold_monad. rewrite Hfound. simpl.
  assert ((owner =? 0) = false) as -> by (by apply Z.eqb_neq). simpl.
  rewrite Hfetch. simpl. rewrite Hsend. simpl. by rewrite Hreact.
Qed.
End router.

(** X11. A message written by staff in a guild channel.  In the channel of
    a ticket that is not flagged closed, and on a transport that answers,
    it is logged in the ticket, the ticket's activity is set to now, the
    owner gets it by direct message (signed "Staff" when replies are
    anonymous, with the author's name otherwise) and the message is
    acknowledged with a reaction.  In the channel of a ticket that has been
    archived, and in a channel that is no ticket's, nothing is sent and no
    store changes. *)
Theorem X11_staff_message_relay (cfg : config) (tr : transport) (now : time)
    (message : message) (s : store) :
  well_formed (active_tickets s) →
  let relay := on_channel_message cfg tr now message in
  (∀ uid t user dm,
     lookup_ticket uid (msg_channel message) (active_tickets s) = Some t →
     tk_closed t = false → uid ≠ 0 →
     tr_fetch_user tr uid = Ok user →
     tr_user_send tr (m_id user) = Ok dm →
     tr_add_reaction tr (msg_id message) CheckMark = Ok tt →
     relay s
     = (Ok tt,
        set_active
          (update_ticket uid (msg_channel message)
             (fun t => append_message (staff_entry now message)
                         (set_last_activity now t))) s,
        relayed cfg message user)
     ∧ lookup_ticket uid (msg_channel message)
         (active_tickets (store_after relay s))
       = Some (append_message (staff_entry now message)
                 (set_last_activity now t)))
  ∧ (∀ uid t,
       lookup_ticket uid (msg_channel message) (active_tickets s) = Some t →
       tk_closed t = true → relay s = (Ok tt, s, []))
  ∧ (msg_channel message ∉ all_channels (active_tickets s) →
     relay s = (Ok tt, s, [])).
Proof.
  intros Hwf relay. split_and!.
  - intros uid t user dm Hlook Hopen Hnonzero Hfetch Hsend Hreact.
    pose proof (find_open_ticket_lookup _ _ _ _ Hwf Hlook) as Hfound.
    rewrite Hopen in Hfound.
    assert (relay s
            = (Ok tt,
               set_active
                 (update_ticket uid (msg_channel message)
                    (fun t => append_message (staff_entry now message)
                                (set_last_activity now t))) s,
               relayed cfg message user)) as Hrun
      by (by apply (on_channel_message_relayed cfg tr now message s uid t)
               with (dm := dm)).
    split; [done|]. unfold store_after. rewrite Hrun. simpl.
    by rewrite lookup_update_ticket, Hlook.
  - intros uid t Hlook Hclosed. apply on_channel_message_not_found.
    rewrite (find_open_ticket_lookup _ _ _ _ Hwf Hlook). by rewrite Hclosed.
  - intros Hnotin. apply on_channel_message_not_found.
    by rewrite (proj2 (proj2 (absent_channel_not_found _ _ Hnotin))).
Qed.

Lemma X11_staff_message_relay_witness :
  on_channel_message CONFIG tr_ok (sample_time + 9) bob_replies one_open_ticket
  = (Ok tt,
     set_active
       (update_ticket 1001 5000
          (fun t => append_message (staff_entry (sample_time + 9) bob_replies)
                      (set_last_activity (sample_time + 9) t)))
       one_open_ticket,
     [ UserSend 1001 (PRelay "bob" "how can we help?" []);
       AddReaction 7002 CheckMark ]).
Proof.
  destruct (X11_staff_message_relay CONFIG tr_ok (sample_time + 9) bob_replies
              one_open_ticket one_open_ticket_well_formed) as [Hrelay _].
  apply (Hrelay 1001 (new_ticket sample_time sample_channel "Support")
           {| m_id := 1001; m_name := "alice"; m_bot := false; m_roles := None |}
           9001);
    first [reflexivity | discriminate].
Defined.

Lemma select_options_open_options tickets :
  select_options tickets = open_options tickets.
Proof.
  unfold select_options, open_options.
  induction tickets as [|[cid t] tickets IH]; [done|].
  cbn [flat_map]. rewrite IH, filter_cons.
  destruct (decide (tk_closed (cid, t).2 = false)) as [Ho|Hc]; simpl in *.
  - by rewrite Ho.
  - by destruct (tk_closed t).
Qed.

Lemma open_options_nil tickets :
  open_options tickets = [] ↔ Forall (fun kt => tk_closed kt.2 = true) tickets.
Proof.
  unfold open_options. induction tickets as [|[cid t] tickets IH]; [done|].
  rewrite filter_cons, Forall_cons.
  destruct (decide (tk_closed (cid, t).2 = false)) as [Ho|Hc]; simpl in *.
  - split; [done | intros [Hc _]; congruence].
  - rewrite IH. destruct (tk_closed t); [tauto | done].
Qed.

Lemma first_open_None tickets :
  first_open tickets = None ↔ Forall (fun kt => tk_closed kt.2 = true) tickets.
Proof.
  unfold first_open. induction tickets as [|[cid t] tickets IH]; [done|].
  simpl. rewrite Forall_cons. simpl. destruct (tk_closed t); simpl.
  - rewrite IH. tauto.
  - split; [done | intros [? _]; done].
Qed.

Lemma store_after_then_emit {A} (m : M A) (e : effect) (s : store) :
  store_after (m;; emit e) s = store_after m s.
Proof. unfold_monad. by destruct (m s) as [[[a|e'] s'] out]. Qed.

Lemma effects_then_emit {A} (m : M A) (e x : effect) (s : store) :
  x ∈ effects_of m s → x ∈ effects_of (m;; emit e) s.
Proof.
  unfold_monad. destruct (m s) as [[[a|e'] s'] out]; simpl; [|done].
  intros Hin. apply elem_of_app. by left.
Qed.

Section direct_messages.
Context (cfg : config) (tr : transport) (now : time).

Lemma forward_to_channel_sent message channel s owner ticket_msg :
  find_channel (ch_id channel) (active_tickets s) = Some owner →
  tr_channel_send tr (ch_id channel) = Ok ticket_msg →
  ChannelSend (ch_id channel)
    (PForward (m_id (msg_author message)) (msg_content message)
       (attachment_urls message))
  ∈ effects_of (forward_to_channel cfg tr now message channel) s.
Proof.
  intros Hfind Hsend. unfold forward_to_channel. unfold_monad.
  rewrite Hfind. simpl. rewrite Hsend. simpl.
  repeat (match goal with
          | |- context [tr_add_reaction ?a ?b ?c] =>
              destruct (tr_add_reaction a b c); simpl
          | |- context [tr_channel_send tr (msg_channel message)] =>
              destruct (tr_channel_send tr (msg_channel message)); simpl
          | |- context [msg_attachments message] =>
              destruct (msg_attachments message); simpl
          end); set_solver.
Qed.

Lemma ticket_select_callback_found message cid s t :
  lookup_ticket (m_id (msg_author message)) cid (active_tickets s) = Some t →
  ticket_select_callback cfg tr now message cid s
  = (forward_to_channel cfg tr now message (tk_channel t);;
     emit (Respond ("Your message has been sent to your "
                      +:+ tk_category t +:+ " ticket."))) s.
Proof.
  intros Hlook. unfold ticket_select_callback.
  unfold mbind at 1, M_bind at 1, bind at 1, get_store. simpl.
  rewrite Hlook.
  by destruct ((forward_to_channel cfg tr now message (tk_channel t);;
                emit _) s) as [[r s'] out].
Qed.

Lemma on_direct_message_prompt message s tickets :
  m_id (msg_author message) ∉ blacklisted_users s →
  OD.get (m_id (msg_author message)) (active_tickets s) = Some tickets →
  1 < OD.len tickets →
  msg_reference message = None →
  open_options tickets ≠ [] →
  on_direct_message cfg tr now message s
  = (_ ← channel_send tr (msg_channel message)
           (PSelectPrompt (open_options tickets)); mret tt) s.
Proof.
  intros Hbl Hget Hlen Href Hopts. unfold on_direct_message.
  unfold mbind at 1, M_bind at 1, bind at 1, get_store. simpl.
  destruct (decide (m_id (msg_author message) ∈ blacklisted_users s)); [done|].
  rewrite Hget. apply Z.ltb_lt in Hlen. rewrite Hlen, Href. simpl.
  rewrite select_options_open_options.
  destruct (open_options tickets) as [|option options]; [done|].
  by destruct ((channel_send tr (msg_channel message)
                  (PSelectPrompt (option :: options)) ≫= λ _ : Z, mret ()) s)
    as [[r s'] out].
Qed.

Lemma on_direct_message_no_open message s tickets :
  m_id (msg_author message) ∉ blacklisted_users s →
  OD.get (m_id (msg_author message)) (active_tickets s) = Some tickets →
  Forall (fun kt => tk_closed kt.2 = true) tickets →
  on_direct_message cfg tr now message s = (Ok tt, s, []).
Proof.
  intros Hbl Hget Hclosed. unfold on_direct_message.
  unfold mbind at 1, M_bind at 1, bind at 1, get_store. simpl.
  destruct (decide (m_id (msg_author message) ∈ blacklisted_users s)); [done|].
  rewrite Hget. rewrite select_options_open_options.
  rewrite (proj2 (open_options_nil tickets) Hclosed).
  unfold forward_to_first_open.
  rewrite (proj2 (first_open_None tickets) Hclosed).
  by destruct (_ && _).
Qed.
End direct_messages.

(** X12. A direct message without a message reference from a user who
    holds several tickets, at least one of them not flagged closed, is held
    back: the only thing that happens is the selection prompt, with one
    option for each ticket that is not flagged closed, in iteration order;
    no ticket's log or activity changes (and when the prompt cannot be
    sent the exception leaves the handler).  The message is delivered by
    the answer to the prompt: in a well-formed index, the selection of a
    ticket of the user, stored under the id of its channel, sends the
    message into that channel, logs it in that ticket and sets the
    ticket's activity to the time of the selection. *)
Theorem X12_selection_prompt (cfg : config) (tr : transport) (now : time)
    (message : message) (s : store) (tickets : odict Z ticket) :
  m_id (msg_author message) ∉ blacklisted_users s →
  OD.get (m_id (msg_author message)) (active_tickets s) = Some tickets →
  1 < OD.len tickets →
  msg_reference message = None →
  Exists (fun kt => tk_closed kt.2 = false) tickets →
  let routed := on_direct_message cfg tr now message in
  (∀ prompt,
     tr_channel_send tr (msg_channel message) = Ok prompt →
     routed s
     = (Ok tt, s,
        [ChannelSend (msg_channel message)
           (PSelectPrompt (open_options tickets))]))
  ∧ (∀ e, tr_channel_send tr (msg_channel message) = Raise e →
       routed s = (Raise e, s, []))
  ∧ (∀ tr2 now2 cid t ticket_msg,
       well_formed (active_tickets s) →
       OD.get cid tickets = Some t →
       ch_id (tk_channel t) = cid →
       tr_channel_send tr2 cid = Ok ticket_msg →
       let selected := ticket_select_callback cfg tr2 now2 message cid in
       ChannelSend cid
         (PForward (m_id (msg_author message)) (msg_content message)
            (attachment_urls message))
       ∈ effects_of selected s
       ∧ lookup_ticket (m_id (msg_author message)) cid
           (active_tickets (store_after selected s))
         = Some (append_message (user_entry now2 message ticket_msg)
                   (set_last_activity now2 t))).
Proof.
  intros Hbl Hget Hlen Href Hopen routed.
  assert (open_options tickets ≠ []) as Hopts.
  { intros Hnil. apply open_options_nil in Hnil.
    apply Exists_exists in Hopen as (kt & Hin & Hkt).
    rewrite Forall_forall in Hnil. specialize (Hnil kt Hin). congruence. }
  pose proof (on_direct_message_prompt cfg tr now message s tickets Hbl Hget
                Hlen Href Hopts) as Hrun.
  split_and!.
  - intros prompt Hsend. subst routed. rewrite Hrun. unfold_monad.
    by rewrite Hsend.
  - intros e Hsend. subst routed. rewrite Hrun. unfold_monad.
    by rewrite Hsend.
  - intros tr2 now2 cid t ticket_msg Hwf Ht Hcid Hsend selected.
    assert (lookup_ticket (m_id (msg_author message)) cid (active_tickets s)
            = Some t) as Hlook by (unfold lookup_ticket; by rewrite Hget).
    pose proof (find_channel_owner _ _ _ _ Hwf Hlook) as Hfind.
    rewrite <- Hcid in Hfind, Hsend.
    pose proof (ticket_select_callback_found cfg tr2 now2 message cid s t Hlook)
      as Hrun2.
    unfold effects_of, store_after. subst selected. rewrite Hrun2.
    fold (store_after
            (forward_to_channel cfg tr2 now2 message (tk_channel t);;
             emit (Respond ("Your message has been sent to your "
                              +:+ tk_category t +:+ " ticket."))) s).
    fold (effects_of
            (forward_to_channel cfg tr2 now2 message (tk_channel t);;
             emit (Respond ("Your message has been sent to your "
                              +:+ tk_category t +:+ " ticket."))) s).
    rewrite store_after_then_emit. split.
    + apply effects_then_emit. rewrite <- Hcid at 1.
      by apply forward_to_channel_sent
        with (owner := m_id (msg_author message)) (ticket_msg := ticket_msg).
    + rewrite (forward_to_channel_delivered cfg tr2 now2 message (tk_channel t)
                 s _ ticket_msg Hfind Hsend).
      by rewrite Hcid, !lookup_update_ticket, Hlook.
Qed.

Lemma X12_selection_prompt_witness :
  on_direct_message CONFIG_two tr_ok (sample_time + 5) alice_says_hello
    two_tickets_first_archived
  = (Ok tt, two_tickets_first_archived,
     [ChannelSend 6001
        (PSelectPrompt [("Billing", sample_time + 1, 5001)])]).
Proof.
  destruct (X12_selection_prompt CONFIG_two tr_ok (sample_time + 5)
              alice_says_hello two_tickets_first_archived
              [ (5000, set_closed true
                         (new_ticket sample_time sample_channel "Support"));
                (5001, new_ticket (sample_time + 1) billing_channel "Billing") ])
    as [Hprompt _].
  - apply not_elem_of_empty.
  - reflexivity.
  - reflexivity.
  - reflexivity.
  - apply Exists_cons_tl, Exists_cons_hd. reflexivity.
  - apply (Hprompt 9000). reflexivity.
Defined.

(** X13. A user all of whose tickets are flagged closed (archived) is in a
    dead end.  A direct message of this user is dropped: nothing is sent,
    not even the welcome message, and no store changes.  The archived
    tickets still count towards the limit: once they are as many as the
    limit, every attempt to open a ticket is refused. *)
Theorem X13_archived_tickets_dead_end (cfg : config) (tr : transport)
    (now : time) (message : message) (s : store) (tickets : odict Z ticket) :
  m_id (msg_author message) ∉ blacklisted_users s →
  OD.get (m_id (msg_author message)) (active_tickets s) = Some tickets →
  Forall (fun kt => tk_closed kt.2 = true) tickets →
  on_direct_message cfg tr now message s = (Ok tt, s, [])
  ∧ (TICKET_LIMIT_PER_USER cfg ≤ OD.len tickets →
     ∀ category_name message_content,
       create_ticket cfg tr now (msg_author message) category_name
         message_content s
       = (Ok limit_message, s, [])).
Proof.
  intros Hbl Hget Hclosed. split.
  - by apply (on_direct_message_no_open cfg tr now message s tickets).
  - intros Hlimit category_name message_content.
    unfold create_ticket. unfold_monad. simpl. unfold limit_reached.
    rewrite Hget. apply Z.leb_le in Hlimit. by rewrite Hlimit.
Qed.

Lemma X13_archived_tickets_dead_end_witness :
  on_direct_message CONFIG tr_ok (sample_time + 5) alice_says_hello
    (exec CONFIG opened_then_archived empty_store)
  = (Ok tt, exec CONFIG opened_then_archived empty_store, []).
Proof.
  apply (X13_archived_tickets_dead_end CONFIG tr_ok (sample_time + 5)
           alice_says_hello (exec CONFIG opened_then_archived empty_store)
           [ (5000, set_closed true
                      (new_ticket sample_time sample_channel "Support")) ]).
  - apply not_elem_of_empty.
  - reflexivity.
  - repeat constructor.
Defined.

Lemma on_channel_message_blacklist cfg tr now message f s :
  on_channel_message cfg tr now message (set_blacklist f s)
  = let '(r, s', out) := on_channel_message cfg tr now message s in
    (r, set_blacklist f s', out).
Proof.
  unfold on_channel_message. unfold_monad. simpl.
  destruct (truthy_owner _); [|done].
  destruct (find_open_ticket _ _ _) as [[owner t0]|]; [|done]. simpl.
  repeat (match goal with
          | |- context [match ?r with Ok _ => _ | Raise _ => _ end] =>
              destruct r; simpl
          end); done.
Qed.

(** X14. Blacklisting works in one direction only.  The Blacklist button
    pressed by a member with a staff role adds the owner to the blacklist
    and touches nothing else: the owner's tickets stay open.  From then on
    a direct message of the owner is answered with the access-denied
    notice and reaches no ticket, while a staff message in a ticket channel
    is relayed to the owner exactly as before.  Pressed by a member
    without a staff role, the button changes no store. *)
Theorem X14_blacklisting_is_one_way (cfg : config) (clicker user : member)
    (roles : list string) (s : store) :
  m_roles clicker = Some roles →
  let s1 := store_after (blacklist_button cfg clicker user) s in
  (is_staff cfg roles = false →
   blacklist_button cfg clicker user s
   = (Ok tt, s, [Respond "You don't have permission to blacklist users."]))
  ∧ (is_staff cfg roles = true →
     s1 = set_blacklist (fun b => {[m_id user]} ∪ b) s
     ∧ m_id user ∈ blacklisted_users s1
     ∧ active_tickets s1 = active_tickets s
     ∧ (∀ tr now message notice,
          m_id (msg_author message) = m_id user →
          tr_channel_send tr (msg_channel message) = Ok notice →
          on_direct_message cfg tr now message s1
          = (Ok tt, s1, [ChannelSend (msg_channel message) PAccessDenied]))
     ∧ (∀ tr now message,
          on_channel_message cfg tr now message s1
          = let '(r, s', out) := on_channel_message cfg tr now message s in
            (r, set_blacklist (fun b => {[m_id user]} ∪ b) s', out))).
Proof.
  intros Hroles s1. split.
  - intros Hstaff. unfold blacklist_button. unfold_monad.
    rewrite Hroles. simpl. by rewrite Hstaff.
  - intros Hstaff.
    assert (s1 = set_blacklist (fun b => {[m_id user]} ∪ b) s) as Hs1.
    { subst s1. unfold blacklist_button. unfold_monad.
      rewrite Hroles. simpl. by rewrite Hstaff. }
    assert (m_id user ∈ blacklisted_users s1) as Hin.
    { rewrite Hs1. simpl. set_solver. }
    split_and!; [done | done | by rewrite Hs1 | |].
    + intros tr now message notice Hauthor Hsend.
      unfold on_direct_message. unfold_monad. rewrite Hauthor.
      destruct (decide (m_id user ∈ blacklisted_users s1)); [|done].
      simpl. by rewrite Hsend.
    + intros tr now message. rewrite Hs1. apply on_channel_message_blacklist.
Qed.

Lemma X14_blacklisting_is_one_way_witness :
  1001 ∈ blacklisted_users opened_then_blacklisted
  ∧ active_tickets opened_then_blacklisted = active_tickets one_open_ticket.
Proof.
  destruct (X14_blacklisting_is_one_way CONFIG bob alice ["Moderator"]
              one_open_ticket eq_refl) as [_ Hstaff].
  destruct (Hstaff eq_refl) as (_ & Hin & Hactive & _).
  split; [exact Hin | exact Hactive].
Defined.

Lemma send_welcome_message_active cfg tr now user s :
  active_tickets (store_after (send_welcome_message cfg tr now user) s)
  = active_tickets s.
Proof.
  unfold send_welcome_message, greet. unfold_monad.
  destruct (user_welcome_timestamps s !! m_id user) as [last|];
    [destruct (within_cooldown cfg now last); [done|]|];
    by destruct (tr_user_send tr (m_id user)).
Qed.

(** X15. What a message must be to touch a ticket.  When [on_message]
    changes the active index, the author is not a bot and the content is
    not a command; a direct message then comes from a user who is not
    blacklisted and holds a ticket that is not flagged closed, and either
    holds no second ticket or carries a message reference; a message in a
    guild channel then is in the channel of a ticket that is not flagged
    closed.  Every other message leaves every ticket as it is. *)
Theorem X15_what_reaches_a_ticket (cfg : config) (tr : transport) (now : time)
    (bot_id : Z) (message : message) (s : store) :
  active_tickets (store_after (on_message cfg tr now bot_id message) s)
  ≠ active_tickets s →
  m_bot (msg_author message) = false
  ∧ startswith (msg_content message) command_prefix = false
  ∧ (msg_is_dm message = true →
     (m_id (msg_author message) ∉ blacklisted_users s)
     ∧ ∃ tickets cid t,
         OD.get (m_id (msg_author message)) (active_tickets s) = Some tickets
         ∧ first_open tickets = Some (cid, t)
         ∧ (OD.len tickets ≤ 1 ∨ is_Some (msg_reference message)))
  ∧ (msg_is_dm message = false →
     truthy_owner
       (find_open_ticket (msg_channel message) (active_tickets s) None)
     = true).
Proof.
  unfold on_message. intros Hchanged.
  destruct (m_bot (msg_author message)) eqn:Hbot; simpl in Hchanged.
  { by destruct (bool_decide _), (msg_is_dm message). }
  destruct (startswith (msg_content message) command_prefix) eqn:Hcommand;
    simpl in Hchanged; [done|].
  split; [done|]. split; [done|].
  destruct (msg_is_dm message) eqn:Hdm; simpl in Hchanged.
  - split; [|done]. intros _.
    unfold on_direct_message in Hchanged.
    unfold store_after, mbind at 1, M_bind at 1, bind at 1, get_store
      in Hchanged.
    simpl in Hchanged.
    destruct (decide (m_id (msg_author message) ∈ blacklisted_users s))
      as [Hbl|Hbl].
    { exfalso. apply Hchanged. unfold_monad.
      by destruct (tr_channel_send tr (msg_channel message)). }
    split; [done|].
    destruct (OD.get (m_id (msg_author message)) (active_tickets s))
      as [tickets|] eqn:Hget.
    2:{ exfalso. apply Hchanged.
        pose proof (send_welcome_message_active cfg tr now (msg_author message) s)
          as Hw. unfold store_after in Hw.
        by destruct (send_welcome_message cfg tr now (msg_author message) s)
          as [[r s'] out]. }
    destruct (first_open tickets) as [[cid t]|] eqn:Hfirst.
    2:{ exfalso. apply Hchanged.
        rewrite select_options_open_options,
          (proj2 (open_options_nil tickets)
             (proj1 (first_open_None tickets) Hfirst)).
        unfold forward_to_first_open. rewrite Hfirst.
        by destruct (_ && _). }
    exists tickets, cid, t. split; [done|]. split; [done|].
    destruct (Z.le_gt_cases (OD.len tickets) 1) as [Hle|Hgt]; [by left|].
    right. destruct (msg_reference message) as [reference|] eqn:Href;
      [done|].
    exfalso. apply Hchanged. apply Z.ltb_lt in Hgt. rewrite Hgt.
    simpl. rewrite select_options_open_options.
    destruct (open_options tickets) as [|option options] eqn:Hopts.
    { apply open_options_nil, first_open_None in Hopts. congruence. }
    unfold_monad. by destruct (tr_channel_send tr (msg_channel message)).
  - split; [done|]. intros _.
    destruct (truthy_owner _) eqn:Htruthy; [done|].
    exfalso. apply Hchanged. unfold store_after.
    by rewrite (on_channel_message_not_found cfg tr now message s Htruthy).
Qed.

Lemma X15_what_reaches_a_ticket_witness :
  m_id (msg_author alice_says_hello) ∉ blacklisted_users one_open_ticket.
Proof.
  destruct (X15_what_reaches_a_ticket CONFIG tr_ok (sample_time + 5) 42
              alice_says_hello one_open_ticket) as (_ & _ & Hdm & _).
  - vm_compute. discriminate.
  - by destruct (Hdm eq_refl).
Defined.

(** ** The sweep of the reaper, once more *)

Lemma set_set {K V} `{EqDecision K} (k : K) (v v' : V) (d : odict K V) :
  OD.set k v (OD.set k v' d) = OD.set k v d.
Proof.
  induction d as [|[k0 v0] d IH]; simpl.
  - by destruct (decide (k = k)).
  - destruct (decide (k = k0)) as [->|Hne]; simpl.
    + by destruct (decide (k0 = k0)).
    + destruct (decide (k = k0)); [done|]. by rewrite IH.
Qed.

Lemma update_ticket_twice uid cid f g a :
  update_ticket uid cid g (update_ticket uid cid f a)
  = update_ticket uid cid (fun t => g (f t)) a.
Proof.
  unfold update_ticket.
  destruct (OD.get uid a) as [d|] eqn:Hd; [|by rewrite Hd].
  destruct (OD.get cid d) as [t|] eqn:Ht; [|by rewrite Hd, Ht].
  by rewrite !ODFacts.get_set_eq, !set_set.
Qed.

Section sweeping.
Context (cfg : config) (tr : transport) (now : time).

Lemma auto_close_tickets_run s :
  auto_close_tickets cfg tr now s
  = for_each (auto_close_one cfg tr now)
      (find_inactive cfg now (active_tickets s)) s.
Proof.
  unfold auto_close_tickets. unfold_monad.
  by destruct (for_each _ _ s) as [[r s1] out].
Qed.

Lemma for_each_auto_close_returns targets s :
  outcome_of (for_each (auto_close_one cfg tr now) targets) s = Ok tt.
Proof.
  revert s. induction targets as [|[uid cid] targets IH]; intros s; [done|].
  destruct (auto_close_one_cases cfg tr now uid cid s) as (s1 & out & Hrun & _).
  specialize (IH s1). unfold outcome_of in *. cbn [for_each].
  unfold mbind, M_bind, bind. rewrite Hrun.
  by destruct (for_each (auto_close_one cfg tr now) targets s1)
    as [[r s2] out2].
Qed.

Lemma sweep_well_formed targets s :
  well_formed (active_tickets s) →
  well_formed
    (active_tickets
       (store_after (for_each (auto_close_one cfg tr now) targets) s)).
Proof.
  revert s. induction targets as [|x targets IH]; intros s Hwf; [done|].
  destruct (for_each_auto_close_cons cfg tr now x targets s) as [-> _].
  apply IH. by apply (auto_close_one_keeps cfg tr now x s Hwf).
Qed.

(** A ticket that is not due is left alone by the sweep. *)
Lemma sweep_spares s uid cid t :
  well_formed (active_tickets s) →
  lookup_ticket uid cid (active_tickets s) = Some t →
  due cfg now t = false →
  lookup_ticket uid cid
    (active_tickets (store_after (auto_close_tickets cfg tr now) s))
  = Some t.
Proof.
  intros Hwf Hlook Hdue. unfold store_after. rewrite auto_close_tickets_run.
  destruct (sweep_keeps cfg tr now (find_inactive cfg now (active_tickets s))
              s Hwf) as (Hother & _ & _).
  unfold store_after in Hother. rewrite Hother; [done|].
  rewrite (in_find_inactive cfg now _ uid cid t Hwf Hlook). congruence.
Qed.

Lemma find_inactive_elem a uid cid :
  (uid, cid) ∈ find_inactive cfg now a →
  ∃ d t, (uid, d) ∈ a ∧ (cid, t) ∈ d ∧ due cfg now t = true.
Proof.
  unfold find_inactive. rewrite list_elem_of_In, in_flat_map.
  intros ([uid' d] & Hin & Hin'). apply in_flat_map in Hin'.
  destruct Hin' as ([cid' t] & Hin_t & Hdue).
  destruct (due cfg now t) eqn:Ht; [|by destruct Hdue].
  destruct Hdue as [[= <- <-]|[]].
  exists d, t. by rewrite !list_elem_of_In.
Qed.

Lemma find_inactive_nil a :
  well_formed a →
  (∀ uid cid t, lookup_ticket uid cid a = Some t → due cfg now t = false) →
  find_inactive cfg now a = [].
Proof.
  intros [Hk Hc] Hnone.
  destruct (find_inactive cfg now a) as [|[uid cid] rest] eqn:Hfind; [done|].
  exfalso.
  destruct (find_inactive_elem a uid cid) as (d & t & Hd & Ht & Hdue).
  { rewrite Hfind. apply list_elem_of_here. }
  assert (lookup_ticket uid cid a = Some t) as Hlook.
  { unfold lookup_ticket. rewrite (ODFacts.elem_get _ _ _ Hk Hd).
    apply ODFacts.elem_get; [|done]. by apply (unique_channels_entry uid d a). }
  specialize (Hnone _ _ _ Hlook). congruence.
Qed.

Lemma sweep_notice_without_close targets uid cid t user notice e s :
  well_formed (active_tickets s) →
  lookup_ticket uid cid (active_tickets s) = Some t →
  (uid, cid) ∈ targets →
  tr_fetch_user tr uid = Ok user →
  tr_channel_send tr (ch_id (tk_channel t)) = Ok notice →
  transcript_result cfg tr now (tk_channel t) user = Raise e →
  let sweep := for_each (auto_close_one cfg tr now) targets in
  ChannelSend (ch_id (tk_channel t)) PAutoClose ∈ effects_of sweep s
  ∧ LoggerError ("Error auto-closing ticket: " +:+ e) ∈ effects_of sweep s.
Proof.
  intros Hwf Hlook Hin Hfetch Hsend Htr.
  revert s Hwf Hlook. induction targets as [|x targets IH]; intros s Hwf Hlook.
  { by apply elem_of_nil in Hin. }
  cbv zeta. destruct (for_each_auto_close_cons cfg tr now x targets s)
    as [_ ->].
  destruct (auto_close_one_keeps cfg tr now x s Hwf) as (Hwf1 & Hother & _ & _).
  destruct (decide (x = (uid, cid))) as [->|Hne].
  - pose proof (read_ticket_present uid cid t s Hlook) as Hread.
    assert (effects_of (auto_close_one cfg tr now (uid, cid)) s
            = [ ChannelSend (ch_id (tk_channel t)) PAutoClose;
                LoggerError ("Error auto-closing ticket: " +:+ e) ]) as ->.
    { unfold auto_close_one. unfold_monad. rewrite Hread. simpl.
      rewrite Hfetch. simpl. rewrite Hsend. simpl.
      by rewrite create_transcript_run, Htr. }
    split; apply elem_of_app; left;
      [apply list_elem_of_here | apply list_elem_of_further, list_elem_of_here].
  - apply elem_of_cons in Hin as [Heq|Hin]; [congruence|].
    assert (lookup_ticket uid cid
              (active_tickets (store_after (auto_close_one cfg tr now x) s))
            = Some t) as Hlook1 by (rewrite Hother; done).
    destruct (IH Hin _ Hwf1 Hlook1) as [H1 H2].
    split; apply elem_of_app; by right.
Qed.
End sweeping.

(** X16. A message postpones the automatic close.  Whatever the transport
    does, the forwarding of a user's message into the channel of a ticket,
    and the message of a staff member in the channel of a ticket that is
    not flagged closed, set the activity of the ticket to the time of the
    message; a sweep that runs less than [AUTO_CLOSE_TIME] hours after that
    time leaves the ticket in the active index as the message left it. *)
Theorem X16_message_postpones_auto_close (cfg : config) (tr1 tr2 : transport)
    (now1 now2 : time) (message : message) (s : store) (uid cid : Z)
    (t : ticket) :
  well_formed (active_tickets s) →
  lookup_ticket uid cid (active_tickets s) = Some t →
  now2 - now1 < AUTO_CLOSE_TIME cfg * 3600 * usec_per_sec →
  let survives (s1 : store) :=
    ∃ t1, lookup_ticket uid cid (active_tickets s1) = Some t1
          ∧ tk_last_activity t1 = now1
          ∧ lookup_ticket uid cid
              (active_tickets (store_after (auto_close_tickets cfg tr2 now2) s1))
            = Some t1 in
  (∀ channel, ch_id channel = cid →
     survives (store_after (forward_to_channel cfg tr1 now1 message channel) s))
  ∧ (msg_channel message = cid → tk_closed t = false → uid ≠ 0 →
     survives (store_after (on_channel_message cfg tr1 now1 message) s)).
Proof.
  intros Hwf Hlook Hsoon survives.
  assert (∀ f s1,
            active_tickets s1 = update_ticket uid cid f (active_tickets s) →
            tk_last_activity (f t) = now1 → survives s1) as Hsurvives.
  { intros f s1 Hs1 Hactivity. exists (f t).
    assert (lookup_ticket uid cid (active_tickets s1) = Some (f t)) as Hlook1
      by (by rewrite Hs1, lookup_update_ticket, Hlook).
    split; [done|]. split; [done|].
    apply sweep_spares; [|done|].
    - rewrite Hs1. by apply well_formed_update.
    - unfold due, inactive. rewrite Hactivity.
      apply andb_false_iff. right. apply Z.leb_gt. lia. }
  split.
  - intros channel Hcid.
    pose proof (find_channel_owner _ _ _ _ Hwf Hlook) as Hfind.
    rewrite <- Hcid in Hfind.
    destruct (tr_channel_send tr1 (ch_id channel)) as [ticket_msg|e] eqn:Hsend.
    + apply (Hsurvives
               (fun t => append_message (user_entry now1 message ticket_msg)
                           (set_last_activity now1 t))); [|done].
      rewrite (forward_to_channel_delivered cfg tr1 now1 message channel s uid
                 ticket_msg Hfind Hsend).
      by rewrite Hcid, update_ticket_twice.
    + apply (Hsurvives (set_last_activity now1)); [|done].
      destruct (forward_to_channel_failed cfg tr1 now1 message channel s uid e
                  Hfind Hsend) as [-> _].
      by rewrite Hcid.
  - intros Hchannel Hopen Hnonzero.
    pose proof (find_open_ticket_lookup _ _ _ _ Hwf Hlook) as Hfound.
    rewrite Hopen, <- Hchannel in Hfound.
    destruct (on_channel_message_logged cfg tr1 now1 message s uid t Hfound
                Hnonzero) as [Hactive _].
    apply (Hsurvives
             (fun t => append_message (staff_entry now1 message)
                         (set_last_activity now1 t))); [|done].
    by rewrite Hactive, Hchannel.
Qed.

Lemma X16_message_postpones_auto_close_witness :
  ∃ t1,
    lookup_ticket 1001 5000
      (active_tickets
         (store_after
            (forward_to_channel CONFIG tr_ok (sample_time + 5) alice_says_hello
               sample_channel)
            one_open_ticket))
    = Some t1
    ∧ tk_last_activity t1 = sample_time + 5
    ∧ lookup_ticket 1001 5000
        (active_tickets
           (store_after (auto_close_tickets CONFIG tr_ok a_day_later)
              (store_after
                 (forward_to_channel CONFIG tr_ok (sample_time + 5)
                    alice_says_hello sample_channel)
                 one_open_ticket)))
      = Some t1.
Proof.
  destruct (X16_message_postpones_auto_close CONFIG tr_ok tr_ok
              (sample_time + 5) a_day_later alice_says_hello one_open_ticket
              1001 5000 (new_ticket sample_time sample_channel "Support")
              one_open_ticket_well_formed eq_refl) as [Hforward _].
  - reflexivity.
  - apply (Hforward sample_channel). reflexivity.
Defined.

(** X17. On a transport that answers for every ticket that is due, one
    sweep is enough: the tickets that are left in the active index are
    tickets that were there before, unchanged, and none of them is due, so
    that a second sweep at the same time finds nothing to close, calls
    nothing and changes nothing. *)
Theorem X17_one_sweep_is_enough (cfg : config) (tr : transport) (now : time)
    (s : store) :
  well_formed (active_tickets s) →
  (∀ uid cid t,
     lookup_ticket uid cid (active_tickets s) = Some t →
     due cfg now t = true → reap_goes_through cfg tr now uid t) →
  let s' := store_after (auto_close_tickets cfg tr now) s in
  outcome_of (auto_close_tickets cfg tr now) s = Ok tt
  ∧ (∀ uid cid t,
       lookup_ticket uid cid (active_tickets s') = Some t →
       lookup_ticket uid cid (active_tickets s) = Some t
       ∧ due cfg now t = false)
  ∧ find_inactive cfg now (active_tickets s') = []
  ∧ (∀ tr', auto_close_tickets cfg tr' now s' = (Ok tt, s', [])).
Proof.
  intros Hwf Hanswers s'.
  set (targets := find_inactive cfg now (active_tickets s)).
  assert (s' = store_after (for_each (auto_close_one cfg tr now) targets) s)
    as Hs'.
  { subst s'. unfold store_after. by rewrite auto_close_tickets_run. }
  assert (well_formed (active_tickets s')) as Hwf'.
  { rewrite Hs'. by apply sweep_well_formed. }
  destruct (sweep_keeps cfg tr now targets s Hwf) as (Hother & Hnone & _).
  fold targets in Hother, Hnone. rewrite <- Hs' in Hother, Hnone.
  assert (∀ uid cid t,
            lookup_ticket uid cid (active_tickets s') = Some t →
            lookup_ticket uid cid (active_tickets s) = Some t
            ∧ due cfg now t = false) as Hleft.
  { intros uid cid t Hlook'.
    destruct (lookup_ticket uid cid (active_tickets s)) as [t0|] eqn:Hlook;
      [|by rewrite (Hnone _ _ Hlook) in Hlook'].
    pose proof (in_find_inactive cfg now _ uid cid t0 Hwf Hlook) as Hin.
    fold targets in Hin.
    destruct (due cfg now t0) eqn:Hdue.
    - exfalso.
      destruct (Hanswers _ _ _ Hlook Hdue)
        as (user & notice & transcript & Hfetch & Hsend & Htr).
      destruct (sweep_closes cfg tr now targets uid cid t0 user notice
                  transcript s Hwf Hlook (proj2 Hin eq_refl) Hfetch Hsend Htr)
        as [Hgone _].
      rewrite <- Hs' in Hgone. congruence.
    - rewrite Hother in Hlook'; [|rewrite Hin; congruence].
      rewrite Hlook in Hlook'. by injection Hlook' as <-. }
  assert (find_inactive cfg now (active_tickets s') = []) as Hnil.
  { apply find_inactive_nil; [done|]. intros uid cid t Hlook'.
    by destruct (Hleft _ _ _ Hlook'). }
  split_and!; [|done|done|].
  - unfold outcome_of. rewrite auto_close_tickets_run.
    apply for_each_auto_close_returns.
  - intros tr'. by rewrite auto_close_tickets_run, Hnil.
Qed.

Lemma X17_one_sweep_is_enough_witness :
  auto_close_tickets CONFIG tr_channel_gone two_days_later
    (store_after (auto_close_tickets CONFIG tr_ok two_days_later)
       one_open_ticket)
  = (Ok tt,
     store_after (auto_close_tickets CONFIG tr_ok two_days_later)
       one_open_ticket,
     []).
Proof.
  apply (X17_one_sweep_is_enough CONFIG tr_ok two_days_later one_open_ticket
           one_open_ticket_well_formed).
  intros uid cid t Hlook Hdue.
  exists {| m_id := uid; m_name := "alice"; m_bot := false; m_roles := None |},
    9000.
  eexists. split_and!; reflexivity.
Defined.

(** X18. The sweep posts its notice before it builds the transcript.  A
    due ticket whose owner is fetched and whose channel takes the notice,
    but whose transcript cannot be built, is told that it has been closed
    automatically and is not closed: the error is logged, the ticket stays
    in the active index unchanged, and it is due again at every later
    sweep. *)
Theorem X18_notice_without_close (cfg : config) (tr : transport) (now : time)
    (s : store) (uid cid : Z) (t : ticket) (user : member) (notice : Z)
    (e : string) :
  well_formed (active_tickets s) →
  lookup_ticket uid cid (active_tickets s) = Some t →
  due cfg now t = true →
  tr_fetch_user tr uid = Ok user →
  tr_channel_send tr (ch_id (tk_channel t)) = Ok notice →
  transcript_result cfg tr now (tk_channel t) user = Raise e →
  let sweep := auto_close_tickets cfg tr now in
  ChannelSend (ch_id (tk_channel t)) PAutoClose ∈ effects_of sweep s
  ∧ LoggerError ("Error auto-closing ticket: " +:+ e) ∈ effects_of sweep s
  ∧ lookup_ticket uid cid (active_tickets (store_after sweep s)) = Some t
  ∧ (∀ later, now ≤ later → due cfg later t = true).
Proof.
  intros Hwf Hlook Hdue Hfetch Hsend Htr sweep.
  pose proof (proj2 (in_find_inactive cfg now _ uid cid t Hwf Hlook) Hdue)
    as Hin.
  destruct (sweep_notice_without_close cfg tr now _ uid cid t user notice e s
              Hwf Hlook Hin Hfetch Hsend Htr) as [Hnotice Herror].
  subst sweep. unfold effects_of, store_after in *.
  rewrite auto_close_tickets_run. split_and!; [done | done | |].
  - apply (sweep_failed cfg tr now); [done | done |].
    intros (user' & notice' & transcript & Hfetch' & _ & Htr').
    congruence.
  - intros later Hlater. unfold due, inactive in *.
    apply andb_true_iff in Hdue as [Hopen Hidle]. rewrite Hopen. simpl.
    apply Z.leb_le in Hidle. apply Z.leb_le. lia.
Qed.

Lemma X18_notice_without_close_witness :
  ChannelSend 5000 PAutoClose
  ∈ effects_of (auto_close_tickets CONFIG tr_author_left two_days_later)
      one_open_ticket
  ∧ lookup_ticket 1001 5000
      (active_tickets
         (store_after (auto_close_tickets CONFIG tr_author_left two_days_later)
            one_open_ticket))
    = Some (new_ticket sample_time sample_channel "Support").
Proof.
  destruct (X18_notice_without_close CONFIG tr_author_left two_days_later
              one_open_ticket 1001 5000
              (new_ticket sample_time sample_channel "Support")
              {| m_id := 1001; m_name := "alice"; m_bot := false;
                 m_roles := None |}
              9000 "'User' object has no attribute 'roles'"
              one_open_ticket_well_formed eq_refl eq_refl eq_refl eq_refl
              eq_refl) as (Hnotice & _ & Hstays & _).
  split; [exact Hnotice | exact Hstays].
Defined.

(** ** The layout of a transcript, and a close that cannot be made *)

Lemma transcript_body_cons cfg m messages :
  transcript_body cfg (m :: messages)
  = match transcript_message cfg "" m with
    | Ok entry =>
        match transcript_body cfg messages with
        | Ok body => Ok (entry +:+ body)
        | Raise e => Raise e
        end
    | Raise e => Raise e
    end.
Proof.
  unfold transcript_body at 1. simpl.
  destruct (transcript_message cfg "" m) as [entry|e]; [|done].
  apply transcript_loop_prefix.
Qed.

Lemma transcript_message_cases cfg m :
  transcript_message cfg "" m
  = if is_control_message m then Ok ""
    else match m_roles (msg_author m) with
         | Some _ => Ok (entry_of cfg m)
         | None => Raise "'User' object has no attribute 'roles'"
         end.
Proof.
  unfold transcript_message, is_control_message, entry_of.
  destruct (_ && _ && _); [done|]. by destruct (m_roles (msg_author m)).
Qed.

Lemma transcript_body_layout (cfg : config) (messages : list message) :
  (Forall (fun m => is_Some (m_roles (msg_author m))) (transcribed messages) →
   transcript_body cfg messages
   = Ok (join (entry_of cfg <$> transcribed messages)))
  ∧ (Exists (fun m => m_roles (msg_author m) = None) (transcribed messages) →
     transcript_body cfg messages
     = Raise "'User' object has no attribute 'roles'").
Proof.
  unfold transcribed. induction messages as [|m messages [IHok IHraise]].
  { split; [done|]. by intros ?%Exists_nil. }
  rewrite transcript_body_cons, transcript_message_cases, filter_cons.
  destruct (is_control_message m) eqn:Hcontrol; simpl.
  - split.
    + intros Hall. by rewrite (IHok Hall).
    + intros Hsome. by rewrite (IHraise Hsome).
  - split.
    + intros [[roles Hroles] Hall]%Forall_cons. rewrite Hroles.
      by rewrite (IHok Hall).
    + intros [Hnone|Hsome]%Exists_cons.
      * by rewrite Hnone.
      * rewrite (IHraise Hsome). by destruct (m_roles (msg_author m)).
Qed.


(** X19. The body of a transcript.  When every message of the history
    that is not the pinned control message was written by a member of the
    guild, the body is the sequence of the entries of these messages, in
    the order of the history, and the control messages leave no trace.
    When one of these messages was written by someone who is no longer a
    member, no transcript is made: reading the roles of the author raises. *)
Theorem X19_transcript_body (cfg : config) (messages : list message) :
  (Forall (fun m => is_Some (m_roles (msg_author m))) (transcribed messages) →
   transcript_body cfg messages
   = Ok (join (entry_of cfg <$> transcribed messages)))
  ∧ (Exists (fun m => m_roles (msg_author m) = None) (transcribed messages) →
     transcript_body cfg messages
     = Raise "'User' object has no attribute 'roles'").
Proof. apply transcript_body_layout. Qed.

Lemma X19_transcript_body_witness :
  transcript_body CONFIG [bob_replies]
  = Ok ("[2023-11-14 22:13:20] bob (Staff):" +:+ nl +:+ "how can we help?" +:+ nl
          +:+ nl).
Proof.
  apply (X19_transcript_body CONFIG [bob_replies]).
  repeat constructor. by eexists.
Defined.

(** X20. A close needs a transcript.  When the history of the channel
    cannot be read, or holds a message (other than the pinned control
    message) of someone who is no longer a member of the guild, the close
    is given up at its first step: the error is answered and logged, no
    notice is posted, the channel is not deleted and the ticket stays in
    the active index. *)
Theorem X20_close_needs_transcript (cfg : config) (tr : transport) (now : time)
    (closer : member) (channel : channel) (user : member) (s : store) :
  let close := actually_close_ticket cfg tr now closer channel user in
  let given_up (e : string) :=
    close s
    = (Ok tt, s,
       [ Respond ("Error closing ticket: " +:+ e);
         LoggerError ("Error closing ticket: " +:+ e) ]) in
  (∀ e, tr_history tr (ch_id channel) = Raise e → given_up e)
  ∧ (∀ messages,
       tr_history tr (ch_id channel) = Ok messages →
       Exists (fun m => m_roles (msg_author m) = None) (transcribed messages) →
       given_up "'User' object has no attribute 'roles'").
Proof.
  intros close given_up.
  assert (∀ e, transcript_result cfg tr now channel user = Raise e → given_up e)
    as Hgiven_up.
  { intros e He. subst given_up close. unfold actually_close_ticket.
    unfold_monad. by rewrite create_transcript_run, He. }
  split.
  - intros e He. apply Hgiven_up. unfold transcript_result. by rewrite He.
  - intros messages Hhistory Hleft. apply Hgiven_up.
    unfold transcript_result. rewrite Hhistory.
    rewrite transcript_loop_prefix.
    by rewrite (proj2 (transcript_body_layout cfg messages) Hleft).
Qed.

Lemma X20_close_needs_transcript_witness :
  actually_close_ticket CONFIG tr_author_left a_second_later bob sample_channel
    alice one_open_ticket
  = (Ok tt, one_open_ticket,
     [ Respond "Error closing ticket: 'User' object has no attribute 'roles'";
       LoggerError
         "Error closing ticket: 'User' object has no attribute 'roles'" ]).
Proof.
  destruct (X20_close_needs_transcript CONFIG tr_author_left a_second_later bob
              sample_channel alice one_open_ticket) as [_ Hleft].
  apply (Hleft _ eq_refl). apply Exists_cons_hd. reflexivity.
Defined.

Section transfer.
Context (tr : transport).

Lemma transfer_callback_store channel user new_category s t :
  lookup_ticket (m_id user) (ch_id channel) (active_tickets s) = Some t →
  tr_channel_edit tr (ch_id channel) = Ok tt →
  store_after (transfer_callback tr channel user new_category) s
  = set_active
      (update_ticket (m_id user) (ch_id channel) (set_category new_category)) s.
Proof.
  intros Hlook Hedit. unfold transfer_callback, write_ticket. unfold_monad.
  rewrite Hedit. simpl. unfold lookup_ticket in Hlook.
  destruct (OD.get (m_id user) (active_tickets s)) as [d|]; [|done].
  rewrite Hlook. simpl.
  destruct (tr_channel_send tr (ch_id channel)); simpl; [|done].
  by destruct (tr_user_send tr (m_id user)).
Qed.

Lemma transfer_callback_absent channel user new_category s :
  lookup_ticket (m_id user) (ch_id channel) (active_tickets s) = None →
  tr_channel_edit tr (ch_id channel) = Ok tt →
  ∃ e, transfer_callback tr channel user new_category s
       = (Ok tt, s,
          [ ChannelEdit (ch_id channel);
            Respond ("Error transferring ticket: " +:+ e) ]).
Proof.
  intros Hlook Hedit. unfold transfer_callback, write_ticket. unfold_monad.
  rewrite Hedit. simpl. unfold lookup_ticket in Hlook.
  destruct (OD.get (m_id user) (active_tickets s)) as [d|]; [|by eexists].
  rewrite Hlook. by eexists.
Qed.
End transfer.

(** X21. The transfer of a ticket writes the new category as soon as the
    channel has been renamed, and keeps it whatever happens to the two
    notices that follow; nothing else of the ticket changes, its activity
    included.  A close that goes through afterwards files the ticket in the
    closed-ticket log under the new category.  A transfer of a ticket that
    is no longer in the active index renames the channel all the same and
    answers with the error of the missing key. *)
Theorem X21_transfer_then_close (cfg : config) (tr1 tr2 : transport)
    (now2 : time) (closer : member) (channel : channel) (user : member)
    (new_category : string) (s : store) :
  tr_channel_edit tr1 (ch_id channel) = Ok tt →
  let s1 := store_after (transfer_callback tr1 channel user new_category) s in
  (∀ t,
     lookup_ticket (m_id user) (ch_id channel) (active_tickets s) = Some t →
     lookup_ticket (m_id user) (ch_id channel) (active_tickets s1)
     = Some (set_category new_category t)
     ∧ (close_goes_through cfg tr2 now2 channel user →
        let closed :=
          store_after (actually_close_ticket cfg tr2 now2 closer channel user)
            s1 in
        ∃ summary,
          ticket_logs closed
          = append_log (pretty (m_id user)) summary (ticket_logs s)
          ∧ cr_category summary = new_category
          ∧ cr_created_at summary = tk_created_at t
          ∧ cr_message_count summary = Z.of_nat (length (tk_messages t))))
  ∧ (lookup_ticket (m_id user) (ch_id channel) (active_tickets s) = None →
     ∃ e, transfer_callback tr1 channel user new_category s
          = (Ok tt, s,
             [ ChannelEdit (ch_id channel);
               Respond ("Error transferring ticket: " +:+ e) ])).
Proof.
  intros Hedit s1. split.
  - intros t Hlook.
    assert (s1 = set_active
                   (update_ticket (m_id user) (ch_id channel)
                      (set_category new_category)) s) as Hs1
      by (by apply transfer_callback_store with (t := t)).
    assert (lookup_ticket (m_id user) (ch_id channel) (active_tickets s1)
            = Some (set_category new_category t)) as Hlook1
      by (by rewrite Hs1; simpl; rewrite lookup_update_ticket, Hlook).
    split; [done|]. intros Hthrough closed.
    exists (closed_summary channel (set_category new_category t) now2
              (pretty (m_id closer))).
    split; [|done]. subst closed.
    rewrite (close_present cfg tr2 now2 closer channel user s1 _ Hlook1 Hthrough).
    by rewrite Hs1.
  - intros Hnone. by apply transfer_callback_absent.
Qed.

Lemma X21_transfer_then_close_witness :
  lookup_ticket 1001 5000
    (active_tickets
       (store_after (transfer_callback tr_dm_closed sample_channel alice "Billing")
          one_open_ticket))
  = Some (set_category "Billing"
            (new_ticket sample_time sample_channel "Support")).
Proof.
  destruct (X21_transfer_then_close CONFIG tr_dm_closed tr_ok a_second_later bob
              sample_channel alice "Billing" one_open_ticket eq_refl)
    as [Hpresent _].
  by destruct (Hpresent _ eq_refl) as [Hlook _].
Defined.

(** ** The typing relay *)

Lemma set_get_same {K V} `{EqDecision K} (k : K) (v : V) (d : odict K V) :
  OD.get k d = Some v → OD.set k v d = d.
Proof.
  induction d as [|[k0 v0] d IH]; simpl; [done|].
  destruct (decide (k = k0)) as [->|Hne].
  - by intros [= ->].
  - intros Hget. by rewrite IH.
Qed.

Lemma update_ticket_same uid cid f a t :
  lookup_ticket uid cid a = Some t → f t = t → update_ticket uid cid f a = a.
Proof.
  unfold lookup_ticket, update_ticket.
  destruct (OD.get uid a) as [d|] eqn:Hd; [|done]. intros Ht Hf.
  rewrite Ht, Hf. by rewrite (set_get_same cid t d Ht), (set_get_same uid d a Hd).
Qed.

Lemma typing_flag_reset t :
  tk_user_typing t = false →
  set_user_typing false (set_user_typing true t) = t.
Proof. destruct t. simpl. by intros ->. Qed.

Section typing.
Context (tr : transport).

Lemma relay_user_typing_skipped uid cid t s :
  tk_closed t || tk_user_typing t = true →
  relay_user_typing tr uid (cid, t) s = (Ok tt, s, []).
Proof.
  intros Hskip. unfold relay_user_typing.
  by destruct (tk_closed t), (tk_user_typing t).
Qed.

Lemma relay_user_typing_relayed uid cid t s :
  lookup_ticket uid cid (active_tickets s) = Some t →
  tk_closed t = false → tk_user_typing t = false →
  tr_typing tr (ch_id (tk_channel t)) = Ok tt →
  relay_user_typing tr uid (cid, t) s = (Ok tt, s, []).
Proof.
  intros Hlook Hopen Hidle Htyping. unfold relay_user_typing.
  rewrite Hopen, Hidle. unfold_monad. simpl. rewrite Htyping. simpl.
  unfold set_active. simpl. rewrite update_ticket_twice.
  rewrite (update_ticket_same uid cid _ _ t Hlook (typing_flag_reset t Hidle)).
  by destruct s.
Qed.

Lemma relay_user_typing_raised uid cid t s e :
  tk_closed t = false → tk_user_typing t = false →
  tr_typing tr (ch_id (tk_channel t)) = Raise e →
  relay_user_typing tr uid (cid, t) s
  = (Raise e, set_active (update_ticket uid cid (set_user_typing true)) s, []).
Proof.
  intros Hopen Hidle Htyping. unfold relay_user_typing.
  rewrite Hopen, Hidle. unfold_monad. simpl. by rewrite Htyping.
Qed.

Lemma for_each_relay_user_typing uid tickets s :
  (∀ cid t, (cid, t) ∈ tickets →
     lookup_ticket uid cid (active_tickets s) = Some t
     ∧ (tk_closed t || tk_user_typing t = true
        ∨ tr_typing tr (ch_id (tk_channel t)) = Ok tt)) →
  for_each (relay_user_typing tr uid) tickets s = (Ok tt, s, []).
Proof.
  induction tickets as [|[cid t] tickets IH]; intros Hall; [done|].
  cbn [for_each]. unfold mbind, M_bind, bind.
  destruct (Hall cid t) as [Hlook Hcase]; [apply list_elem_of_here|].
  assert (relay_user_typing tr uid (cid, t) s = (Ok tt, s, [])) as ->.
  { destruct (tk_closed t || tk_user_typing t) eqn:Hskip.
    - by apply relay_user_typing_skipped.
    - apply orb_false_iff in Hskip as [Hopen Hidle].
      destruct Hcase as [|Htyping]; [done|].
      by apply relay_user_typing_relayed. }
  rewrite IH; [done|]. intros cid' t' Hin. apply Hall.
  by apply list_elem_of_further.
Qed.
End typing.

(** X22. The flag that guards the typing relay.  In a direct channel, the
    typing of a user who holds tickets is relayed into each ticket that is
    neither flagged closed nor already marked as typing: the mark is set,
    the indicator is shown, the mark is cleared.  On a transport that
    answers, all stores are afterwards as before.  When showing the
    indicator raises, the handler is left with the mark still set, and from
    then on the ticket is passed over: with all the open tickets of the
    user marked, a typing event asks nothing of the transport and changes
    nothing. *)
Theorem X22_typing_mark (tr : transport) (channel_id : Z) (user : member)
    (s : store) (tickets : odict Z ticket) :
  m_bot user = false →
  OD.get (m_id user) (active_tickets s) = Some tickets →
  NoDup (OD.keys tickets) →
  let typing := on_typing tr true channel_id user in
  ((∀ cid t, (cid, t) ∈ tickets →
      tr_typing tr (ch_id (tk_channel t)) = Ok tt) →
   typing s = (Ok tt, s, []))
  ∧ (∀ cid t rest e,
       tickets = (cid, t) :: rest →
       tk_closed t = false → tk_user_typing t = false →
       tr_typing tr (ch_id (tk_channel t)) = Raise e →
       typing s
       = (Raise e,
          set_active (update_ticket (m_id user) cid (set_user_typing true)) s,
          [])
       ∧ lookup_ticket (m_id user) cid
           (active_tickets (store_after typing s))
         = Some (set_user_typing true t))
  ∧ (Forall (fun kt => tk_closed kt.2 || tk_user_typing kt.2 = true) tickets →
     ∀ tr' channel_id',
       on_typing tr' true channel_id' user s = (Ok tt, s, [])).
Proof.
  intros Hbot Hget Hnodup typing.
  assert (∀ tr' channel_id' s',
            OD.get (m_id user) (active_tickets s') = Some tickets →
            on_typing tr' true channel_id' user s'
            = for_each (relay_user_typing tr' (m_id user)) tickets s')
    as Hrun.
  { intros tr' channel_id' s' Hget'. unfold on_typing. rewrite Hbot.
    unfold mbind at 1, M_bind at 1, bind at 1, get_store. simpl.
    rewrite Hget'.
    by destruct (for_each (relay_user_typing tr' (m_id user)) tickets s')
      as [[r s1] out]. }
  assert (∀ cid t, (cid, t) ∈ tickets →
            lookup_ticket (m_id user) cid (active_tickets s) = Some t)
    as Hlookup.
  { intros cid t Hin. unfold lookup_ticket. rewrite Hget.
    by apply ODFacts.elem_get. }
  split_and!.
  - intros Hanswers. subst typing. rewrite (Hrun _ _ _ Hget).
    apply for_each_relay_user_typing. intros cid t Hin.
    split; [by apply Hlookup|]. right. by apply (Hanswers cid).
  - intros cid t rest e -> Hopen Hidle Hraise.
    assert (typing s
            = (Raise e,
               set_active
                 (update_ticket (m_id user) cid (set_user_typing true)) s,
               [])) as Htyping.
    { subst typing. rewrite (Hrun _ _ _ Hget). cbn [for_each].
      unfold mbind, M_bind, bind.
      by rewrite (relay_user_typing_raised tr (m_id user) cid t s e Hopen Hidle
                    Hraise). }
    split; [done|]. unfold store_after. rewrite Htyping. simpl.
    rewrite lookup_update_ticket, (Hlookup cid t); [done|].
    apply list_elem_of_here.
  - intros Hmarked tr' channel_id'. rewrite (Hrun _ _ _ Hget).
    apply for_each_relay_user_typing. intros cid t Hin.
    split; [by apply Hlookup|]. left.
    rewrite Forall_forall in Hmarked. apply (Hmarked (cid, t) Hin).
Qed.

Lemma X22_typing_mark_witness :
  on_typing tr_ok true 6001 alice one_open_ticket = (Ok tt, one_open_ticket, []).
Proof.
  destruct (X22_typing_mark tr_ok 6001 alice one_open_ticket
              [(5000, new_ticket sample_time sample_channel "Support")]
              eq_refl eq_refl) as [Hanswers _].
  - apply NoDup_singleton.
  - apply Hanswers. intros cid t _. reflexivity.
Defined.

(** ** The blacklist command *)

Lemma set_blacklist_same f s :
  f (blacklisted_users s) = blacklisted_users s → set_blacklist f s = s.
Proof. unfold set_blacklist. intros ->. by destruct s. Qed.

Section command.
Context (cfg : config) (tr : transport).

Lemma ticket_command_refused ctx_channel author roles action mentions s :
  m_roles author = Some roles → is_staff cfg roles = false →
  store_after (ticket_command cfg tr true ctx_channel author action mentions) s
  = s.
Proof.
  intros Hroles Hstaff. unfold ticket_command. unfold_monad. rewrite Hroles.
  simpl. rewrite Hstaff. simpl. by destruct (tr_channel_send tr ctx_channel).
Qed.

Lemma ticket_command_outside ctx_channel author action mentions s :
  store_after (ticket_command cfg tr false ctx_channel author action mentions) s
  = s.
Proof.
  unfold ticket_command. unfold_monad. simpl.
  by destruct (tr_channel_send tr ctx_channel).
Qed.

Lemma ticket_command_blacklist ctx_channel author roles user rest s :
  m_roles author = Some roles → is_staff cfg roles = true →
  store_after
    (ticket_command cfg tr true ctx_channel author "blacklist" (user :: rest)) s
  = set_blacklist (fun b => {[m_id user]} ∪ b) s.
Proof.
  intros Hroles Hstaff. unfold ticket_command. unfold_monad. rewrite Hroles.
  simpl. rewrite Hstaff. simpl.
  destruct (tr_channel_send tr ctx_channel); simpl; [|done].
  by destruct (tr_log_action tr).
Qed.

Lemma ticket_command_unblacklist ctx_channel author roles user rest s :
  m_roles author = Some roles → is_staff cfg roles = true →
  store_after
    (ticket_command cfg tr true ctx_channel author "unblacklist" (user :: rest))
    s
  = set_blacklist (fun b => b ∖ {[m_id user]}) s.
Proof.
  intros Hroles Hstaff. unfold ticket_command. unfold_monad. rewrite Hroles.
  simpl. rewrite Hstaff. simpl.
  destruct (decide (m_id user ∈ blacklisted_users s)) as [Hin|Hout]; simpl.
  - destruct (tr_channel_send tr ctx_channel); simpl; [|done].
    by destruct (tr_log_action tr).
  - rewrite set_blacklist_same
      by (by apply difference_disjoint_L, disjoint_singleton_r).
    by destruct (tr_channel_send tr ctx_channel).
Qed.

Lemma ticket_command_no_mention ctx_channel author action s :
  store_after (ticket_command cfg tr true ctx_channel author action []) s = s.
Proof.
  unfold ticket_command. unfold_monad.
  destruct (m_roles author) as [roles|]; simpl; [|done].
  destruct (is_staff cfg roles); simpl;
    [|by destruct (tr_channel_send tr ctx_channel)].
  destruct (decide (action = "blacklist")); simpl;
    [by destruct (tr_channel_send tr ctx_channel)|].
  destruct (decide (action = "unblacklist")); simpl;
    [by destruct (tr_channel_send tr ctx_channel)|].
  done.
Qed.

Lemma ticket_command_other in_guild ctx_channel author action mentions s :
  action ≠ "blacklist" → action ≠ "unblacklist" →
  store_after
    (ticket_command cfg tr in_guild ctx_channel author action mentions) s
  = s.
Proof.
  intros H1 H2. unfold ticket_command. unfold_monad.
  destruct in_guild; simpl; [|by destruct (tr_channel_send tr ctx_channel)].
  destruct (m_roles author) as [roles|]; simpl; [|done].
  destruct (is_staff cfg roles); simpl;
    [|by destruct (tr_channel_send tr ctx_channel)].
  destruct (decide (action = "blacklist")); [done|].
  by destruct (decide (action = "unblacklist")).
Qed.
End command.

(** X23. The blacklist by command.  [!ticket] changes a store only when
    it is used in a guild by a member with a staff role, with the action
    [blacklist] or [unblacklist] and a mention: the first user mentioned is
    then added to, or removed from, the blacklist, whether or not the
    answer and the audit entry that follow can be sent.  Unblacklisting
    after blacklisting gives back the blacklist of before for a user who
    was not on it; blacklisting twice is blacklisting once; and
    unblacklisting a user who is not blacklisted changes nothing. *)
Theorem X23_blacklist_command (cfg : config) (tr : transport) (ctx_channel : Z)
    (author : member) (roles : list string) (user : member)
    (rest : list member) (s : store) :
  m_roles author = Some roles →
  let command in_guild action mentions :=
    store_after
      (ticket_command cfg tr in_guild ctx_channel author action mentions) in
  (∀ action mentions, command false action mentions s = s)
  ∧ (is_staff cfg roles = false →
     ∀ action mentions, command true action mentions s = s)
  ∧ (∀ in_guild action mentions,
       action ≠ "blacklist" → action ≠ "unblacklist" →
       command in_guild action mentions s = s)
  ∧ (∀ action, command true action [] s = s)
  ∧ (is_staff cfg roles = true →
     command true "blacklist" (user :: rest) s
     = set_blacklist (fun b => {[m_id user]} ∪ b) s
     ∧ command true "unblacklist" (user :: rest) s
       = set_blacklist (fun b => b ∖ {[m_id user]}) s
     ∧ command true "blacklist" (user :: rest)
         (command true "blacklist" (user :: rest) s)
       = command true "blacklist" (user :: rest) s
     ∧ (m_id user ∉ blacklisted_users s →
        command true "unblacklist" (user :: rest) s = s
        ∧ command true "unblacklist" (user :: rest)
            (command true "blacklist" (user :: rest) s)
          = s)).
Proof.
  intros Hroles command. split_and!.
  - intros action mentions. apply ticket_command_outside.
  - intros Hstaff action mentions. by apply ticket_command_refused with roles.
  - intros in_guild action mentions H1 H2. by apply ticket_command_other.
  - intros action. apply ticket_command_no_mention.
  - intros Hstaff. subst command. cbv beta.
    rewrite !(ticket_command_blacklist cfg tr ctx_channel author roles user rest)
      by done.
    rewrite !(ticket_command_unblacklist cfg tr ctx_channel author roles user
                rest) by done.
    split_and!; [done | done | |].
    + unfold set_blacklist. simpl. f_equal.
      by rewrite (assoc_L (∪)), (idemp_L (∪)).
    + intros Hout.
      assert (blacklisted_users s ∖ {[m_id user]} = blacklisted_users s)
        as Hsame by (by apply difference_disjoint_L, disjoint_singleton_r).
      split.
      * by apply set_blacklist_same.
      * unfold set_blacklist. simpl. destruct s. simpl in *. f_equal.
        by rewrite difference_union_distr_l_L, difference_diag_L,
          (left_id_L ∅ (∪)).
Qed.

Lemma X23_blacklist_command_witness :
  store_after
    (ticket_command CONFIG tr_ok true 4000 bob "unblacklist" [alice])
    (store_after (ticket_command CONFIG tr_ok true 4000 bob "blacklist" [alice])
       one_open_ticket)
  = one_open_ticket.
Proof.
  destruct (X23_blacklist_command CONFIG tr_ok 4000 bob ["Moderator"] alice []
              one_open_ticket eq_refl) as (_ & _ & _ & _ & Hstaff).
  destruct (Hstaff eq_refl) as (_ & _ & _ & Hround).
  apply Hround. apply not_elem_of_empty.
Defined.

(** ** The figures of [!ticket stats] *)

Lemma active_count_bounds (limit : Z) (a : odict Z (odict Z ticket)) :
  Forall (fun entry => entry.2 ≠ []) a →
  Forall (fun entry => OD.len entry.2 ≤ limit) a →
  OD.len a
  ≤ foldr (fun entry total => OD.len entry.2 + total) 0
      (a : list (Z * odict Z ticket))
  ≤ limit * OD.len a.
Proof.
  unfold OD.len. induction a as [|[uid d] a IH]; simpl.
  - intros _ _. lia.
  - intros [Hne Hall]%Forall_cons [Hle Hbound]%Forall_cons. simpl in *.
    specialize (IH Hall Hbound).
    assert (1 ≤ Z.of_nat (length d)) by (destruct d; [done | simpl; lia]).
    rewrite Nat2Z.inj_succ, <- Z.add_1_l, Z.mul_add_distr_l. lia.
Qed.

Lemma length_del_present {K V} `{EqDecision K} (k : K) (v : V) (d : odict K V) :
  OD.get k d = Some v → S (length (OD.del k d)) = length d.
Proof.
  induction d as [|[k0 v0] d IH]; simpl; [done|].
  destruct (decide (k = k0)); [done|]. intros Hget. simpl. by rewrite IH.
Qed.

Lemma ticket_count_remove uid cid t a :
  NoDup (OD.keys a) → lookup_ticket uid cid a = Some t →
  ticket_count uid (remove_ticket uid cid a) = ticket_count uid a - 1.
Proof.
  intros Hnd. unfold lookup_ticket, ticket_count, remove_ticket.
  destruct (OD.get uid a) as [d|] eqn:Hd; [|done]. intros Ht.
  pose proof (length_del_present cid t d Ht) as Hlen.
  destruct (OD.del cid d) as [|e d'] eqn:Hdel.
  - rewrite ODFacts.get_del_eq by done. unfold OD.len. simpl in Hlen. lia.
  - rewrite ODFacts.get_set_eq. unfold OD.len. lia.
Qed.

Lemma user_active_ticket_count user s :
  user_active user s = ticket_count (m_id user) (active_tickets s).
Proof.
  unfold user_active, ticket_count.
  by destruct (OD.get (m_id user) (active_tickets s)).
Qed.

(** X24. The figures of [!ticket stats].  Along every run from the empty
    stores, "Users with Tickets" counts the users who hold at least one
    ticket, and "Active Tickets" is at least that number, and at most [m]
    times that number when no user holds more than [m] tickets.  A user's
    "Total" is the number of summaries in the user's closed-ticket log: it
    does not count the tickets that are still active.  A close that goes
    through moves one ticket of the owner from "Active" to "Total". *)
Theorem X24_ticket_statistics (cfg : config) (steps : list step)
    (tr : transport) (now : time) (closer : member) (channel : channel)
    (user : member) :
  let s := exec cfg steps empty_store in
  total_users s ≤ active_count s
  ∧ (∀ m, Forall (fun entry => OD.len entry.2 ≤ m) (active_tickets s) →
          active_count s ≤ m * total_users s)
  ∧ (∀ other, 1 ≤ user_active other s
              ↔ OD.mem (m_id other) (active_tickets s) = true)
  ∧ (guarded cfg fresh_channel steps empty_store →
     ∀ t,
       lookup_ticket (m_id user) (ch_id channel) (active_tickets s) = Some t →
       close_goes_through cfg tr now channel user →
       let s' :=
         store_after (actually_close_ticket cfg tr now closer channel user) s in
       user_active user s' = user_active user s - 1
       ∧ user_total user s' = user_total user s + 1).
Proof.
  intros s. split; [|split; [|split]].
  - assert (∃ m, Forall (fun entry : Z * odict Z ticket => OD.len entry.2 ≤ m)
                   (active_tickets s)) as [m Hm].
    { clear. induction (active_tickets s) as [|[uid d] a [m IH]].
      - by exists 0.
      - exists (Z.max m (OD.len d)). constructor; simpl; [lia|].
        eapply Forall_impl; [exact IH|]. simpl. intros; lia. }
    apply (active_count_bounds m); [apply no_empty_owner_exec | exact Hm].
  - intros m Hm. apply (active_count_bounds m); [|exact Hm].
    apply no_empty_owner_exec.
  - intros other. rewrite user_active_ticket_count. unfold OD.mem, ticket_count.
    pose proof (no_empty_owner_exec cfg steps) as Hne. fold s in Hne.
    destruct (OD.get (m_id other) (active_tickets s)) as [d|] eqn:Hd.
    + pose proof (ODFacts.Forall_get _ _ _ _ Hne Hd) as Hd'. simpl in Hd'.
      unfold OD.len. destruct d; [done|]. simpl. split; [done | lia].
    + split; [lia | done].
  - intros Hfresh t Hlook Hthrough s'.
    pose proof (well_formed_exec cfg steps Hfresh) as [Hk _]. fold s in Hk.
    assert (s' = archive_and_remove now (m_id user) (ch_id channel) channel t
                   (pretty (m_id closer)) s) as ->
      by (by apply close_present).
    rewrite !user_active_ticket_count. unfold archive_and_remove. simpl. split.
    + by apply ticket_count_remove with t.
    + unfold user_total, append_log. simpl. rewrite lookup_insert_eq. simpl.
      rewrite length_app. simpl. lia.
Qed.

Lemma X24_ticket_statistics_witness :
  stats_fields one_open_ticket [alice]
  = [ ("Active Tickets", "1"); ("Users with Tickets", "1");
      ("Blacklisted Users", "0");
      ("alice's Stats", "Active: 1" +:+ nl +:+ "Total: 0") ]
  ∧ total_users one_open_ticket ≤ active_count one_open_ticket.
Proof.
  split; [reflexivity|].
  apply (X24_ticket_statistics CONFIG
           [ {| st_event := EvTicketButton alice "Support" "Support ticket requested";
                st_now := sample_time; st_transport := tr_ok |} ]
           tr_ok a_second_later bob sample_channel alice).
Defined.

(** ** The quick reply *)



(** ** Failures after the point of no return *)

(** X26. The forwarding of a user's message on which every call returns:
    the message is posted in the ticket channel, the three reactions are
    added to the posted message and the check mark to the user's message,
    in that order, and the attachment table gets an entry exactly when the
    message has attachments.  When one of the reactions raises, the message
    has been delivered and logged all the same, the attachment table is not
    written, and the user is told that sending the message failed. *)
Theorem X26_forward_delivered (cfg : config) (tr : transport) (now : time)
    (message : message) (channel : channel) (s : store) (owner ticket_msg : Z) :
  find_channel (ch_id channel) (active_tickets s) = Some owner →
  tr_channel_send tr (ch_id channel) = Ok ticket_msg →
  let forward := forward_to_channel cfg tr now message channel in
  let posted :=
    ChannelSend (ch_id channel)
      (PForward (m_id (msg_author message)) (msg_content message)
         (attachment_urls message)) in
  let logged :=
    set_active
      (update_ticket owner (ch_id channel)
         (fun t => append_message (user_entry now message ticket_msg)
                     (set_last_activity now t))) s in
  (tr_add_reaction tr ticket_msg CheckMark = Ok tt →
   tr_add_reaction tr ticket_msg ReplyArrow = Ok tt →
   tr_add_reaction tr ticket_msg Memo = Ok tt →
   tr_add_reaction tr (msg_id message) CheckMark = Ok tt →
   forward s
   = (Ok tt,
      match msg_attachments message with
      | [] => logged
      | _ =>
          set_attachments
            (fun table =>
               <[ticket_msg := (m_id (msg_author message), ch_id channel,
                                attachment_urls message)]> table)
            logged
      end,
      [ posted; AddReaction ticket_msg CheckMark;
        AddReaction ticket_msg ReplyArrow; AddReaction ticket_msg Memo;
        AddReaction (msg_id message) CheckMark ]))
  ∧ (∀ e notice,
       tr_add_reaction tr ticket_msg CheckMark = Raise e →
       tr_channel_send tr (msg_channel message) = Ok notice →
       forward s
       = (Ok tt, logged,
          [ posted;
            LoggerError ("Error forwarding message to channel: " +:+ e);
            ChannelSend (msg_channel message)
              (PText ("Error sending your message: " +:+ e
                        +:+ ". Please try again later.")) ])).
Proof.
  intros Hfind Hsend forward posted logged.
  assert (set_active
            (update_ticket owner (ch_id channel)
               (append_message (user_entry now message ticket_msg)))
            (set_active
               (update_ticket owner (ch_id channel) (set_last_activity now)) s)
          = logged) as Hlogged.
  { subst logged. unfold set_active. simpl. by rewrite update_ticket_twice. }
  split.
  - intros H1 H2 H3 H4. subst forward. unfold forward_to_channel. unfold_monad.
    rewrite Hfind. simpl. rewrite Hsend. simpl. rewrite H1. simpl.
    rewrite H2. simpl. rewrite H3. simpl. rewrite H4. simpl.
    rewrite <- Hlogged. by destruct (msg_attachments message).
  - intros e notice H1 Hnotice. subst forward. unfold forward_to_channel.
    unfold_monad. rewrite Hfind. simpl. rewrite Hsend. simpl. rewrite H1.
    simpl. rewrite Hnotice. simpl. by rewrite <- Hlogged.
Qed.

Lemma X26_forward_delivered_witness :
  forward_to_channel CONFIG tr_ok (sample_time + 5) alice_says_hello
    sample_channel one_open_ticket
  = (Ok tt,
     set_active
       (update_ticket 1001 5000
          (fun t => append_message
                      (user_entry (sample_time + 5) alice_says_hello 9000)
                      (set_last_activity (sample_time + 5) t)))
       one_open_ticket,
     [ ChannelSend 5000 (PForward 1001 "hello" []);
       AddReaction 9000 CheckMark; AddReaction 9000 ReplyArrow;
       AddReaction 9000 Memo; AddReaction 7001 CheckMark ]).
Proof.
  destruct (X26_forward_delivered CONFIG tr_ok (sample_time + 5)
              alice_says_hello sample_channel one_open_ticket 1001 9000
              eq_refl eq_refl) as [Hall _].
  apply Hall; reflexivity.
Defined.

(** X27. A close past its store update.  Once the transcript is built and
    the closing notice is posted, the ticket is removed from the active
    index and filed in the closed-ticket log, whether or not the owner can
    be told (a direct message that raises is only logged).  What follows
    can still fail.  When the audit entry raises, the ticket is gone from
    the active index but its channel is not deleted, and the staff member
    gets the error instead of the confirmation.  When the deletion of the
    channel raises, the confirmation has been given: the error cannot be
    answered to the same interaction, the attempt raises in its turn, and
    that exception leaves the handler without anything being logged. *)
Theorem X27_close_past_store_update (cfg : config) (tr : transport)
    (now : time) (closer : member) (channel : channel) (user : member)
    (s : store) (t : ticket) (transcript : string) (notice : Z) :
  lookup_ticket (m_id user) (ch_id channel) (active_tickets s) = Some t →
  transcript_result cfg tr now channel user = Ok transcript →
  tr_channel_send tr (ch_id channel) = Ok notice →
  let close := actually_close_ticket cfg tr now closer channel user in
  let closed :=
    archive_and_remove now (m_id user) (ch_id channel) channel t
      (pretty (m_id closer)) s in
  let told :=
    match tr_user_send tr (m_id user) with
    | Ok _ =>
        UserSend (m_id user)
          (PClosedDM ("transcript-" +:+ ch_name channel +:+ ".txt") transcript)
    | Raise e =>
        LoggerError ("Could not send closing notification to user: " +:+ e)
    end in
  let audit :=
    LogAction
      ("Ticket closed by " +:+ m_name closer +:+ " ("
         +:+ pretty (m_id closer) +:+ ")")
      "Ticket Closure" "" in
  store_after close s = closed
  ∧ (∀ e, tr_log_action tr = Raise e →
       outcome_of close s = Ok tt
       ∧ effects_of close s
         = [ ChannelSend (ch_id channel) (PClosing (m_id closer)); told;
             Respond ("Error closing ticket: " +:+ e);
             LoggerError ("Error closing ticket: " +:+ e) ])
  ∧ (∀ e, tr_log_action tr = Ok tt →
       tr_channel_delete tr (ch_id channel) = Raise e →
       outcome_of close s
       = Raise "This interaction has already been responded to before"
       ∧ effects_of close s
         = [ ChannelSend (ch_id channel) (PClosing (m_id closer)); told;
             audit; Respond close_success_message ])
  ∧ (tr_log_action tr = Ok tt →
     tr_channel_delete tr (ch_id channel) = Ok tt →
     outcome_of close s = Ok tt
     ∧ effects_of close s
       = [ ChannelSend (ch_id channel) (PClosing (m_id closer)); told;
           audit; Respond close_success_message;
           ChannelDelete (ch_id channel) ]).
Proof.
  intros Hlook Htranscript Hnotice close closed told audit.
  subst close closed told audit. unfold actually_close_ticket. unfold_monad.
  rewrite create_transcript_run, Htranscript. simpl. rewrite Hnotice. simpl.
  destruct (tr_user_send tr (m_id user)) as [dm|e0]; simpl; rewrite Hlook;
    simpl;
    (destruct (tr_log_action tr) as [[]|e1]; simpl;
     [destruct (tr_channel_delete tr (ch_id channel)) as [[]|e2]; simpl|]);
    split_and!; try done;
    try (by intros e [= <-]); try (by intros e _ [= <-]); try (by intros e [=]);
    try (by intros e _ [=]); try (by intros _ [=]); try (by intros [=]).
Qed.

Lemma X27_close_past_store_update_witness :
  let close :=
    actually_close_ticket CONFIG tr_delete_forbidden a_second_later bob
      sample_channel alice in
  lookup_ticket 1001 5000 (active_tickets (store_after close one_open_ticket))
  = None
  ∧ outcome_of close one_open_ticket
    = Raise "This interaction has already been responded to before".
Proof.
  destruct (X27_close_past_store_update CONFIG tr_delete_forbidden
              a_second_later bob sample_channel alice one_open_ticket
              (new_ticket sample_time sample_channel "Support")
              (transcript_header a_second_later sample_channel alice) 9000
              eq_refl eq_refl eq_refl) as (Hstore & _ & Hdelete & _).
  split.
  - rewrite Hstore. reflexivity.
  - apply (Hdelete _ eq_refl eq_refl).
Defined.

(** ** The answer of a ticket button *)

Lemma fails_after_insert_dec tr uid cid :
  fails_after_insert tr uid cid ∨ ¬ fails_after_insert tr uid cid.
Proof.
  unfold fails_after_insert.
  destruct (tr_channel_send tr cid) as [control_message|]; [|by left].
  destruct (tr_pin tr control_message); [|by left].
  destruct (tr_user_send tr uid); [|by left].
  destruct (tr_log_action tr); [right; tauto | by left].
Qed.

Section answers.
Context (cfg : config) (tr : transport) (now : time).

Lemma create_ticket_past_guards user category_name message_content s cid :
  reaches_insert cfg tr now user category_name s cid →
  let attempt := create_ticket cfg tr now user category_name message_content in
  store_after attempt s
  = set_active
      (insert_ticket (m_id user) cid
         (new_ticket now
            {| ch_id := cid;
               ch_name := ticket_channel_name now user category_name |}
            category_name)) s
  ∧ (fails_after_insert tr (m_id user) cid →
     outcome_of attempt s = Ok create_error_message)
  ∧ (¬ fails_after_insert tr (m_id user) cid →
     outcome_of attempt s = Ok (created_message category_name)).
Proof.
  intros (Hlim & Hbl & Hcat & Hch) attempt. subst attempt.
  unfold create_ticket, fails_after_insert. unfold_monad. simpl.
  rewrite Hlim. simpl.
  destruct (decide (m_id user ∈ blacklisted_users s)); [done|]. simpl.
  rewrite Hcat. simpl. rewrite Hch. simpl.
  destruct (tr_channel_send tr cid) as [control_message|]; simpl;
    [|by split_and!].
  destruct (tr_pin tr control_message) as [[]|]; simpl; [|by split_and!].
  destruct (tr_user_send tr (m_id user)); simpl; [|by split_and!].
  destruct (tr_log_action tr) as [[]|]; simpl; by split_and!.
Qed.

Lemma create_ticket_before_insert user category_name message_content s :
  (∀ cid, ¬ reaches_insert cfg tr now user category_name s cid) →
  ∃ r, outcome_of
         (create_ticket cfg tr now user category_name message_content) s
       = Ok r
       ∧ (r = limit_message ∨ r = blacklist_message ∨ r = create_error_message).
Proof.
  intros Hnot. unfold reaches_insert in Hnot.
  unfold create_ticket. unfold_monad. simpl.
  destruct (limit_reached cfg (m_id user) s); simpl; [eauto|].
  destruct (decide (m_id user ∈ blacklisted_users s)); simpl; [eauto|].
  destruct (tr_get_category tr) as [[]|]; simpl; [|eauto].
  destruct (tr_create_text_channel tr _) as [cid|] eqn:Hch; simpl; [|eauto].
  by destruct (Hnot cid).
Qed.

Lemma then_respond (m : M string) (r : string) (s : store) :
  outcome_of m s = Ok r →
  (response ← m; emit (Respond response)) s
  = (Ok tt, store_after m s, effects_of m s ++ [Respond r]).
Proof.
  unfold_monad. destruct (m s) as [[[r0|e] s'] out]; simpl; [|done].
  by intros [= ->].
Qed.
End answers.

(** X28. [create_ticket] never raises: it answers with one of four texts,
    and the button that called it passes that text on.  The confirmation
    is the answer exactly when the two guards were passed and every
    transport call returned; the user who reads it has a ticket in the
    active index. *)
Theorem X28_create_ticket_answers (cfg : config) (tr : transport) (now : time)
    (user : member) (category_name message_content : string) (s : store) :
  let attempt := create_ticket cfg tr now user category_name message_content in
  ∃ r,
    outcome_of attempt s = Ok r
    ∧ (r = limit_message ∨ r = blacklist_message
       ∨ r = created_message category_name ∨ r = create_error_message)
    ∧ (r = created_message category_name
       ↔ ∃ cid, reaches_insert cfg tr now user category_name s cid
                ∧ ¬ fails_after_insert tr (m_id user) cid)
    ∧ (r = created_message category_name →
       ∃ cid channel_name,
         lookup_ticket (m_id user) cid (active_tickets (store_after attempt s))
         = Some (new_ticket now {| ch_id := cid; ch_name := channel_name |}
                   category_name))
    ∧ ticket_button cfg tr now user category_name message_content s
      = (Ok tt, store_after attempt s, effects_of attempt s ++ [Respond r]).
Proof.
  destruct (limit_message_distinct category_name) as (H1 & H2 & H3 & H4 & H5).
  assert (create_error_message ≠ created_message category_name) as H6
    by discriminate.
  intros attempt.
  assert ((∃ cid, reaches_insert cfg tr now user category_name s cid)
          ∨ ∀ cid, ¬ reaches_insert cfg tr now user category_name s cid)
    as [[cid Hreach]|Hnot].
  { unfold reaches_insert.
    destruct (limit_reached cfg (m_id user) s);
      [right; by intros cid (? & _)|].
    destruct (decide (m_id user ∈ blacklisted_users s));
      [right; by intros cid (_ & ? & _)|].
    destruct (tr_get_category tr) as [[]|];
      [|right; by intros cid (_ & _ & ? & _)].
    destruct (tr_create_text_channel tr _) as [cid|];
      [|right; by intros cid (_ & _ & _ & ?)].
    left. by exists cid. }
  - destruct (create_ticket_past_guards cfg tr now user category_name
                message_content s cid Hreach) as (Hstore & Hfail & Hsuccess).
    fold attempt in Hstore, Hfail, Hsuccess.
    assert (∀ cid0, reaches_insert cfg tr now user category_name s cid0 →
                    cid0 = cid) as Hsame.
    { intros cid0 (_ & _ & _ & Hch0). destruct Hreach as (_ & _ & _ & Hch).
      congruence. }
    destruct (fails_after_insert_dec tr (m_id user) cid) as [Hf|Hs].
    + exists create_error_message. split; [by apply Hfail|].
      split; [by repeat right|]. split; [|split].
      * split; [done|]. intros (cid0 & Hreach0 & Hno).
        rewrite (Hsame _ Hreach0) in Hno. by destruct Hno.
      * done.
      * apply then_respond. by apply Hfail.
    + exists (created_message category_name). split; [by apply Hsuccess|].
      split; [right; right; by left|]. split; [|split].
      * split; [|done]. intros _. by exists cid.
      * intros _. exists cid, (ticket_channel_name now user category_name).
        rewrite Hstore. apply lookup_insert_ticket.
      * apply then_respond. by apply Hsuccess.
  - destruct (create_ticket_before_insert cfg tr now user category_name
                message_content s Hnot) as (r & Hr & Hcases).
    fold attempt in Hr. exists r. split; [done|].
    assert (r ≠ created_message category_name) as Hne
      by (destruct Hcases as [Hr'|[Hr'|Hr']]; by rewrite Hr').
    split; [|split; [|split]].
    + destruct Hcases as [Hr'|[Hr'|Hr']]; tauto.
    + split; [done|]. intros (cid & Hreach & _). by destruct (Hnot cid).
    + done.
    + by apply then_respond.
Qed.

Lemma X28_create_ticket_answers_witness :
  ∃ r,
    outcome_of
      (create_ticket CONFIG tr_dm_closed sample_time alice "Support"
         "Support ticket requested")
      empty_store
    = Ok r
    ∧ (r = limit_message ∨ r = blacklist_message
       ∨ r = created_message "Support" ∨ r = create_error_message).
Proof.
  destruct (X28_create_ticket_answers CONFIG tr_dm_closed sample_time alice
              "Support" "Support ticket requested" empty_store)
    as (r & Hr & Hcases & _).
  exists r. split; [exact Hr | exact Hcases].
Defined.
